(** * Correlation and matching reduction of the KI-Absicherung metric
      benchmarking tool

    A shallow embedding of
      - [kia_mbt/kia_correlate/box_correlator.py]      (class BoxCorrelator),
      - [kia_mbt/kia_correlate/matching_reduction.py]  (class MatchingReduction),
      - [kia_mbt/kia_correlate/matching_threshold.py]  (class MatchingThreshold),
    together with the properties of the specification that concern them.

    Conventions of the embedding.
      - A Python float is a [pyfloat]: the IEEE special values (nan, -inf,
        +inf) and the finite values, the latter carried by rationals.
        Comparisons and arithmetic on the special values follow IEEE 754 /
        Python.  An operation on finite values yields the exact result
        passed through [binary64], the rounding of the float format: to
        the nearest number with a significand of 53 bits and an exponent
        of at least -1074, ties to the even significand, and to an
        infinity beyond the largest float.  (The sign of zero is not
        kept.)
      - A pandas DataFrame is the list of its rows, in row order; an input
        table carries its index as a field of the row.
      - A Python exception is the [None] of an [option] (or the right
        injection of a sum where the exception is named).
      - A call whose result the library leaves open (the order in which a
        set is visited, the order of ties after an unstable sort) is a
        parameter, of which the statements assume what the library
        promises. *)

From Stdlib Require Import QArith Qminmax Lqa Lia Qpower Qround Qabs.
From Stdlib Require Import Bool List String Ascii.
From Stdlib Require Import Permutation Sorted OrderedTypeEx PeanoNat.
Import ListNotations.

Set Implicit Arguments.
Local Open Scope Q_scope.

(* ================================================================== *)
(** * Python floats *)
(* ================================================================== *)

Module PyFloat.

Inductive pyfloat : Type :=
| NaN
| NInf
| Fin (q : Q)
| PInf.

Definition Qlt_bool (a b : Q) : bool := negb (Qle_bool b a).

(** [x < y] *)
Definition flt (x y : pyfloat) : bool :=
match x, y with
| NaN, _ | _, NaN => false
| NInf, NInf => false
| NInf, _ => true
| Fin _, NInf => false
| Fin a, Fin b => Qlt_bool a b
| Fin _, PInf => true
| PInf, _ => false
end.

(** [x <= y] *)
Definition fle (x y : pyfloat) : bool :=
match x, y with
| NaN, _ | _, NaN => false
| NInf, _ => true
| Fin _, NInf => false
| Fin a, Fin b => Qle_bool a b
| Fin _, PInf => true
| PInf, PInf => true
| PInf, _ => false
end.

(** [x > y] and [x >= y] *)
Definition fgt (x y : pyfloat) : bool := flt y x.
Definition fge (x y : pyfloat) : bool := fle y x.

(** [math.isnan] / [pd.isna] on a float *)
Definition isnan (x : pyfloat) : bool :=
match x with NaN => true | _ => false end.

Definition fneg (x : pyfloat) : pyfloat :=
match x with
| NaN => NaN
| NInf => PInf
| Fin q => Fin (- q)
| PInf => NInf
end.

(** [2 ** e] *)
Definition pow2 (e : Z) : Q := 2 ^ e.

(** The integer nearest to [x], the even one of two that are equally near. *)
Definition round_half_even (x : Q) : Z :=
  let f := Qfloor x in
  match Qcompare (x - inject_Z f) (1 # 2) with
  | Lt => f
  | Gt => (f + 1)%Z
  | Eq => if Z.even f then f else (f + 1)%Z
  end.

(** For a positive [q], the integer [e] with [2 ** e <= q < 2 ** (e + 1)]. *)
Definition floor_log2 (q : Q) : Z :=
  let e := (Z.log2 (Qnum q) - Z.log2 (Zpos (Qden q)))%Z in
  if Qlt_bool q (pow2 e) then (e - 1)%Z else e.

(** The exponent of the unit in the last place of the floats around [q]:
    53 bits of significand, and no exponent below that of the subnormal
    numbers. *)
Definition float_exponent (q : Q) : Z :=
  Z.max (floor_log2 (Qabs q) - 52) (-1074).

(** The multiple of the unit in the last place that is nearest to [q]. *)
Definition nearest_float (q : Q) : Q :=
  let e := float_exponent q in
  inject_Z (round_half_even (q / pow2 e)) * pow2 e.

(** The largest binary64 number, [(2^53 - 1) * 2^971]. *)
Definition float_max : Q := inject_Z ((2 ^ 53 - 1) * 2 ^ 971).

(** The float that stands for the rational [q]: the result of an operation
    whose exact result is [q], and the value of a literal. *)
Definition binary64 (q : Q) : pyfloat :=
  let v := Qred (nearest_float q) in
  if Qlt_bool float_max v then PInf
  else if Qlt_bool v (- float_max) then NInf
  else Fin v.

Definition fadd (x y : pyfloat) : pyfloat :=
match x, y with
| NaN, _ | _, NaN => NaN
| PInf, NInf | NInf, PInf => NaN
| PInf, _ | _, PInf => PInf
| NInf, _ | _, NInf => NInf
| Fin a, Fin b => binary64 (a + b)
end.

Definition fsub (x y : pyfloat) : pyfloat := fadd x (fneg y).

(** an infinity of the sign of [q] times the sign [pos]; [inf * 0] is nan *)
Definition inf_signed (pos : bool) (q : Q) : pyfloat :=
match q ?= 0 with
| Eq => NaN
| Gt => if pos then PInf else NInf
| Lt => if pos then NInf else PInf
end.

Definition fmul (x y : pyfloat) : pyfloat :=
match x, y with
| NaN, _ | _, NaN => NaN
| PInf, PInf | NInf, NInf => PInf
| PInf, NInf | NInf, PInf => NInf
| PInf, Fin q | Fin q, PInf => inf_signed true q
| NInf, Fin q | Fin q, NInf => inf_signed false q
| Fin a, Fin b => binary64 (a * b)
end.

(** Python float division: a zero divisor raises ZeroDivisionError. *)
Definition fdiv (x y : pyfloat) : option pyfloat :=
match y with
| Fin b =>
    if Qeq_bool b 0 then None
    else Some match x with
              | NaN => NaN
              | PInf => inf_signed true b
              | NInf => inf_signed false b
              | Fin a => binary64 (a / b)
              end
| NaN => Some NaN
| PInf | NInf =>
    Some match x with
         | Fin _ => Fin 0
         | _ => NaN
         end
end.

(** The builtins [max(a, b)] and [min(a, b)]: the first argument is kept
  unless the second is strictly greater (resp. smaller). *)
Definition py_max (a b : pyfloat) : pyfloat := if fgt b a then b else a.
Definition py_min (a b : pyfloat) : pyfloat := if flt b a then b else a.

Definition is_finite (x : pyfloat) : Prop :=
match x with Fin _ => True | _ => False end.

End PyFloat.
Export PyFloat.

Declare Scope pyfloat_scope.
Delimit Scope pyfloat_scope with F.
Infix "+" := fadd : pyfloat_scope.
Infix "-" := fsub : pyfloat_scope.
Infix "*" := fmul : pyfloat_scope.
Infix "<?" := flt : pyfloat_scope.
Infix ">?" := fgt : pyfloat_scope.
Infix ">=?" := fge : pyfloat_scope.
Infix "<=?" := fle : pyfloat_scope.

(* ================================================================== *)
(** * The geometric matcher ([BoxCorrelator._convert_coords],
      [_clip_coords], [_compute_iou]) *)
(* ================================================================== *)

Definition vec2 : Type := (pyfloat * pyfloat)%type.
Definition coords : Type := (pyfloat * pyfloat * pyfloat * pyfloat)%type.

Definition half : pyfloat := Fin (1 # 2).

(** [_convert_coords]: center-size to min-max. *)
Definition _convert_coords (center size : vec2) : coords :=
  let '(c_x, c_y) := center in
  let '(width, height) := size in
  let x_min := (c_x - half * width)%F in
  let y_min := (c_y - half * height)%F in
  let x_max := (c_x + half * width)%F in
  let y_max := (c_y + half * height)%F in
  (x_min, y_min, x_max, y_max).

(** [_clip_coords] *)
Definition _clip_coords (x_min y_min x_max y_max : pyfloat)
    (clip_x_min clip_y_min clip_x_max clip_y_max : pyfloat) : coords :=
  let x_max := py_max x_max clip_x_min in
  let y_max := py_max y_max clip_y_min in
  let x_max := py_min x_max clip_x_max in
  let y_max := py_min y_max clip_y_max in
  let x_min := py_min x_min clip_x_max in
  let y_min := py_min y_min clip_y_max in
  let x_min := py_max x_min clip_x_min in
  let y_min := py_max y_min clip_y_min in
  (x_min, y_min, x_max, y_max).

(** Keyword arguments of [_compute_iou]. *)
Record IouKwargs : Type := {
  kw_iou_clip_x : option (pyfloat * pyfloat);
  kw_iou_clip_y : option (pyfloat * pyfloat);
  kw_iou_eps : option pyfloat
}.

Definition kwargs_get {A : Type} (v : option A) (default : A) : A :=
  match v with Some a => a | None => default end.

(** The literal [1e-12]. *)
Definition default_eps : pyfloat := binary64 (1 # 1000000000000).
Definition unbounded : pyfloat * pyfloat := (NInf, PInf).

(** The two boxes after conversion and clipping. *)
Definition clipped_boxes (center1 size1 center2 size2 : vec2)
    (kwargs : IouKwargs) : coords * coords :=
  let clip_x := kwargs_get (kw_iou_clip_x kwargs) unbounded in
  let clip_y := kwargs_get (kw_iou_clip_y kwargs) unbounded in
  let '(x_min1, y_min1, x_max1, y_max1) := _convert_coords center1 size1 in
  let '(x_min2, y_min2, x_max2, y_max2) := _convert_coords center2 size2 in
  let '(clip_x_min, clip_x_max) := clip_x in
  let '(clip_y_min, clip_y_max) := clip_y in
  (_clip_coords x_min1 y_min1 x_max1 y_max1
                clip_x_min clip_y_min clip_x_max clip_y_max,
   _clip_coords x_min2 y_min2 x_max2 y_max2
                clip_x_min clip_y_min clip_x_max clip_y_max).

(** [inter_area], [box_area1], [box_area2] of [_compute_iou]. *)
Definition iou_areas (b1 b2 : coords) : pyfloat * pyfloat * pyfloat :=
  let '(x_min1, y_min1, x_max1, y_max1) := b1 in
  let '(x_min2, y_min2, x_max2, y_max2) := b2 in
  let x_min := py_max x_min1 x_min2 in
  let x_max := py_min x_max1 x_max2 in
  let y_min := py_max y_min1 y_min2 in
  let y_max := py_min y_max1 y_max2 in
  let inter_area :=
    (py_max (Fin 0) (x_max - x_min) * py_max (Fin 0) (y_max - y_min))%F in
  let box_area1 := ((x_max1 - x_min1) * (y_max1 - y_min1))%F in
  let box_area2 := ((x_max2 - x_min2) * (y_max2 - y_min2))%F in
  (inter_area, box_area1, box_area2).

(** The divisor [box_area1 + box_area2 - inter_area + eps]. *)
Definition iou_denominator (areas : pyfloat * pyfloat * pyfloat)
    (eps : pyfloat) : pyfloat :=
  let '(inter_area, box_area1, box_area2) := areas in
  (box_area1 + box_area2 - inter_area + eps)%F.

(** [_compute_iou]; [None] is the ZeroDivisionError of the last division. *)
Definition _compute_iou (center1 size1 center2 size2 : vec2)
    (kwargs : IouKwargs) : option pyfloat :=
  let eps := kwargs_get (kw_iou_eps kwargs) default_eps in
  let '(b1, b2) := clipped_boxes center1 size1 center2 size2 kwargs in
  let areas := iou_areas b1 b2 in
  fdiv (fst (fst areas)) (iou_denominator areas eps).

(* ================================================================== *)
(** * Construction of the correlator ([BoxCorrelator.__init__]) *)
(* ================================================================== *)

(** The policy bound to [self._match_boxes]. *)
Inductive match_boxes_impl : Type :=
| match_boxes_complete_impl
| match_boxes_exclusive_impl.

(** The optional keyword arguments of [__init__]: [None] is an absent key.
    For [clip_x] and [clip_y], read with [kwargs.get(key, None)], a key
    bound to [None] is the same as an absent one. *)
Record InitKwargs : Type := {
  kw_confidence_col : option string;
  kw_annotation_bb_center_col : option string;
  kw_annotation_bb_size_col : option string;
  kw_detection_bb_center_col : option string;
  kw_detection_bb_size_col : option string;
  kw_clip_x : option (pyfloat * pyfloat);
  kw_clip_y : option (pyfloat * pyfloat)
}.

Definition no_kwargs : InitKwargs :=
  {| kw_confidence_col := None;
     kw_annotation_bb_center_col := None;
     kw_annotation_bb_size_col := None;
     kw_detection_bb_center_col := None;
     kw_detection_bb_size_col := None;
     kw_clip_x := None;
     kw_clip_y := None |}.

Record BoxCorrelator : Type := {
  _threshold : pyfloat;
  _matching_type : string;
  _clip_truncated_boxes : bool;
  _confidence_col : string;
  _annotation_bb_center_col : string;
  _annotation_bb_size_col : string;
  _detection_bb_center_col : string;
  _detection_bb_size_col : string;
  _clip_x : pyfloat * pyfloat;
  _clip_y : pyfloat * pyfloat;
  _match_boxes : match_boxes_impl
}.

Inductive init_error : Type :=
| RuntimeError (msg : string).

(** The value of [self._clip_x] (resp. [self._clip_y]) after lines 115-129;
    [dflt] is the default frame of the axis. *)
Definition init_clip (clip_truncated_boxes : bool)
    (given : option (pyfloat * pyfloat)) (dflt : pyfloat * pyfloat)
  : pyfloat * pyfloat :=
  if clip_truncated_boxes then
    match given with
    | None => dflt
    | Some c => c
    end
  else (NInf, PInf).

Definition default_clip_x : pyfloat * pyfloat := (Fin 0, Fin 1920).
Definition default_clip_y : pyfloat * pyfloat := (Fin 0, Fin 1280).

(** [BoxCorrelator.__init__(threshold, matching_type, clip_truncated_boxes,
    **kwargs)]. *)
Definition init (threshold : pyfloat) (matching_type : string)
    (clip_truncated_boxes : bool) (kwargs : InitKwargs)
  : BoxCorrelator + init_error :=
  let confidence_col := kwargs_get (kw_confidence_col kwargs) "confidence"%string in
  let annotation_bb_center_col :=
    kwargs_get (kw_annotation_bb_center_col kwargs) "center"%string in
  let annotation_bb_size_col :=
    kwargs_get (kw_annotation_bb_size_col kwargs) "size"%string in
  let detection_bb_center_col :=
    kwargs_get (kw_detection_bb_center_col kwargs) "center"%string in
  let detection_bb_size_col :=
    kwargs_get (kw_detection_bb_size_col kwargs) "size"%string in
  let clip_x := init_clip clip_truncated_boxes (kw_clip_x kwargs) default_clip_x in
  let clip_y := init_clip clip_truncated_boxes (kw_clip_y kwargs) default_clip_y in
  let build impl :=
    {| _threshold := threshold;
       _matching_type := matching_type;
       _clip_truncated_boxes := clip_truncated_boxes;
       _confidence_col := confidence_col;
       _annotation_bb_center_col := annotation_bb_center_col;
       _annotation_bb_size_col := annotation_bb_size_col;
       _detection_bb_center_col := detection_bb_center_col;
       _detection_bb_size_col := detection_bb_size_col;
       _clip_x := clip_x;
       _clip_y := clip_y;
       _match_boxes := impl |} in
  if (matching_type =? "complete")%string then
    inl (build match_boxes_complete_impl)
  else if (matching_type =? "exclusive")%string then
    inl (build match_boxes_exclusive_impl)
  else
    inr (RuntimeError "Unknown matching_type in Correlator encountered.").

(** The defaults of the signature: [threshold = 0.5],
    [matching_type = "complete"], [clip_truncated_boxes = True]. *)
Definition init_default : BoxCorrelator + init_error :=
  init (Fin (1 # 2)) "complete" true no_kwargs.

(* ================================================================== *)
(** * Tables *)
(* ================================================================== *)

(** A row of the annotation table; [ann_index] is its index label. *)
Record annotation : Type := {
  ann_index : string;
  ann_sample_name : string;
  ann_class_id : string;
  ann_center : vec2;
  ann_size : vec2
}.

(** A row of the prediction table; [det_index] is its index label. *)
Record detection : Type := {
  det_index : string;
  det_sample_name : string;
  det_class_id : string;
  det_center : vec2;
  det_size : vec2;
  det_confidence : pyfloat
}.

(** The values of the [confusion] column. *)
Inductive confusion_t : Type := tp | fp | fn.

(** A row of a match table (the dict of [_build_matching_entry]). *)
Record match_entry : Type := {
  sample_name : string;
  annotation_index : option string;
  detection_index : option string;
  confusion : confusion_t;
  class_id : string;
  match_value : pyfloat;
  confidence : pyfloat
}.

Definition _build_matching_entry (sample_name : string)
    (annotation_index detection_index : option string)
    (confusion : confusion_t) (class_id : string)
    (match_value confidence : pyfloat) : match_entry :=
  {| sample_name := sample_name;
     annotation_index := annotation_index;
     detection_index := detection_index;
     confusion := confusion;
     class_id := class_id;
     match_value := match_value;
     confidence := confidence |}.

Definition confusion_eqb (a b : confusion_t) : bool :=
  match a, b with
  | tp, tp | fp, fp | fn, fn => true
  | _, _ => false
  end.

Definition opt_eqb (a b : option string) : bool :=
  match a, b with
  | None, None => true
  | Some x, Some y => (x =? y)%string
  | _, _ => false
  end.

(* ------------------------------------------------------------------ *)
(** ** Column operations of pandas and Python sets, on lists *)
(* ------------------------------------------------------------------ *)

Section ListOps.
Context {A K : Type}.
Variable eqb : K -> K -> bool.

(** [x in s] *)
Definition mem (x : K) (s : list K) : bool := existsb (eqb x) s.

(** [drop_duplicates(subset=key)] with the default [keep="first"];
    [seen] holds the keys met so far. *)
Fixpoint drop_duplicates_from (key : A -> K) (seen : list K) (l : list A)
  : list A :=
  match l with
  | [] => []
  | x :: r =>
      if mem (key x) seen then drop_duplicates_from key seen r
      else x :: drop_duplicates_from key (key x :: seen) r
  end.

Definition drop_duplicates (key : A -> K) (l : list A) : list A :=
  drop_duplicates_from key [] l.

(** [s1 - s2] on sets *)
Definition set_diff (s1 s2 : list K) : list K :=
  filter (fun x => negb (mem x s2)) s1.

(** [s.add(x)] *)
Definition set_add (x : K) (s : list K) : list K :=
  if mem x s then s else s ++ [x].
End ListOps.

(** [Series.unique()] and [set(...)]: the distinct values, here in order of
    first appearance. *)
Definition unique {K : Type} (eqb : K -> K -> bool) (l : list K) : list K :=
  drop_duplicates eqb (fun k => k) l.

(* ------------------------------------------------------------------ *)
(** ** Sorting *)
(* ------------------------------------------------------------------ *)

Section Sort.
Context {A : Type}.
(** [before y x]: [y] has to come strictly before [x]. *)
Variable before : A -> A -> bool.

Fixpoint insert_sorted (x : A) (l : list A) : list A :=
  match l with
  | [] => [x]
  | y :: r => if before y x then y :: insert_sorted x r else x :: y :: r
  end.

(** A stable sort: rows that are not ordered by [before] keep their
    input order. *)
Fixpoint stable_sort (l : list A) : list A :=
  match l with
  | [] => []
  | x :: r => insert_sorted x (stable_sort r)
  end.
End Sort.

(** Lexicographic combination of two sort columns. *)
Definition lex {A : Type} (c1 c2 : A -> A -> bool) (y x : A) : bool :=
  c1 y x || (negb (c1 x y) && c2 y x).

(** A float column, [ascending=False], nan last. *)
Definition float_desc (ky kx : pyfloat) : bool :=
  if isnan kx then negb (isnan ky) else fgt ky kx.

(** A string column, ascending. *)
Definition str_asc (ky kx : string) : bool := String.ltb ky kx.

(** A nullable string column, ascending, [na_position="last"]. *)
Definition optstr_asc (ky kx : option string) : bool :=
  match ky, kx with
  | Some a, Some b => String.ltb a b
  | Some _, None => true
  | None, _ => false
  end.

(** The [confusion] column, [ascending=False]: "tp" > "fp" > "fn". *)
Definition confusion_desc (ky kx : confusion_t) : bool :=
  match ky, kx with
  | tp, fp | tp, fn | fp, fn => true
  | _, _ => false
  end.

Definition on {A K : Type} (key : A -> K) (c : K -> K -> bool) (y x : A) : bool :=
  c (key y) (key x).

(** [sorted(list_of_str)] *)
Definition sorted_str (l : list string) : list string :=
  stable_sort str_asc l.

(** [sort_values(by=["class_id", "confusion", "annotation_index",
    "detection_index"], ascending=[True, False, True, True],
    na_position="last")] *)
Definition sort_for_output (rows : list match_entry) : list match_entry :=
  stable_sort
    (lex (on class_id str_asc)
       (lex (on confusion confusion_desc)
          (lex (on annotation_index optstr_asc)
               (on detection_index optstr_asc))))
    rows.

(** [sort_values(by=[confidence_column_name, iou_column_name],
    ascending=(False, False))] *)
Definition sort_by_confidence_iou (rows : list match_entry) : list match_entry :=
  stable_sort (lex (on confidence float_desc) (on match_value float_desc)) rows.

(** A natural number column, ascending. *)
Definition nat_asc (ky kx : nat) : bool := Nat.ltb ky kx.

(** One of the orders that [detections.sort_values(by=confidence_col,
    ascending=False)] may yield: rows of equal confidence in ascending
    order of [rank], and in input order where the ranks agree too. *)
Definition sort_values_ranked (rank : detection -> nat) (dets : list detection)
  : list detection :=
  stable_sort (lex (on det_confidence float_desc) (on rank nat_asc)) dets.

(* ================================================================== *)
(** * The box correlator ([BoxCorrelator.match] and the two policies) *)
(* ================================================================== *)

(** [tp_matching], [matched_annotation_ids], [matched_detection_ids] *)
Definition match_state : Type :=
  (list match_entry * list string * list string)%type.

Section Correlator.
(** The callable [criterion] with its [criterion_kwargs] applied: it takes
    (detection center, detection size, annotation center, annotation
    size) and returns a float, as its type in [match] says; an exception
    of the criterion would leave [match] with no table. *)
Variable criterion : vec2 -> vec2 -> vec2 -> vec2 -> pyfloat.

(** The order in which a [for] loop visits a Python [set] of strings; the
    language leaves it unspecified. *)
Variable set_iter : list string -> list string.

(** [detections.sort_values(by=confidence_col, ascending=False)]: pandas
    sorts a single column with its default [kind="quicksort"], which is not
    stable, so the order of rows of equal confidence is not specified. *)
Variable sort_values : list detection -> list detection.

Definition criterion_of (det : detection) (ann : annotation) : pyfloat :=
  criterion (det_center det) (det_size det) (ann_center ann) (ann_size ann).

(** Body of the inner loop of [_match_boxes_complete]. *)
Definition complete_inner (threshold : pyfloat) (det : detection)
    (st : match_state) (ann : annotation) : match_state :=
  let '(tp_matching, matched_annotation_ids, matched_detection_ids) := st in
  let match_value := criterion_of det ann in
  if (match_value >=? threshold)%F then
    let match_entry :=
      _build_matching_entry (ann_sample_name ann)
        (Some (ann_index ann)) (Some (det_index det)) tp
        (ann_class_id ann) match_value (det_confidence det) in
    (tp_matching ++ [match_entry],
     set_add String.eqb (ann_index ann) matched_annotation_ids,
     set_add String.eqb (det_index det) matched_detection_ids)
  else st.

(** [_match_boxes_complete] *)
Definition _match_boxes_complete (annotations : list annotation)
    (detections : list detection) (threshold : pyfloat) : match_state :=
  fold_left
    (fun st det => fold_left (complete_inner threshold det) annotations st)
    detections ([], [], []).

(** Inner loop of [_match_boxes_exclusive]:
    [(max_match_value, max_ann_id)] after the loop over the annotations. *)
Definition best_step (det : detection) (cur : pyfloat * option string)
    (ann : annotation) : pyfloat * option string :=
  let '(max_match_value, max_ann_id) := cur in
  let match_value := criterion_of det ann in
  if (match_value >? max_match_value)%F
  then (match_value, Some (ann_index ann))
  else (max_match_value, max_ann_id).

Definition best_annotation (det : detection) (annotations : list annotation)
  : pyfloat * option string :=
  fold_left (best_step det) annotations (NInf, None).

(** [annotations.loc[label]]; [None] is the KeyError. *)
Definition loc_annotation (annotations : list annotation) (label : string)
  : option annotation :=
  find (fun a => (ann_index a =? label)%string) annotations.

(** [detections.loc[label]] *)
Definition loc_detection (detections : list detection) (label : string)
  : option detection :=
  find (fun d => (det_index d =? label)%string) detections.

(** The loop variable [ann] after the inner loop: the last annotation
    row, unbound when there is none. *)
Definition last_annotation (annotations : list annotation)
  : option annotation :=
  last (map Some annotations) None.

(** Body of the outer loop of [_match_boxes_exclusive]; [None] is an
    exception (the unbound [ann], or the KeyError of
    [annotations.loc[None]]). *)
Definition exclusive_step (annotations : list annotation)
    (threshold : pyfloat) (st : option match_state) (det : detection)
  : option match_state :=
  match st with
  | None => None
  | Some (tp_matching, matched_annotation_ids, matched_detection_ids) =>
      let '(max_match_value, max_ann_id) := best_annotation det annotations in
      if (max_match_value >=? threshold)%F then
        match max_ann_id with
        | None => None
        | Some ann_id =>
            if negb (mem String.eqb ann_id matched_annotation_ids) then
              match last_annotation annotations,
                    loc_annotation annotations ann_id with
              | Some ann, Some row =>
                  let match_entry :=
                    _build_matching_entry (ann_sample_name ann)
                      (Some ann_id) (Some (det_index det)) tp
                      (ann_class_id row) max_match_value
                      (det_confidence det) in
                  Some (tp_matching ++ [match_entry],
                        set_add String.eqb ann_id matched_annotation_ids,
                        set_add String.eqb (det_index det)
                                matched_detection_ids)
              | _, _ => None
              end
            else st
        end
      else st
  end.

(** [_match_boxes_exclusive] *)
Definition _match_boxes_exclusive (annotations : list annotation)
    (detections : list detection) (threshold : pyfloat)
  : option match_state :=
  let sorted_detections := sort_values detections in
  fold_left (exclusive_step annotations threshold) sorted_detections
    (Some ([], [], [])).

(** [self._match_boxes(...)] *)
Definition match_boxes (impl : match_boxes_impl)
    (annotations : list annotation) (detections : list detection)
    (threshold : pyfloat) : option match_state :=
  match impl with
  | match_boxes_complete_impl =>
      Some (_match_boxes_complete annotations detections threshold)
  | match_boxes_exclusive_impl =>
      _match_boxes_exclusive annotations detections threshold
  end.

Definition _filter_for_sample_name_ann (data_frame : list annotation)
    (sample_name : string) : list annotation :=
  filter (fun r => (ann_sample_name r =? sample_name)%string) data_frame.

Definition _filter_for_sample_name_det (data_frame : list detection)
    (sample_name : string) : list detection :=
  filter (fun r => (det_sample_name r =? sample_name)%string) data_frame.

Definition _filter_for_class_id_ann (data_frame : list annotation)
    (class_id : string) : list annotation :=
  filter (fun r => (ann_class_id r =? class_id)%string) data_frame.

Definition _filter_for_class_id_det (data_frame : list detection)
    (class_id : string) : list detection :=
  filter (fun r => (det_class_id r =? class_id)%string) data_frame.

(** The false positive rows of one (sample, class) pair. *)
Fixpoint fp_entries (sample_name class_id : string)
    (detections_class : list detection) (fp_detection_ids : list string)
  : option (list match_entry) :=
  match fp_detection_ids with
  | [] => Some []
  | fp_det_id :: rest =>
      match loc_detection detections_class fp_det_id,
            fp_entries sample_name class_id detections_class rest with
      | Some row, Some entries =>
          Some (_build_matching_entry sample_name None (Some fp_det_id) fp
                  class_id NaN (det_confidence row) :: entries)
      | _, _ => None
      end
  end.

(** The false negative rows of one (sample, class) pair. *)
Definition fn_entries (sample_name class_id : string)
    (fn_annotation_ids : list string) : list match_entry :=
  map (fun fn_ann_id =>
         _build_matching_entry sample_name (Some fn_ann_id) None fn
           class_id NaN NaN)
      fn_annotation_ids.

(** Body of the loop over [class_id_list] in [match]: the rows appended
    to [matching] for one (sample, class) pair. *)
Definition match_partition (impl : match_boxes_impl) (threshold : pyfloat)
    (sample_name class_id : string)
    (annotations_sample : list annotation)
    (detections_sample : list detection) : option (list match_entry) :=
  let annotations_class := _filter_for_class_id_ann annotations_sample class_id in
  let detections_class := _filter_for_class_id_det detections_sample class_id in
  match match_boxes impl annotations_class detections_class threshold with
  | None => None
  | Some (tp_matches, matched_annotation_ids, matched_detection_ids) =>
      let fp_detection_ids :=
        set_diff String.eqb
          (unique String.eqb (map det_index detections_class))
          (unique String.eqb matched_detection_ids) in
      let fn_annotation_ids :=
        set_diff String.eqb
          (unique String.eqb (map ann_index annotations_class))
          (unique String.eqb matched_annotation_ids) in
      match fp_entries sample_name class_id detections_class
              (set_iter fp_detection_ids) with
      | None => None
      | Some fps =>
          Some (tp_matches ++ fps
                ++ fn_entries sample_name class_id (set_iter fn_annotation_ids))
      end
  end.

(** The rows appended to [matching] for one sample. *)
Fixpoint match_classes_loop (impl : match_boxes_impl) (threshold : pyfloat)
    (sample_name : string) (annotations_sample : list annotation)
    (detections_sample : list detection) (class_id_list : list string)
  : option (list match_entry) :=
  match class_id_list with
  | [] => Some []
  | class_id :: rest =>
      match match_partition impl threshold sample_name class_id
              annotations_sample detections_sample with
      | None => None
      | Some rows =>
          match match_classes_loop impl threshold sample_name
                  annotations_sample detections_sample rest with
          | None => None
          | Some more => Some (rows ++ more)
          end
      end
  end.

Fixpoint match_samples_loop (impl : match_boxes_impl) (threshold : pyfloat)
    (annotation_data : list annotation) (detection_data : list detection)
    (class_id_list sample_name_list : list string)
  : option (list match_entry) :=
  match sample_name_list with
  | [] => Some []
  | sample_name :: rest =>
      let annotations_sample :=
        _filter_for_sample_name_ann annotation_data sample_name in
      let detections_sample :=
        _filter_for_sample_name_det detection_data sample_name in
      match match_classes_loop impl threshold sample_name
              annotations_sample detections_sample class_id_list with
      | None => None
      | Some rows =>
          match match_samples_loop impl threshold annotation_data
                  detection_data class_id_list rest with
          | None => None
          | Some more => Some (rows ++ more)
          end
      end
  end.

(** The sorted class ids of [match]: the union of the class ids of both
    tables, intersected with [match_classes] when that is a non-empty
    list. *)
Definition class_id_list_of (annotation_data : list annotation)
    (detection_data : list detection) (match_classes : option (list string))
  : list string :=
  let annotation_class_ids := unique String.eqb (map ann_class_id annotation_data) in
  let detection_class_ids := unique String.eqb (map det_class_id detection_data) in
  let class_ids := unique String.eqb (annotation_class_ids ++ detection_class_ids) in
  let class_ids :=
    match match_classes with
    | Some (c :: cs) =>
        filter (fun x => mem String.eqb x (c :: cs)) class_ids
    | _ => class_ids
    end in
  sorted_str class_ids.

(** [BoxCorrelator.match]; [impl] is the policy bound at construction. *)
Definition match_ (impl : match_boxes_impl)
    (annotation_data : list annotation) (detection_data : list detection)
    (threshold : pyfloat) (match_classes : option (list string))
  : option (list match_entry) :=
  let sample_name_list :=
    sorted_str (unique String.eqb (map ann_sample_name annotation_data)) in
  let class_id_list :=
    class_id_list_of annotation_data detection_data match_classes in
  match_samples_loop impl threshold annotation_data detection_data
    class_id_list sample_name_list.
End Correlator.

(* ================================================================== *)
(** * Matching reduction ([MatchingReduction.reduce_to_exclusive]) *)
(* ================================================================== *)

Definition is_sample (s : string) (r : match_entry) : bool :=
  (sample_name r =? s)%string.

Definition has_confusion (c : confusion_t) (r : match_entry) : bool :=
  confusion_eqb (confusion r) c.

(** [sorted(list(matching["sample_name"].unique()))] *)
Definition sample_names_of (matching : list match_entry) : list string :=
  sorted_str (unique String.eqb (map sample_name matching)).

(** The four assignments that turn the rows of [fn_update] into false
    negatives. *)
Definition as_new_fn (r : match_entry) : match_entry :=
  {| sample_name := sample_name r;
     annotation_index := annotation_index r;
     detection_index := None;
     confusion := fn;
     class_id := class_id r;
     match_value := NaN;
     confidence := NaN |}.

(** The three assignments that turn the rows of [fp_update] into false
    positives. *)
Definition as_new_fp (r : match_entry) : match_entry :=
  {| sample_name := sample_name r;
     annotation_index := None;
     detection_index := detection_index r;
     confusion := fp;
     class_id := class_id r;
     match_value := NaN;
     confidence := confidence r |}.

Module Reduction.

(** The intermediate tables of one pass of the loop over the samples. *)
Record sample_tables : Type := {
  tp_sample_sorted : list match_entry;
  possible_matches : list match_entry;
  tp_keep : list match_entry;
  fp_keep : list match_entry;
  fn_keep : list match_entry;
  fp_update : list match_entry;
  fn_update : list match_entry
}.

Definition tables_of (sample_matching : list match_entry) : sample_tables :=
  let tp_sample_data := filter (has_confusion tp) sample_matching in
  let fp_keep := filter (has_confusion fp) sample_matching in
  let fn_keep := filter (has_confusion fn) sample_matching in
  let tp_sample_sorted := sort_by_confidence_iou tp_sample_data in
  let tp_annotation_ids := unique opt_eqb (map annotation_index tp_sample_sorted) in
  let tp_detection_ids := unique opt_eqb (map detection_index tp_sample_sorted) in
  let possible_matches := drop_duplicates opt_eqb detection_index tp_sample_sorted in
  let tp_keep := drop_duplicates opt_eqb annotation_index possible_matches in
  let keep_annotation_ids := unique opt_eqb (map annotation_index tp_keep) in
  let keep_detection_ids := unique opt_eqb (map detection_index tp_keep) in
  let new_fn_annotation_ids := set_diff opt_eqb tp_annotation_ids keep_annotation_ids in
  let new_fp_detection_ids := set_diff opt_eqb tp_detection_ids keep_detection_ids in
  let fn_update :=
    filter (fun r => mem opt_eqb (annotation_index r) new_fn_annotation_ids)
           tp_sample_sorted in
  let fn_update := drop_duplicates opt_eqb annotation_index fn_update in
  let fn_update := map as_new_fn fn_update in
  let fp_update :=
    filter (fun r => mem opt_eqb (detection_index r) new_fp_detection_ids)
           tp_sample_sorted in
  let fp_update := drop_duplicates opt_eqb detection_index fp_update in
  let fp_update := map as_new_fp fp_update in
  {| tp_sample_sorted := tp_sample_sorted;
     possible_matches := possible_matches;
     tp_keep := tp_keep;
     fp_keep := fp_keep;
     fn_keep := fn_keep;
     fp_update := fp_update;
     fn_update := fn_update |}.

(** Body of the loop over the samples: [sample_exclusive]. *)
Definition reduce_sample (sort_output : bool)
    (matching : list match_entry) (sample_name : string)
  : list match_entry :=
  let sample_matching := filter (is_sample sample_name) matching in
  let t := tables_of sample_matching in
  let sample_exclusive :=
    tp_keep t ++ fp_keep t ++ fp_update t ++ fn_keep t ++ fn_update t in
  if sort_output then sort_for_output sample_exclusive else sample_exclusive.

(** [reduce_to_exclusive(matching, sort_output=...)]; an empty list of
    samples gives the empty table. *)
Definition reduce_to_exclusive (matching : list match_entry)
    (sort_output : bool) : list match_entry :=
  flat_map (reduce_sample sort_output matching) (sample_names_of matching).

End Reduction.

(* ================================================================== *)
(** * Threshold re-application ([MatchingThreshold]) *)
(* ================================================================== *)

Module Threshold.

Record iou_tables : Type := {
  iou_tp_keep : list match_entry;
  iou_tp_check : list match_entry;
  iou_fp_keep : list match_entry;
  iou_fn_keep : list match_entry;
  iou_fp_update : list match_entry;
  iou_fn_update : list match_entry
}.

Definition iou_tables_of (iou_threshold : pyfloat)
    (sample_matching : list match_entry) : iou_tables :=
  let fp_keep := filter (has_confusion fp) sample_matching in
  let fn_keep := filter (has_confusion fn) sample_matching in
  let tp_data := filter (has_confusion tp) sample_matching in
  let tp_keep := filter (fun r => (match_value r >=? iou_threshold)%F) tp_data in
  let tp_check := filter (fun r => (match_value r <? iou_threshold)%F) tp_data in
  let annotation_ids_keep := unique opt_eqb (map annotation_index tp_keep) in
  let detection_ids_keep := unique opt_eqb (map detection_index tp_keep) in
  let fn_update :=
    filter (fun r => negb (mem opt_eqb (annotation_index r) annotation_ids_keep))
           tp_check in
  let fn_update := drop_duplicates opt_eqb annotation_index fn_update in
  let fn_update := map as_new_fn fn_update in
  let fp_update :=
    filter (fun r => negb (mem opt_eqb (detection_index r) detection_ids_keep))
           tp_check in
  let fp_update := drop_duplicates opt_eqb detection_index fp_update in
  let fp_update := map as_new_fp fp_update in
  {| iou_tp_keep := tp_keep;
     iou_tp_check := tp_check;
     iou_fp_keep := fp_keep;
     iou_fn_keep := fn_keep;
     iou_fp_update := fp_update;
     iou_fn_update := fn_update |}.

Definition iou_sample (iou_threshold : pyfloat) (sort_output : bool)
    (matching : list match_entry) (sample_name : string)
  : list match_entry :=
  let sample_matching := filter (is_sample sample_name) matching in
  let t := iou_tables_of iou_threshold sample_matching in
  let sample_updated :=
    iou_tp_keep t ++ iou_fp_keep t ++ iou_fp_update t
    ++ iou_fn_keep t ++ iou_fn_update t in
  if sort_output then sort_for_output sample_updated else sample_updated.

(** [apply_iou_threshold(matching, iou_threshold, sort_output=...)] *)
Definition apply_iou_threshold (matching : list match_entry)
    (iou_threshold : pyfloat) (sort_output : bool) : list match_entry :=
  flat_map (iou_sample iou_threshold sort_output matching)
           (sample_names_of matching).

Record conf_tables : Type := {
  conf_tp_keep : list match_entry;
  conf_tp_check : list match_entry;
  conf_fp_keep : list match_entry;
  conf_fn_keep : list match_entry;
  conf_fn_update : list match_entry
}.

Definition conf_tables_of (confidence_threshold : pyfloat)
    (sample_matching : list match_entry) : conf_tables :=
  let fn_keep := filter (has_confusion fn) sample_matching in
  let fp_check := filter (has_confusion fp) sample_matching in
  let fp_keep := filter (fun r => (confidence r >=? confidence_threshold)%F) fp_check in
  let tp_data := filter (has_confusion tp) sample_matching in
  let tp_keep := filter (fun r => (confidence r >=? confidence_threshold)%F) tp_data in
  let tp_check := filter (fun r => (confidence r <? confidence_threshold)%F) tp_data in
  let annotation_ids_keep := unique opt_eqb (map annotation_index tp_keep) in
  let fn_update :=
    filter (fun r => negb (mem opt_eqb (annotation_index r) annotation_ids_keep))
           tp_check in
  let fn_update := drop_duplicates opt_eqb annotation_index fn_update in
  let fn_update := map as_new_fn fn_update in
  {| conf_tp_keep := tp_keep;
     conf_tp_check := tp_check;
     conf_fp_keep := fp_keep;
     conf_fn_keep := fn_keep;
     conf_fn_update := fn_update |}.

Definition conf_sample (confidence_threshold : pyfloat) (sort_output : bool)
    (matching : list match_entry) (sample_name : string)
  : list match_entry :=
  let sample_matching := filter (is_sample sample_name) matching in
  let t := conf_tables_of confidence_threshold sample_matching in
  let sample_updated :=
    conf_tp_keep t ++ conf_fp_keep t ++ conf_fn_keep t ++ conf_fn_update t in
  if sort_output then sort_for_output sample_updated else sample_updated.

(** [apply_confidence_threshold(matching, confidence_threshold,
    sort_output=...)] *)
Definition apply_confidence_threshold (matching : list match_entry)
    (confidence_threshold : pyfloat) (sort_output : bool)
  : list match_entry :=
  flat_map (conf_sample confidence_threshold sort_output matching)
           (sample_names_of matching).

End Threshold.

(* ================================================================== *)
(** * Vocabulary of the statements *)
(* ================================================================== *)

(** Two floats stand for the same value: the same special value, or
    finite values of equal magnitude. *)
Definition feq (x y : pyfloat) : Prop :=
  match x, y with
  | NaN, NaN | NInf, NInf | PInf, PInf => True
  | Fin a, Fin b => a == b
  | _, _ => False
  end.

(** What the proofs use of the rounding of the float format: it is
    monotone (so it yields no nan), it leaves 0, 1 and every float alone,
    and the double of a float is a float unless it overflows. *)
Record rounding (round : Q -> pyfloat) : Prop := {
  round_monotone : forall p q, p <= q -> (round p <=? round q)%F = true;
  round_zero : feq (round 0) (Fin 0);
  round_one : feq (round 1) (Fin 1);
  round_fixed : forall p q, round p = Fin q -> feq (round q) (Fin q);
  round_double :
    forall q, feq (round q) (Fin q) ->
      feq (round (2 * q)) (Fin (2 * q))
      \/ round (2 * q) = PInf \/ round (2 * q) = NInf
}.

(** The rational [v] is a float: a multiple of a power of two by an
    integer of at most 53 bits, the exponent not below that of the
    subnormal numbers. *)
Definition representable (v : Q) : Prop :=
  exists m e, (-1074 <= e)%Z /\ (Z.abs m < 2 ^ 53)%Z /\ v == inject_Z m * pow2 e.

(** What [sort_values(by=confidence_col, ascending=False)] promises: the
    rows of the input, by confidence descending, nan last. *)
Definition sort_contract (sort_values : list detection -> list detection) : Prop :=
  forall dets,
    Permutation (sort_values dets) dets
    /\ StronglySorted
         (fun a b => float_desc (det_confidence b) (det_confidence a) = false)
         (sort_values dets).

(** Both components are finite numbers. *)
Definition finite_vec (v : vec2) : Prop :=
  is_finite (fst v) /\ is_finite (snd v).

(** A clip window along one axis whose lower bound is a number or -inf and
    whose upper bound is a number or +inf. *)
Definition clip_window (c : pyfloat * pyfloat) : Prop :=
  (fst c = NInf \/ is_finite (fst c)) /\ (snd c = PInf \/ is_finite (snd c)).

Definition finite_coords (b : coords) : Prop :=
  let '(x_min, y_min, x_max, y_max) := b in
  is_finite x_min /\ is_finite y_min /\ is_finite x_max /\ is_finite y_max.

(** Dropping duplicates as the specification words it, keeping the first
    occurrence: a row stays if and only if no row in front of it in the
    table has its key; [front] holds the rows in front of [l]. *)
Fixpoint keep_unseen {A K : Type} (eqb : K -> K -> bool) (key : A -> K)
    (front l : list A) : list A :=
  match l with
  | [] => []
  | x :: r =>
      (if existsb (fun y => eqb (key y) (key x)) front then [] else [x])
      ++ keep_unseen eqb key (front ++ [x]) r
  end.

Definition first_occurrences {A K : Type} (eqb : K -> K -> bool)
    (key : A -> K) (l : list A) : list A :=
  keep_unseen eqb key [] l.

(** The non-null values of a nullable column. *)
Fixpoint non_null {A : Type} (l : list (option A)) : list A :=
  match l with
  | [] => []
  | Some a :: r => a :: non_null r
  | None :: r => non_null r
  end.

(** [before] is a strict weak order: it is asymmetric and its complement is
    transitive. *)
Definition strict_weak {A : Type} (before : A -> A -> bool) : Prop :=
  (forall a b, before a b = true -> before b a = false)
  /\ (forall a b c, before b a = false -> before c b = false -> before c a = false).

(** [a] may stand in front of [b] in a table sorted by [before]. *)
Definition in_order {A : Type} (before : A -> A -> bool) (a b : A) : Prop :=
  before b a = false.

(** A true positive row whose match value is nan. *)
Definition nan_tp (r : match_entry) : bool :=
  has_confusion tp r && isnan (match_value r).

(** The number of rows of a table whose annotation index is [a]
    (resp. whose detection index is [d]). *)
Definition count_annotation (a : option string) (rows : list match_entry) : nat :=
  List.length (filter (fun r => opt_eqb (annotation_index r) a) rows).

Definition count_detection (d : option string) (rows : list match_entry) : nat :=
  List.length (filter (fun r => opt_eqb (detection_index r) d) rows).

(** The rows of [fn_update] of [apply_confidence_threshold], over all the
    samples. *)
Definition conf_fn_update_all (matching : list match_entry)
    (confidence_threshold : pyfloat) : list match_entry :=
  flat_map
    (fun s => Threshold.conf_fn_update
                (Threshold.conf_tables_of confidence_threshold
                   (filter (is_sample s) matching)))
    (sample_names_of matching).

(** A true positive row of sample [s] with annotation index [a] whose
    confidence satisfies [test]. *)
Definition tp_row_with (matching : list match_entry) (s : string)
    (a : option string) (test : pyfloat -> bool) : Prop :=
  exists r, In r matching /\ sample_name r = s /\ confusion r = tp
            /\ test (confidence r) = true /\ annotation_index r = a.

(* ================================================================== *)
(** * Tables of the test suite *)
(* ================================================================== *)

Definition sample_0000 : string := "mv/arb-camera001-0076-cbfa-0000".
Definition sample_0001 : string := "mv/arb-camera001-0076-cbfa-0001".

Definition idx (sample : string) (n : string) : string :=
  (sample ++ "/" ++ n)%string.

Definition tp_row (sample ann det : string) (iou conf : Q) : match_entry :=
  _build_matching_entry sample (Some (idx sample ann)) (Some (idx sample det))
    tp "human" (Fin iou) (Fin conf).

(** [get_test_data_three_true_positives_one_annotation] *)
Definition three_true_positives_one_annotation : list match_entry :=
  [ tp_row sample_0001 "1000" "10" (7 # 10) (8 # 10);
    tp_row sample_0001 "1000" "11" (9 # 10) (9 # 10);
    tp_row sample_0001 "1000" "12" (8 # 10) (7 # 10) ].

(** [get_test_data_three_true_positives_one_detection] *)
Definition three_true_positives_one_detection : list match_entry :=
  [ tp_row sample_0001 "1001" "10" (7 # 10) (8 # 10);
    tp_row sample_0001 "1002" "10" (9 # 10) (8 # 10);
    tp_row sample_0001 "1003" "10" (8 # 10) (8 # 10) ].

(** [get_test_data_tp_with_alternative_matches] *)
Definition tp_with_alternative_matches : list match_entry :=
  [ tp_row sample_0001 "1000" "10" 1 1;
    tp_row sample_0001 "1000" "11" (3 # 10) (3 # 10);
    tp_row sample_0001 "1000" "12" (5 # 10) (5 # 10);
    tp_row sample_0001 "1001" "11" 1 1;
    tp_row sample_0001 "1002" "10" (5 # 10) (5 # 10) ].

(** [get_test_data], annotations *)
Definition test_annotation_data : list annotation :=
  let ann n s c cx cy w h :=
    {| ann_index := idx s n; ann_sample_name := s; ann_class_id := c;
       ann_center := (Fin cx, Fin cy); ann_size := (Fin w, Fin h) |} in
  [ ann "1000" sample_0000 "human" 1000 1000 100 100;
    ann "1001" sample_0000 "human" 500 500 50 50;
    ann "1002" sample_0000 "human" 5 5 10 10;
    ann "1003" sample_0000 "vehicle" 1000 1000 10 10;
    ann "1004" sample_0000 "vehicle" 5 5 10 10;
    ann "2000" sample_0001 "human" 1000 1000 100 100 ]%string.

(** [get_test_data], predictions *)
Definition test_prediction_data : list detection :=
  let det n c cx cy w h conf :=
    {| det_index := idx sample_0000 n; det_sample_name := sample_0000;
       det_class_id := c; det_center := (Fin cx, Fin cy);
       det_size := (Fin w, Fin h); det_confidence := Fin conf |} in
  [ det "0" "human" 1000 1000 100 100 (8 # 10);
    det "1" "human" 990 990 100 100 (7 # 10);
    det "2" "human" 980 980 100 100 (9 # 10);
    det "3" "human" 5 5 10 10 (8 # 10);
    det "4" "vehicle" 1000 1000 10 10 (8 # 10);
    det "5" "human" 1500 1500 10 10 (8 # 10) ]%string.

(** The criterion of [__call__] on tables where no division fails: the IoU
    under the clip window of the correlator. *)
Definition iou_criterion (clip_x clip_y : pyfloat * pyfloat)
    (center1 size1 center2 size2 : vec2) : pyfloat :=
  match _compute_iou center1 size1 center2 size2
          {| kw_iou_clip_x := Some clip_x; kw_iou_clip_y := Some clip_y;
             kw_iou_eps := None |} with
  | Some v => v
  | None => NaN
  end.

(** A loop over a set that visits the members in the order of the list. *)
Definition in_list_order (s : list string) : list string := s.

(** The place of [x] in [l], the length of [l] if it is not there. *)
Fixpoint position (x : string) (l : list string) : nat :=
  match l with
  | [] => 0%nat
  | y :: r => if (x =? y)%string then 0%nat else S (position x r)
  end.

(** An order in which the default quicksort of [sort_values], which is
    not stable, leaves the test predictions: of the four predictions of
    confidence 0.8, the one labelled 4 comes before the one labelled 3. *)
Definition test_visit_order : list string :=
  map (idx sample_0000) ["2"; "0"; "4"; "3"; "5"; "1"]%string.

Definition test_visit_rank (d : detection) : nat :=
  position (det_index d) test_visit_order.

(** The correlator of the test suite: the IoU as criterion, sets visited
    in list order, ties of confidence as in [test_visit_order]. *)
Definition test_criterion : vec2 -> vec2 -> vec2 -> vec2 -> pyfloat :=
  iou_criterion default_clip_x default_clip_y.

Definition test_sort_values : list detection -> list detection :=
  sort_values_ranked test_visit_rank.

(** The detection has the confidence [c]. *)
Definition tied_at (c : pyfloat) (d : detection) : bool :=
  fle c (det_confidence d) && fle (det_confidence d) c.

Definition count_confusion (c : confusion_t) (rows : list match_entry) : nat :=
  List.length (filter (has_confusion c) rows).

(* ================================================================== *)
(** * Vocabulary of the correlator statements *)
(* ================================================================== *)

(** [e] is a true positive of the annotation row [ann] and the detection
    row [det]: it carries their index labels, the confidence of the
    detection, and a match value that reaches the threshold. *)
Definition tp_entry_for (threshold : pyfloat) (ann : annotation)
    (det : detection) (e : match_entry) : Prop :=
  confusion e = tp
  /\ annotation_index e = Some (ann_index ann)
  /\ detection_index e = Some (det_index det)
  /\ confidence e = det_confidence det
  /\ (match_value e >=? threshold)%F = true.

(** What the policies keep true of their state: every entry is a true
    positive of rows of the two slices, with the sample name and the class
    id of rows of the annotation slice; the matched ids are the ids of the
    entries. *)
Definition policy_invariant (annotations : list annotation)
    (detections : list detection) (threshold : pyfloat) (st : match_state)
  : Prop :=
  let '(tp_matching, matched_annotation_ids, matched_detection_ids) := st in
  (forall e, In e tp_matching ->
     (exists ann det, In ann annotations /\ In det detections
                      /\ tp_entry_for threshold ann det e)
     /\ (exists a, In a annotations /\ sample_name e = ann_sample_name a)
     /\ (exists a, In a annotations /\ class_id e = ann_class_id a))
  /\ (forall a, In a matched_annotation_ids <->
        exists e, In e tp_matching /\ annotation_index e = Some a)
  /\ (forall d, In d matched_detection_ids <->
        exists e, In e tp_matching /\ detection_index e = Some d).

(** The shape of the rows of a match table built with [threshold]. *)
Definition row_shape (threshold : pyfloat) (r : match_entry) : Prop :=
  match confusion r with
  | tp => annotation_index r <> None /\ detection_index r <> None
          /\ match_value r <> NaN
          /\ (match_value r >=? threshold)%F = true
  | fp => annotation_index r = None /\ detection_index r <> None
  | fn => detection_index r = None /\ annotation_index r <> None
  end.

(** [(v, id)] is the maximum of the criterion of [det] over the annotation
    rows, attained first at the row labelled [id]: no row has a greater
    value, the row labelled [id] has the value [v], and no row in front of
    it reaches [v].  With no row greater than -inf, [id] is null and [v] is
    -inf. *)
Definition first_maximum (crit : annotation -> pyfloat)
    (annotations : list annotation) (v : pyfloat) (id : option string) : Prop :=
  (forall ann, In ann annotations -> (crit ann >? v)%F = false)
  /\ match id with
     | None => v = NInf
     | Some a =>
         exists pre ann post,
           annotations = pre ++ ann :: post
           /\ ann_index ann = a /\ crit ann = v
           /\ forall x, In x pre -> (crit x >=? v)%F = false
     end.

(** Row [r] is one of the rows appended for the pair (s, c) while [match]
    runs over the two tables. *)
Definition row_of_pair (criterion : vec2 -> vec2 -> vec2 -> vec2 -> pyfloat)
    (set_iter : list string -> list string)
    (sort_values : list detection -> list detection) (impl : match_boxes_impl)
    (threshold : pyfloat) (annotation_data : list annotation)
    (detection_data : list detection) (s c : string) (r : match_entry) : Prop :=
  exists rows,
    match_partition criterion set_iter sort_values impl threshold s c
      (_filter_for_sample_name_ann annotation_data s)
      (_filter_for_sample_name_det detection_data s) = Some rows
    /\ In r rows.

(** The index labels of a table are unique. *)
Definition unique_index {A : Type} (index : A -> string) (table : list A) : Prop :=
  NoDup (map index table).

(** A prediction of a sample that has no annotation. *)
Definition stray_prediction : detection :=
  {| det_index := "mv/arb-camera001-0076-cbfa-0007/0";
     det_sample_name := "mv/arb-camera001-0076-cbfa-0007";
     det_class_id := "human";
     det_center := (Fin 1000, Fin 1000);
     det_size := (Fin 100, Fin 100);
     det_confidence := Fin (9 # 10) |}.

(** The correlation of the test tables (with further predictions [extra])
    under the default clip window and threshold 0.5; the empty table stands
    for an exception. *)
Definition test_matching (impl : match_boxes_impl) (extra : list detection)
  : list match_entry :=
  match match_ test_criterion in_list_order test_sort_values
          impl test_annotation_data (extra ++ test_prediction_data)
          (Fin (1 # 2)) None with
  | Some m => m
  | None => []
  end.

(** What [reduce_to_exclusive] needs of its input to yield an exclusive
    table: the fp rows have pairwise different detection indices, none of
    them the detection index of a tp row, and a null annotation index; the
    fn rows have pairwise different annotation indices, none of them the
    annotation index of a tp row, and a null detection index. *)
Definition reducible (matching : list match_entry) : Prop :=
  NoDup (map detection_index (filter (has_confusion fp) matching))
  /\ NoDup (map annotation_index (filter (has_confusion fn) matching))
  /\ (forall r r', In r matching -> In r' matching ->
        confusion r = tp -> confusion r' = fp ->
        detection_index r <> detection_index r')
  /\ (forall r r', In r matching -> In r' matching ->
        confusion r = tp -> confusion r' = fn ->
        annotation_index r <> annotation_index r')
  /\ (forall r, In r matching -> confusion r = fp -> annotation_index r = None)
  /\ (forall r, In r matching -> confusion r = fn -> detection_index r = None).

(** Within every sample, no non-null annotation index and no non-null
    detection index is in more than one row. *)
Definition exclusive_table (matching : list match_entry) : Prop :=
  forall s,
    let rows := filter (is_sample s) matching in
    (forall a, (count_annotation (Some a) rows <= 1)%nat)
    /\ (forall d, (count_detection (Some d) rows <= 1)%nat).

(* ================================================================== *)
(** * Properties *)
(* ================================================================== *)

(* ------------------------------------------------------------------ *)
(** ** Float comparisons *)
(* ------------------------------------------------------------------ *)

Lemma Qlt_bool_iff (a b : Q) : Qlt_bool a b = true <-> a < b.
Proof.
  unfold Qlt_bool. rewrite negb_true_iff.
  split; intro H.
  - apply Qnot_le_lt. intro Hle. apply Qle_bool_iff in Hle. congruence.
  - destruct (Qle_bool b a) eqn:E; [|reflexivity].
    apply Qle_bool_iff in E. exfalso. apply (Qlt_not_le _ _ H E).
Qed.

Lemma Qlt_bool_false_iff (a b : Q) : Qlt_bool a b = false <-> b <= a.
Proof.
  unfold Qlt_bool. rewrite negb_false_iff. apply Qle_bool_iff.
Qed.

Lemma fle_Fin (a b : Q) : (Fin a <=? Fin b)%F = true <-> a <= b.
Proof. simpl. apply Qle_bool_iff. Qed.

Lemma flt_Fin (a b : Q) : (Fin a <? Fin b)%F = true <-> a < b.
Proof. simpl. apply Qlt_bool_iff. Qed.

(** A comparison that holds has numbers (or infinities) on both sides. *)
Lemma fge_not_nan (x y : pyfloat) : (x >=? y)%F = true -> x <> NaN /\ y <> NaN.
Proof. destruct x, y; simpl; intro H; split; congruence. Qed.

Lemma nan_fge (y : pyfloat) : (NaN >=? y)%F = false.
Proof. destruct y; reflexivity. Qed.

Lemma nan_flt (y : pyfloat) : (NaN <? y)%F = false.
Proof. reflexivity. Qed.

(** [max] and [min] of two numbers. *)
Lemma py_max_Fin (a b : Q) :
  exists c, py_max (Fin a) (Fin b) = Fin c /\ a <= c /\ b <= c /\ (c = a \/ c = b).
Proof.
  unfold py_max, fgt. simpl.
  destruct (Qlt_bool a b) eqn:E.
  - apply Qlt_bool_iff in E. exists b. repeat split; auto; lra.
  - apply Qlt_bool_false_iff in E. exists a. repeat split; auto; lra.
Qed.

Lemma py_min_Fin (a b : Q) :
  exists c, py_min (Fin a) (Fin b) = Fin c /\ c <= a /\ c <= b /\ (c = a \/ c = b).
Proof.
  unfold py_min. simpl.
  destruct (Qlt_bool b a) eqn:E.
  - apply Qlt_bool_iff in E. exists b. repeat split; auto; lra.
  - apply Qlt_bool_false_iff in E. exists a. repeat split; auto; lra.
Qed.

(* ------------------------------------------------------------------ *)
(** ** The geometric matcher *)
(* ------------------------------------------------------------------ *)

(** Clamping a number into a window yields a number. *)
Lemma clamp_max_finite (x lo hi : pyfloat) :
  is_finite x -> clip_window (lo, hi) ->
  is_finite (py_min (py_max x lo) hi).
Proof.
  intros Hx [[Hlo|Hlo] [Hhi|Hhi]]; simpl in *;
    destruct x as [| |x|]; try contradiction;
    destruct lo as [| |lo|]; try discriminate; try contradiction;
    destruct hi as [| |hi|]; try discriminate; try contradiction;
    unfold py_min, py_max, fgt; simpl;
    repeat (match goal with
            | |- context [Qlt_bool ?a ?b] => destruct (Qlt_bool a b)
            end; simpl);
    auto.
Qed.

Lemma clamp_min_finite (x lo hi : pyfloat) :
  is_finite x -> clip_window (lo, hi) ->
  is_finite (py_max (py_min x hi) lo).
Proof.
  intros Hx [[Hlo|Hlo] [Hhi|Hhi]]; simpl in *;
    destruct x as [| |x|]; try contradiction;
    destruct lo as [| |lo|]; try discriminate; try contradiction;
    destruct hi as [| |hi|]; try discriminate; try contradiction;
    unfold py_min, py_max, fgt; simpl;
    repeat (match goal with
            | |- context [Qlt_bool ?a ?b] => destruct (Qlt_bool a b)
            end; simpl);
    auto.
Qed.

Lemma clip_coords_finite x_min y_min x_max y_max cx cy :
  finite_coords (x_min, y_min, x_max, y_max) ->
  clip_window cx -> clip_window cy ->
  finite_coords (_clip_coords x_min y_min x_max y_max
                   (fst cx) (fst cy) (snd cx) (snd cy)).
Proof.
  intros (H1 & H2 & H3 & H4) Hx Hy. destruct cx as [xl xh], cy as [yl yh].
  unfold _clip_coords, finite_coords. simpl fst; simpl snd.
  repeat split; auto using clamp_max_finite, clamp_min_finite.
Qed.

(* ------------------------------------------------------------------ *)
(** ** The rounding of the float format *)
(* ------------------------------------------------------------------ *)

(** Powers of two. *)
Lemma pow2_pos (e : Z) : 0 < pow2 e.
Proof. apply Qpower_0_lt. reflexivity. Qed.

Lemma pow2_plus (a b : Z) : pow2 (a + b) == pow2 a * pow2 b.
Proof. apply Qpower_plus. discriminate. Qed.

Lemma pow2_Z (n : Z) : (0 <= n)%Z -> pow2 n == inject_Z (2 ^ n).
Proof. intro H. unfold pow2. rewrite Zpower_Qpower by assumption. reflexivity. Qed.

Lemma pow2_le (a b : Z) : (a <= b)%Z -> pow2 a <= pow2 b.
Proof. intro H. apply Qpower_le_compat_l; [assumption|]. discriminate. Qed.

Lemma pow2_lt (a b : Z) : (a < b)%Z -> pow2 a < pow2 b.
Proof. intro H. apply Qpower_lt_compat_l; [assumption|]. reflexivity. Qed.

Lemma pow2_lt_inv (a b : Z) : pow2 a < pow2 b -> (a < b)%Z.
Proof.
  intro H. destruct (Z.lt_ge_cases a b) as [L|L]; [assumption|].
  apply pow2_le in L. lra.
Qed.

Lemma pow2_succ (a : Z) : pow2 (a + 1) == 2 * pow2 a.
Proof. rewrite pow2_plus. unfold pow2 at 2. simpl. ring. Qed.

(** Rounding to an integer. *)
Lemma round_half_even_bounds (x : Q) :
  (Qfloor x <= round_half_even x <= Qfloor x + 1)%Z.
Proof.
  unfold round_half_even.
  destruct (Qcompare (x - inject_Z (Qfloor x)) (1 # 2)); [|lia|lia].
  destruct (Z.even (Qfloor x)); lia.
Qed.

Lemma round_half_even_int (x : Q) (n : Z) :
  x == inject_Z n -> round_half_even x = n.
Proof.
  intro E. unfold round_half_even.
  assert (F : Qfloor x = n) by (rewrite E; apply Qfloor_Z).
  rewrite F.
  destruct (Qcompare_spec (x - inject_Z n) (1 # 2)) as [H|H|H];
    try reflexivity; exfalso; lra.
Qed.

Lemma round_half_even_monotone (x y : Q) :
  x <= y -> (round_half_even x <= round_half_even y)%Z.
Proof.
  intro H. pose proof (Qfloor_resp_le _ _ H) as Hf.
  pose proof (round_half_even_bounds x) as Bx.
  pose proof (round_half_even_bounds y) as By.
  destruct (Z.eq_dec (Qfloor x) (Qfloor y)) as [E|N]; [|lia].
  unfold round_half_even in *. rewrite <- E in *.
  destruct (Qcompare_spec (x - inject_Z (Qfloor x)) (1 # 2)) as [Hx|Hx|Hx];
    destruct (Qcompare_spec (y - inject_Z (Qfloor x)) (1 # 2)) as [Hy|Hy|Hy];
    try lia; try (exfalso; lra);
    destruct (Z.even (Qfloor x)); lia.
Qed.

Lemma round_half_even_ge (x : Q) (n : Z) :
  inject_Z n <= x -> (n <= round_half_even x)%Z.
Proof.
  intro H. pose proof (round_half_even_monotone H) as M.
  rewrite (@round_half_even_int (inject_Z n) n) in M by reflexivity. exact M.
Qed.

Lemma round_half_even_le (x : Q) (n : Z) :
  x <= inject_Z n -> (round_half_even x <= n)%Z.
Proof.
  intro H. pose proof (round_half_even_monotone H) as M.
  rewrite (@round_half_even_int (inject_Z n) n) in M by reflexivity. exact M.
Qed.

(** The logarithm. *)
Lemma floor_log2_spec (q : Q) :
  0 < q -> pow2 (floor_log2 q) <= q /\ q < pow2 (floor_log2 q + 1).
Proof.
  intro Hq. destruct q as [n d]. unfold floor_log2. cbn [Qnum Qden].
  assert (Hn : (0 < n)%Z).
  { unfold Qlt in Hq. simpl in Hq. lia. }
  pose proof (Z.log2_spec n Hn) as [Ln Un].
  pose proof (Z.log2_spec (Zpos d) (Pos2Z.is_pos d)) as [Ld Ud].
  pose proof (Z.log2_nonneg n) as Nn.
  pose proof (Z.log2_nonneg (Zpos d)) as Nd.
  set (ln := Z.log2 n) in *. set (ld := Z.log2 (Zpos d)) in *.
  assert (EN : inject_Z n == (n # d) * inject_Z (Zpos d)).
  { unfold Qeq, Qmult, inject_Z. simpl. lia. }
  assert (Ln' : pow2 ln <= inject_Z n).
  { rewrite (pow2_Z Nn). rewrite <- Zle_Qle. assumption. }
  assert (Un' : inject_Z n < 2 * pow2 ln).
  { rewrite <- pow2_succ. rewrite pow2_Z by lia. rewrite <- Zlt_Qlt.
    replace (ln + 1)%Z with (Z.succ ln) by lia. assumption. }
  assert (Ld' : pow2 ld <= inject_Z (Zpos d)).
  { rewrite (pow2_Z Nd). rewrite <- Zle_Qle. assumption. }
  assert (Ud' : inject_Z (Zpos d) < 2 * pow2 ld).
  { rewrite <- pow2_succ. rewrite pow2_Z by lia. rewrite <- Zlt_Qlt.
    replace (ld + 1)%Z with (Z.succ ld) by lia. assumption. }
  assert (EP : pow2 ln == pow2 (ln - ld) * pow2 ld).
  { rewrite <- pow2_plus. replace (ln - ld + ld)%Z with ln by lia. reflexivity. }
  pose proof (pow2_pos (ln - ld)) as Pe.
  pose proof (pow2_pos ld) as Pd.
  pose proof (pow2_pos ln) as Pn.
  assert (Lo : pow2 (ln - ld) < 2 * (n # d)).
  { set (P := pow2 (ln - ld)) in *. set (K := pow2 ld) in *.
    set (L := pow2 ln) in *. set (D := inject_Z (Zpos d)) in *.
    set (N := inject_Z n) in *. set (q := n # d) in *.
    clearbody P K L D N q. nra. }
  assert (Up : (n # d) < 2 * pow2 (ln - ld)).
  { set (P := pow2 (ln - ld)) in *. set (K := pow2 ld) in *.
    set (L := pow2 ln) in *. set (D := inject_Z (Zpos d)) in *.
    set (N := inject_Z n) in *. set (q := n # d) in *.
    clearbody P K L D N q. nra. }
  destruct (Qlt_bool (n # d) (pow2 (ln - ld))) eqn:E.
  - apply Qlt_bool_iff in E.
    replace (ln - ld - 1 + 1)%Z with (ln - ld)%Z by lia.
    split; [|assumption].
    assert (S : pow2 (ln - ld) == 2 * pow2 (ln - ld - 1)).
    { rewrite <- pow2_succ. replace (ln - ld - 1 + 1)%Z with (ln - ld)%Z by lia.
      reflexivity. }
    lra.
  - assert (L : pow2 (ln - ld) <= n # d).
    { apply Qnot_lt_le. intro L. apply Qlt_bool_iff in L. congruence. }
    split; [assumption|]. rewrite pow2_succ. assumption.
Qed.

Lemma floor_log2_monotone (p q : Q) :
  0 < p -> p <= q -> (floor_log2 p <= floor_log2 q)%Z.
Proof.
  intros Hp Hpq.
  destruct (floor_log2_spec Hp) as [L1 _].
  destruct (@floor_log2_spec q ltac:(lra)) as [_ U2].
  assert (H : pow2 (floor_log2 p) < pow2 (floor_log2 q + 1)) by lra.
  apply pow2_lt_inv in H. lia.
Qed.

Lemma floor_log2_lt (q : Q) (t : Z) :
  0 < q -> q < pow2 t -> (floor_log2 q < t)%Z.
Proof.
  intros Hq H. destruct (floor_log2_spec Hq) as [L _].
  apply pow2_lt_inv. lra.
Qed.

(** The exponent. *)
Lemma Qabs_pos_lt (q : Q) : ~ q == 0 -> 0 < Qabs q.
Proof.
  intro H. destruct (Qlt_le_dec q 0) as [L|L].
  - rewrite Qabs_neg by lra. lra.
  - rewrite Qabs_pos by assumption.
    apply Qle_lteq in L. destruct L as [L|L]; [assumption|].
    exfalso. apply H. symmetry. assumption.
Qed.

Lemma float_exponent_min (q : Q) : (-1074 <= float_exponent q)%Z.
Proof. unfold float_exponent. lia. Qed.

Lemma float_exponent_upper (q : Q) :
  ~ q == 0 -> Qabs q < pow2 (float_exponent q + 53).
Proof.
  intro H. destruct (floor_log2_spec (Qabs_pos_lt H)) as [_ U].
  eapply Qlt_le_trans; [exact U|]. apply pow2_le. unfold float_exponent. lia.
Qed.

Lemma float_exponent_lower (q : Q) :
  ~ q == 0 -> (-1074 < float_exponent q)%Z ->
  pow2 (float_exponent q + 52) <= Qabs q.
Proof.
  intros H Hmin. destruct (floor_log2_spec (Qabs_pos_lt H)) as [L _].
  eapply Qle_trans; [|exact L]. apply pow2_le. unfold float_exponent in *. lia.
Qed.

Lemma float_exponent_monotone (p q : Q) :
  ~ p == 0 -> Qabs p <= Qabs q -> (float_exponent p <= float_exponent q)%Z.
Proof.
  intros H L. pose proof (floor_log2_monotone (Qabs_pos_lt H) L).
  unfold float_exponent. lia.
Qed.

Lemma float_exponent_le (q : Q) (t : Z) :
  ~ q == 0 -> (-1074 <= t)%Z -> Qabs q < pow2 (t + 53) ->
  (float_exponent q <= t)%Z.
Proof.
  intros H Ht L. pose proof (@floor_log2_lt _ (t + 53) (Qabs_pos_lt H) L).
  unfold float_exponent. lia.
Qed.

(** The nearest float: it lies on the same side of every multiple of a
    power of two not below its unit, and it is monotone. *)
Lemma pow2_split (e t : Z) :
  (e <= t)%Z -> pow2 t == inject_Z (2 ^ (t - e)) * pow2 e.
Proof.
  intro H. rewrite <- pow2_Z by lia. rewrite <- pow2_plus.
  replace (t - e + e)%Z with t by lia. reflexivity.
Qed.

Lemma nearest_float_ge (q : Q) (n t : Z) :
  (float_exponent q <= t)%Z ->
  inject_Z n * pow2 t <= q -> inject_Z n * pow2 t <= nearest_float q.
Proof.
  intros Ht H. unfold nearest_float.
  set (e := float_exponent q) in *.
  pose proof (pow2_pos e) as Pe.
  rewrite (pow2_split Ht) in *.
  assert (L : inject_Z (n * 2 ^ (t - e)) <= q / pow2 e).
  { apply Qle_shift_div_l; [assumption|]. rewrite inject_Z_mult.
    rewrite <- Qmult_assoc. assumption. }
  apply round_half_even_ge in L. rewrite Zle_Qle in L.
  rewrite inject_Z_mult in L.
  rewrite Qmult_assoc.
  apply Qmult_le_compat_r; [assumption|lra].
Qed.

Lemma nearest_float_le (q : Q) (n t : Z) :
  (float_exponent q <= t)%Z ->
  q <= inject_Z n * pow2 t -> nearest_float q <= inject_Z n * pow2 t.
Proof.
  intros Ht H. unfold nearest_float.
  set (e := float_exponent q) in *.
  pose proof (pow2_pos e) as Pe.
  rewrite (pow2_split Ht) in *.
  assert (L : q / pow2 e <= inject_Z (n * 2 ^ (t - e))).
  { apply Qle_shift_div_r; [assumption|]. rewrite inject_Z_mult.
    rewrite <- Qmult_assoc. assumption. }
  apply round_half_even_le in L. rewrite Zle_Qle in L.
  rewrite inject_Z_mult in L.
  rewrite Qmult_assoc.
  apply Qmult_le_compat_r; [assumption|lra].
Qed.

Lemma nearest_float_same_exponent (p q : Q) :
  float_exponent p = float_exponent q -> p <= q ->
  nearest_float p <= nearest_float q.
Proof.
  intros E H. unfold nearest_float. rewrite E.
  pose proof (pow2_pos (float_exponent q)) as Pe.
  apply Qmult_le_compat_r; [|lra].
  rewrite <- Zle_Qle. apply round_half_even_monotone.
  apply Qle_shift_div_l; [assumption|].
  unfold Qdiv. rewrite <- Qmult_assoc.
  rewrite (Qmult_comm (/ _)). rewrite Qmult_inv_r by lra. lra.
Qed.

Lemma nearest_float_monotone (p q : Q) :
  p <= q -> nearest_float p <= nearest_float q.
Proof.
  intro H.
  assert (Z0 : forall t, inject_Z 0 * pow2 t == 0) by (intro t; ring).
  assert (M1 : forall t, inject_Z 1 * pow2 t == pow2 t) by (intro t; ring).
  assert (N1 : forall t, inject_Z (-1) * pow2 t == - pow2 t) by (intro t; ring).
  destruct (Qlt_le_dec 0 p) as [Pp|Pp].
  - (* 0 < p <= q *)
    assert (Np : ~ p == 0) by lra. assert (Nq : ~ q == 0) by lra.
    assert (A : Qabs p <= Qabs q).
    { rewrite (Qabs_pos p), (Qabs_pos q) by lra. assumption. }
    pose proof (@float_exponent_monotone p q Np A) as Le.
    destruct (Z.eq_dec (float_exponent p) (float_exponent q)) as [E|N];
      [apply nearest_float_same_exponent; assumption|].
    assert (Ap : Qabs p == p) by (apply Qabs_pos; lra).
    assert (Aq : Qabs q == q) by (apply Qabs_pos; lra).
    assert (Lo : pow2 (float_exponent q + 52) <= q).
    { pose proof (float_exponent_min p) as Hm.
      pose proof (@float_exponent_lower q Nq ltac:(lia)) as Lo.
      rewrite Aq in Lo. exact Lo. }
    assert (Up : p <= pow2 (float_exponent q + 52)).
    { pose proof (@float_exponent_upper p Np) as Up. rewrite Ap in Up.
      apply Qlt_le_weak. eapply Qlt_le_trans; [exact Up|].
      apply pow2_le. lia. }
    apply Qle_trans with (pow2 (float_exponent q + 52)).
    + rewrite <- M1. apply nearest_float_le; [lia|]. rewrite M1. assumption.
    + rewrite <- M1. apply nearest_float_ge; [lia|]. rewrite M1. assumption.
  - destruct (Qlt_le_dec q 0) as [Pq|Pq].
    + (* p <= q < 0 *)
      assert (Np : ~ p == 0) by lra. assert (Nq : ~ q == 0) by lra.
      assert (A : Qabs q <= Qabs p).
      { rewrite (Qabs_neg p), (Qabs_neg q) by lra. lra. }
      pose proof (@float_exponent_monotone q p Nq A) as Le.
      destruct (Z.eq_dec (float_exponent p) (float_exponent q)) as [E|N];
        [apply nearest_float_same_exponent; assumption|].
      assert (Ap : Qabs p == - p) by (apply Qabs_neg; lra).
      assert (Aq : Qabs q == - q) by (apply Qabs_neg; lra).
      assert (Lo : pow2 (float_exponent p + 52) <= - p).
      { pose proof (float_exponent_min q) as Hm.
        pose proof (@float_exponent_lower p Np ltac:(lia)) as Lo.
        rewrite Ap in Lo. exact Lo. }
      assert (Up : - q <= pow2 (float_exponent p + 52)).
      { pose proof (@float_exponent_upper q Nq) as Up. rewrite Aq in Up.
        apply Qlt_le_weak. eapply Qlt_le_trans; [exact Up|].
        apply pow2_le. lia. }
      apply Qle_trans with (- pow2 (float_exponent p + 52)).
      * rewrite <- N1. apply nearest_float_le; [lia|]. rewrite N1. lra.
      * rewrite <- N1. apply nearest_float_ge; [lia|]. rewrite N1. lra.
    + (* p <= 0 <= q *)
      apply Qle_trans with 0.
      * rewrite <- (Z0 (float_exponent p)). apply nearest_float_le; [lia|].
        rewrite Z0. assumption.
      * rewrite <- (Z0 (float_exponent q)). apply nearest_float_ge; [lia|].
        rewrite Z0. assumption.
Qed.

(** Floats are left alone. *)
Lemma nearest_float_zero (q : Q) : q == 0 -> nearest_float q == 0.
Proof.
  intro E. unfold nearest_float.
  rewrite (@round_half_even_int (q / pow2 (float_exponent q)) 0).
  - ring.
  - set (x := pow2 (float_exponent q)). clearbody x. rewrite E.
    unfold Qdiv. ring.
Qed.

Lemma representable_compat (v w : Q) :
  v == w -> representable v -> representable w.
Proof.
  intros E (m & e & He & Hm & Hv). exists m, e.
  split; [assumption|]. split; [assumption|]. rewrite <- E. assumption.
Qed.

Lemma representable_double (v : Q) : representable v -> representable (2 * v).
Proof.
  intros (m & e & He & Hm & Hv). exists m, (e + 1)%Z.
  split; [lia|]. split; [assumption|]. rewrite pow2_succ, Hv. ring.
Qed.

Lemma representable_fixed (v : Q) : representable v -> nearest_float v == v.
Proof.
  intros (m & e & He & Hm & Hv).
  destruct (Z.eq_dec m 0) as [->|Nm].
  { assert (Z : v == 0) by (rewrite Hv; ring).
    rewrite (nearest_float_zero Z). symmetry. assumption. }
  pose proof (pow2_pos e) as Pe.
  assert (Nv : ~ v == 0).
  { intro Z. rewrite Hv in Z.
    assert (Zm : inject_Z m == 0).
    { destruct (Qmult_integral _ _ Z) as [A|A]; [assumption|lra]. }
    apply Nm. unfold Qeq in Zm. simpl in Zm. lia. }
  assert (Le : (float_exponent v <= e)%Z).
  { apply float_exponent_le; [assumption|assumption|].
    apply Qabs_Qlt_condition.
    assert (B : pow2 (e + 53) == inject_Z (2 ^ 53) * pow2 e).
    { rewrite Z.add_comm, pow2_plus, (pow2_Z (n := 53)) by lia. reflexivity. }
    rewrite B, Hv.
    assert (M1 : inject_Z (- 2 ^ 53) < inject_Z m) by (rewrite <- Zlt_Qlt; lia).
    assert (M2 : inject_Z m < inject_Z (2 ^ 53)) by (rewrite <- Zlt_Qlt; lia).
    rewrite inject_Z_opp in M1.
    set (x := inject_Z m) in *. set (y := inject_Z (2 ^ 53)) in *.
    set (z := pow2 e) in *. clearbody x y z. split; nra. }
  unfold nearest_float. set (ev := float_exponent v) in *.
  pose proof (pow2_pos ev) as Pv.
  assert (D : v / pow2 ev == inject_Z (m * 2 ^ (e - ev))).
  { rewrite Hv, (pow2_split Le), inject_Z_mult. field. lra. }
  rewrite (round_half_even_int D).
  rewrite Hv, (pow2_split Le), inject_Z_mult. ring.
Qed.

Lemma nearest_float_representable (q : Q) : representable (nearest_float q).
Proof.
  destruct (Qeq_dec q 0) as [Z|N].
  { apply representable_compat with 0; [symmetry; apply nearest_float_zero; assumption|].
    exists 0%Z, 0%Z. split; [lia|]. split; [reflexivity|]. ring. }
  pose proof (float_exponent_upper N) as U.
  apply Qabs_Qlt_condition in U.
  pose proof (float_exponent_min q) as Hmin.
  unfold nearest_float. set (e := float_exponent q) in *.
  pose proof (pow2_pos e) as Pe.
  assert (B : pow2 (e + 53) == inject_Z (2 ^ 53) * pow2 e).
  { rewrite Z.add_comm, pow2_plus, (pow2_Z (n := 53)) by lia. reflexivity. }
  rewrite B in U. destruct U as [U1 U2].
  assert (L2 : q / pow2 e <= inject_Z (2 ^ 53)).
  { apply Qle_shift_div_r; [assumption|]. lra. }
  assert (L1 : inject_Z (- 2 ^ 53) <= q / pow2 e).
  { apply Qle_shift_div_l; [assumption|]. rewrite inject_Z_opp. lra. }
  apply round_half_even_le in L2. apply round_half_even_ge in L1.
  set (M := round_half_even (q / pow2 e)) in *.
  destruct (Z.eq_dec M (2 ^ 53)) as [E1|N1].
  { exists (2 ^ 52)%Z, (e + 1)%Z. split; [lia|]. split; [reflexivity|].
    rewrite E1, pow2_succ.
    change (inject_Z (2 ^ 53)) with (2 * inject_Z (2 ^ 52)). ring. }
  destruct (Z.eq_dec M (- 2 ^ 53)) as [E2|N2].
  { exists (- 2 ^ 52)%Z, (e + 1)%Z. split; [lia|]. split; [reflexivity|].
    rewrite E2, pow2_succ.
    change (inject_Z (- 2 ^ 53)) with (2 * inject_Z (- 2 ^ 52)). ring. }
  exists M, e. split; [assumption|]. split; [lia|]. reflexivity.
Qed.

(** What [binary64] yields, case by case. *)
Lemma binary64_cases (q : Q) :
  (binary64 q = PInf /\ float_max < nearest_float q)
  \/ (binary64 q = NInf /\ nearest_float q < - float_max)
  \/ (exists v, binary64 q = Fin v /\ v == nearest_float q
                /\ - float_max <= v /\ v <= float_max).
Proof.
  unfold binary64. cbv zeta.
  pose proof (Qred_correct (nearest_float q)) as R.
  destruct (Qlt_bool float_max (Qred (nearest_float q))) eqn:E1.
  { left. split; [reflexivity|]. apply Qlt_bool_iff in E1. lra. }
  destruct (Qlt_bool (Qred (nearest_float q)) (- float_max)) eqn:E2.
  { right. left. split; [reflexivity|]. apply Qlt_bool_iff in E2. lra. }
  right. right. exists (Qred (nearest_float q)).
  apply Qlt_bool_false_iff in E1, E2. repeat split; auto.
Qed.

Lemma binary64_representable (q : Q) :
  - float_max <= q -> q <= float_max -> representable q ->
  feq (binary64 q) (Fin q).
Proof.
  intros L U Hr. pose proof (representable_fixed Hr) as F.
  destruct (binary64_cases q) as [[_ H]|[[_ H]|(v & -> & E & _)]];
    [exfalso; lra|exfalso; lra|].
  simpl. rewrite E. assumption.
Qed.

(** The rounding of binary64 has the properties [rounding]. *)
Lemma binary64_rounding : rounding binary64.
Proof.
  assert (Hmax : 0 < float_max) by reflexivity.
  split.
  - intros p q H. pose proof (nearest_float_monotone H) as M.
    destruct (binary64_cases p) as [[-> P]|[[-> P]|(v & -> & Ev & Lv & Uv)]];
      destruct (binary64_cases q) as [[-> Q]|[[-> Q]|(w & -> & Ew & Lw & Uw)]];
      simpl; try reflexivity; try (exfalso; lra).
    apply Qle_bool_iff. lra.
  - vm_compute. reflexivity.
  - vm_compute. reflexivity.
  - intros p q H.
    destruct (binary64_cases p) as [[E _]|[[E _]|(v & E & Ev & Lv & Uv)]];
      rewrite E in H; try discriminate.
    injection H as <-.
    apply binary64_representable; [assumption|assumption|].
    apply representable_compat with (nearest_float p);
      [symmetry; assumption|apply nearest_float_representable].
  - intros q H.
    assert (Hr : representable q).
    { destruct (binary64_cases q) as [[E _]|[[E _]|(v & E & Ev & _)]];
        rewrite E in H; simpl in H; try contradiction.
      apply representable_compat with (nearest_float q);
        [rewrite <- Ev; assumption|apply nearest_float_representable]. }
    pose proof (representable_fixed (representable_double Hr)) as F.
    destruct (binary64_cases (2 * q)) as [[E _]|[[E _]|(v & E & Ev & _)]];
      rewrite E; auto.
    left. simpl. rewrite Ev. assumption.
Qed.

(* ------------------------------------------------------------------ *)
(** ** Rounding *)
(* ------------------------------------------------------------------ *)

Lemma feq_refl (x : pyfloat) : feq x x.
Proof. destruct x; simpl; auto. reflexivity. Qed.

Lemma fle_between (x : pyfloat) (a b : Q) :
  (Fin a <=? x)%F = true -> (x <=? Fin b)%F = true ->
  exists r, x = Fin r /\ a <= r /\ r <= b.
Proof.
  destruct x as [| |r|]; simpl; try discriminate.
  intros H1 H2. apply Qle_bool_iff in H1, H2. eauto.
Qed.

Lemma fle_feq_l (x y z : pyfloat) :
  feq x y -> (x <=? z)%F = true -> (y <=? z)%F = true.
Proof.
  destruct x as [| |a|], y as [| |b|], z as [| |c|]; simpl; try tauto;
    try discriminate.
  intros E H. apply Qle_bool_iff in H. apply Qle_bool_iff. lra.
Qed.

Lemma fle_feq_r (x y z : pyfloat) :
  feq x y -> (z <=? x)%F = true -> (z <=? y)%F = true.
Proof.
  destruct x as [| |a|], y as [| |b|], z as [| |c|]; simpl; try tauto;
    try discriminate.
  intros E H. apply Qle_bool_iff in H. apply Qle_bool_iff. lra.
Qed.


(** A rational between two rationals that binary64 to numbers rounds to a
    number between them. *)
Lemma round_between (lo q hi a b : Q) :
  lo <= q -> q <= hi -> feq (binary64 lo) (Fin a) -> feq (binary64 hi) (Fin b) ->
  exists r, binary64 q = Fin r /\ a <= r /\ r <= b.
Proof.
  intros H1 H2 Ea Eb. apply fle_between.
  - apply (fle_feq_l _ _ _ Ea). apply (@round_monotone binary64 binary64_rounding). assumption.
  - apply (fle_feq_r _ _ _ Eb). apply (@round_monotone binary64 binary64_rounding). assumption.
Qed.

(** A rational not below one that rounds to a number rounds to a number
    not below it, or overflows. *)
Lemma round_above (lo q a : Q) :
  lo <= q -> feq (binary64 lo) (Fin a) ->
  binary64 q = PInf \/ exists r, binary64 q = Fin r /\ a <= r.
Proof.
  intros H Ea.
  pose proof (fle_feq_l _ _ _ Ea (@round_monotone binary64 binary64_rounding _ _ H)) as L.
  destruct (binary64 q) as [| |r|]; simpl in L; try discriminate.
  - right. exists r. split; [reflexivity|]. apply Qle_bool_iff. assumption.
  - left. reflexivity.
Qed.

Lemma round_compat (p q : Q) (a : Q) :
  p == q -> binary64 p = Fin a -> exists b, binary64 q = Fin b /\ b == a.
Proof.
  intros E H.
  destruct (@round_between p q p a a) as (r & Hr & H1 & H2);
    try lra; try (rewrite H; simpl; reflexivity).
  exists r. split; [assumption|lra].
Qed.

Lemma round_is_zero (q : Q) :
  q == 0 -> exists z, binary64 q = Fin z /\ z == 0.
Proof.
  intro E.
  destruct (@round_between 0 q 0 0 0) as (r & Hr & H1 & H2);
    try lra; try apply (@round_zero binary64 binary64_rounding).
  exists r. split; [assumption|lra].
Qed.

Lemma round_unit (q : Q) :
  0 <= q -> q <= 1 -> exists r, binary64 q = Fin r /\ 0 <= r /\ r <= 1.
Proof.
  intros H0 H1.
  apply (@round_between 0 q 1 0 1); auto;
    [apply (@round_zero binary64 binary64_rounding)|apply (@round_one binary64 binary64_rounding)].
Qed.

(** A product that is a number has numbers as factors. *)
Lemma fmul_finite (x y : pyfloat) (a : Q) :
  fmul x y = Fin a ->
  exists p q, x = Fin p /\ y = Fin q /\ binary64 (p * q) = Fin a.
Proof.
  destruct x as [| |p|], y as [| |q|]; simpl; try discriminate;
    unfold inf_signed;
    try (destruct (q ?= 0); discriminate);
    try (destruct (p ?= 0); discriminate).
  eauto.
Qed.

(* ------------------------------------------------------------------ *)
(** ** The geometric matcher *)
(* ------------------------------------------------------------------ *)

(** Extent of the intersection along one axis: [lo1, hi1] and [lo2, hi2]
    are the extents of the two boxes, [w1] and [w2] their widths. *)
Lemma inter_extent (lo1 hi1 lo2 hi2 w1 w2 : Q) :
  fsub (Fin hi1) (Fin lo1) = Fin w1 ->
  fsub (Fin hi2) (Fin lo2) = Fin w2 ->
  exists W,
    py_max (Fin 0)
      (fsub (py_min (Fin hi1) (Fin hi2)) (py_max (Fin lo1) (Fin lo2)))
    = Fin W
    /\ 0 <= W
    /\ (W == 0 \/ (0 < W /\ W <= w1 /\ W <= w2)).
Proof.
  intros E1 E2.
  destruct (py_min_Fin hi1 hi2) as (hi & -> & Hh1 & Hh2 & _).
  destruct (py_max_Fin lo1 lo2) as (lo & -> & Hl1 & Hl2 & _).
  cbn [fsub fneg fadd] in *.
  assert (L1 : (binary64 (hi + - lo) <=? Fin w1)%F = true).
  { rewrite <- E1. apply (@round_monotone binary64 binary64_rounding). lra. }
  assert (L2 : (binary64 (hi + - lo) <=? Fin w2)%F = true).
  { rewrite <- E2. apply (@round_monotone binary64 binary64_rounding). lra. }
  unfold py_max, fgt.
  destruct (binary64 (hi + - lo)) as [| |r|] eqn:Er; simpl in L1, L2;
    try discriminate; cbn [flt].
  - exists 0. split; [reflexivity|]. split; [lra|]. left. reflexivity.
  - apply Qle_bool_iff in L1, L2.
    destruct (Qlt_bool 0 r) eqn:Ep.
    + apply Qlt_bool_iff in Ep. exists r. split; [reflexivity|].
      split; [lra|]. right. auto.
    + exists 0. split; [reflexivity|]. split; [lra|]. left. reflexivity.
Qed.

Lemma product_le_of_extents (W H w h : Q) :
  0 <= W -> 0 <= H ->
  (W == 0 \/ (0 < W /\ W <= w)) ->
  (H == 0 \/ (0 < H /\ H <= h)) ->
  0 <= w * h -> W * H <= w * h.
Proof.
  intros HW HH [EW|[PW LW]] [EH|[PH LH]] Ha.
  - rewrite EW. lra.
  - rewrite EW. lra.
  - rewrite EH. lra.
  - nra.
Qed.

(** On boxes with finite corners whose areas are numbers that are not
    negative, the intersection area is a number, it is not negative, it
    does not exceed the area of either box, and it is a float. *)
Lemma iou_areas_finite (b1 b2 : coords) (inter_area : pyfloat) (a1 a2 : Q) :
  finite_coords b1 -> finite_coords b2 ->
  iou_areas b1 b2 = (inter_area, Fin a1, Fin a2) ->
  0 <= a1 -> 0 <= a2 ->
  exists i,
    inter_area = Fin i /\ 0 <= i /\ i <= a1 /\ i <= a2
    /\ feq (binary64 i) (Fin i).
Proof.
  destruct b1 as [[[x_min1 y_min1] x_max1] y_max1].
  destruct b2 as [[[x_min2 y_min2] x_max2] y_max2].
  intros (F1 & F2 & F3 & F4) (G1 & G2 & G3 & G4).
  destruct x_min1 as [| |xl1|], y_min1 as [| |yl1|],
           x_max1 as [| |xh1|], y_max1 as [| |yh1|]; try contradiction.
  destruct x_min2 as [| |xl2|], y_min2 as [| |yl2|],
           x_max2 as [| |xh2|], y_max2 as [| |yh2|]; try contradiction.
  unfold iou_areas. intros E Ha1 Ha2.
  injection E as Ei E1 E2.
  apply fmul_finite in E1, E2.
  destruct E1 as (w1 & h1 & Ew1 & Eh1 & Er1).
  destruct E2 as (w2 & h2 & Ew2 & Eh2 & Er2).
  destruct (@inter_extent xl1 xh1 xl2 xh2 w1 w2 Ew1 Ew2) as (W & EW & HW & HWc).
  destruct (@inter_extent yl1 yh1 yl2 yh2 h1 h2 Eh1 Eh2) as (H & EH & HH & HHc).
  rewrite EW, EH in Ei. cbn [fmul] in Ei.
  assert (Hi : exists i, binary64 (W * H) = Fin i /\ 0 <= i /\ i <= a1 /\ i <= a2).
  { destruct HWc as [Zw|(Pw & Lw1 & Lw2)].
    - destruct (round_is_zero (q := W * H)) as (z & Hz & Ez); [rewrite Zw; ring|].
      exists z. split; [assumption|]. lra.
    - destruct HHc as [Zh|(Ph & Lh1 & Lh2)].
      + destruct (round_is_zero (q := W * H)) as (z & Hz & Ez); [rewrite Zh; ring|].
        exists z. split; [assumption|]. lra.
      + destruct (@round_between 0 (W * H) (w1 * h1) 0 a1) as (i & Hi & Hi0 & Hi1);
          [nra|nra|apply (@round_zero binary64 binary64_rounding)|rewrite Er1; simpl; reflexivity|].
        destruct (@round_between 0 (W * H) (w2 * h2) 0 a2) as (i' & Hi' & _ & Hi2);
          [nra|nra|apply (@round_zero binary64 binary64_rounding)|rewrite Er2; simpl; reflexivity|].
        rewrite Hi in Hi'. injection Hi' as <-.
        exists i. auto. }
  destruct Hi as (i & Hi & Hi0 & Hi1 & Hi2).
  exists i. split; [congruence|]. repeat split; auto.
  apply (@round_fixed binary64 binary64_rounding _ _ Hi).
Qed.





(** Concrete scenarios, with [eps = 0]: equal boxes have IoU 1, boxes
    shifted by half their size along both axes the float nearest to 1/7. *)
Example iou_full_overlap :
  exists v,
    _compute_iou (Fin 960, Fin 540) (Fin 100, Fin 100)
                 (Fin 960, Fin 540) (Fin 100, Fin 100)
                 {| kw_iou_clip_x := None; kw_iou_clip_y := None;
                    kw_iou_eps := Some (Fin 0) |} = Some (Fin v)
    /\ v == 1.
Proof. eexists. split; [vm_compute; reflexivity|]. reflexivity. Qed.

Example iou_quarter_overlap :
  _compute_iou (Fin 960, Fin 540) (Fin 100, Fin 100)
               (Fin 1010, Fin 490) (Fin 100, Fin 100)
               {| kw_iou_clip_x := None; kw_iou_clip_y := None;
                  kw_iou_eps := Some (Fin 0) |}
  = Some (binary64 (1 # 7)).
Proof. vm_compute. reflexivity. Qed.

(** Outside the hypothesis of non-negative areas the divisor can vanish: a
    box of negative width against a degenerate box, with [eps = 1]. *)
Example iou_zero_division :
  _compute_iou (Fin 0, Fin 0) (Fin (-1), Fin 1)
               (Fin 5, Fin 5) (Fin 0, Fin 0)
               {| kw_iou_clip_x := None; kw_iou_clip_y := None;
                  kw_iou_eps := Some (Fin 1) |} = None.
Proof. vm_compute. reflexivity. Qed.


(* ------------------------------------------------------------------ *)
(** ** Construction *)
(* ------------------------------------------------------------------ *)

Lemma init_inl threshold matching_type clip_truncated_boxes kwargs c :
  init threshold matching_type clip_truncated_boxes kwargs = inl c ->
  _clip_x c = init_clip clip_truncated_boxes (kw_clip_x kwargs) default_clip_x
  /\ _clip_y c = init_clip clip_truncated_boxes (kw_clip_y kwargs) default_clip_y
  /\ _matching_type c = matching_type
  /\ _threshold c = threshold.
Proof.
  unfold init.
  destruct (matching_type =? "complete")%string;
    [|destruct (matching_type =? "exclusive")%string];
    intro H; inversion H; subst; simpl; auto.
Qed.

(** C5, as stated, fails: with [clip_truncated_boxes = False] a supplied
    clip rectangle is not the clip window of the correlator
    (the third correlator of the construction test). *)
Lemma supplied_clip_ignored_without_clipping :
  exists c,
    init (Fin (1 # 10)) "complete" false
         {| kw_confidence_col := None;
            kw_annotation_bb_center_col := None;
            kw_annotation_bb_size_col := None;
            kw_detection_bb_center_col := None;
            kw_detection_bb_size_col := None;
            kw_clip_x := Some (Fin 0, Fin 1440);
            kw_clip_y := Some (Fin 0, Fin 900) |} = inl c
    /\ _clip_x c <> (Fin 0, Fin 1440)
    /\ _clip_y c <> (Fin 0, Fin 900)
    /\ _clip_x c = (NInf, PInf) /\ _clip_y c = (NInf, PInf).
Proof.
  eexists. split; [reflexivity|]. simpl. repeat split; discriminate.
Qed.

(** C5, amended -- The clip window of a constructed correlator, per axis:
    with [clip_truncated_boxes] true it is the supplied rectangle when one
    is given and the default ((0, 1920) for x, (0, 1280) for y) when none
    is given; with [clip_truncated_boxes] false it is (-inf, +inf), whether
    or not a rectangle is supplied. *)
Theorem init_clip_window threshold matching_type clip_truncated_boxes kwargs c :
  init threshold matching_type clip_truncated_boxes kwargs = inl c ->
  (clip_truncated_boxes = true ->
     (forall r, kw_clip_x kwargs = Some r -> _clip_x c = r)
     /\ (kw_clip_x kwargs = None -> _clip_x c = (Fin 0, Fin 1920))
     /\ (forall r, kw_clip_y kwargs = Some r -> _clip_y c = r)
     /\ (kw_clip_y kwargs = None -> _clip_y c = (Fin 0, Fin 1280)))
  /\ (clip_truncated_boxes = false ->
      _clip_x c = (NInf, PInf) /\ _clip_y c = (NInf, PInf)).
Proof.
  intro H. apply init_inl in H. destruct H as (Hx & Hy & _).
  rewrite Hx, Hy. unfold init_clip. split; intros ->.
  - repeat split; intros; try (rewrite H); reflexivity.
  - split; reflexivity.
Qed.

Lemma init_clip_window_witness :
  exists c,
    init (Fin (1 # 10)) "complete" true
         {| kw_confidence_col := None;
            kw_annotation_bb_center_col := None;
            kw_annotation_bb_size_col := None;
            kw_detection_bb_center_col := None;
            kw_detection_bb_size_col := None;
            kw_clip_x := Some (Fin 0, Fin 1440);
            kw_clip_y := None |} = inl c
    /\ _clip_x c = (Fin 0, Fin 1440) /\ _clip_y c = (Fin 0, Fin 1280).
Proof.
  eexists. split; [reflexivity|].
  match goal with
  | |- _clip_x ?c = _ /\ _ =>
      destruct (@init_clip_window (Fin (1 # 10)) "complete" true
                  {| kw_confidence_col := None;
                     kw_annotation_bb_center_col := None;
                     kw_annotation_bb_size_col := None;
                     kw_detection_bb_center_col := None;
                     kw_detection_bb_size_col := None;
                     kw_clip_x := Some (Fin 0, Fin 1440);
                     kw_clip_y := None |} c eq_refl) as [Ht _]
  end.
  destruct (Ht eq_refl) as (Hx & _ & _ & Hy).
  split; [apply Hx; reflexivity|apply Hy; reflexivity].
Defined.

(** C8 -- Construction raises (the RuntimeError) exactly when
    [matching_type] is neither "complete" nor "exclusive"; with "complete"
    it succeeds and binds the complete policy, with "exclusive" it succeeds
    and binds the exclusive policy; no other value is given a policy. *)
Theorem init_matching_type threshold matching_type clip_truncated_boxes kwargs :
  ((exists e, init threshold matching_type clip_truncated_boxes kwargs = inr e)
   <-> (matching_type <> "complete" /\ matching_type <> "exclusive")%string)
  /\ (exists c, init threshold "complete" clip_truncated_boxes kwargs = inl c
                /\ _match_boxes c = match_boxes_complete_impl)
  /\ (exists c, init threshold "exclusive" clip_truncated_boxes kwargs = inl c
                /\ _match_boxes c = match_boxes_exclusive_impl)
  /\ (forall c, init threshold matching_type clip_truncated_boxes kwargs = inl c ->
        matching_type = "complete"%string
        /\ _match_boxes c = match_boxes_complete_impl
        \/ matching_type = "exclusive"%string
           /\ _match_boxes c = match_boxes_exclusive_impl).
Proof.
  split; [|split; [|split]].
  - unfold init.
    destruct (String.eqb_spec matching_type "complete") as [->|N1];
      [|destruct (String.eqb_spec matching_type "exclusive") as [->|N2]].
    + split; [intros [e H]; discriminate|intros [H _]; congruence].
    + split; [intros [e H]; discriminate|intros [_ H]; congruence].
    + split; [auto|eauto].
  - eexists. split; reflexivity.
  - eexists. split; reflexivity.
  - intros c H. unfold init in H.
    destruct (String.eqb_spec matching_type "complete") as [->|N1];
      [|destruct (String.eqb_spec matching_type "exclusive") as [->|N2]];
      inversion H; subst; simpl; auto.
Qed.

(* ------------------------------------------------------------------ *)
(** ** Membership, sets and [drop_duplicates] *)
(* ------------------------------------------------------------------ *)

Lemma opt_eqb_eq (a b : option string) : opt_eqb a b = true <-> a = b.
Proof.
  destruct a as [a|], b as [b|]; simpl; try (split; congruence).
  rewrite String.eqb_eq. split; congruence.
Qed.

Section MemFacts.
Context {A K : Type}.
Variable eqb : K -> K -> bool.
Hypothesis eqb_eq : forall a b, eqb a b = true <-> a = b.

Lemma mem_In (x : K) (s : list K) : mem eqb x s = true <-> In x s.
Proof.
  unfold mem. rewrite existsb_exists. split.
  - intros (y & Hy & E). apply eqb_eq in E. subst. assumption.
  - intro H. exists x. split; [assumption|]. apply eqb_eq. reflexivity.
Qed.

Lemma mem_false (x : K) (s : list K) : mem eqb x s = false <-> ~ In x s.
Proof.
  rewrite <- mem_In. destruct (mem eqb x s); split; congruence.
Qed.

Lemma set_diff_In (x : K) (s1 s2 : list K) :
  In x (set_diff eqb s1 s2) <-> In x s1 /\ ~ In x s2.
Proof.
  unfold set_diff. rewrite filter_In, negb_true_iff, mem_false. tauto.
Qed.

Lemma set_diff_NoDup (s1 s2 : list K) :
  NoDup s1 -> NoDup (set_diff eqb s1 s2).
Proof. apply NoDup_filter. Qed.

Lemma set_add_In (x y : K) (s : list K) :
  In y (set_add eqb x s) <-> y = x \/ In y s.
Proof.
  unfold set_add. destruct (mem eqb x s) eqn:E.
  - apply mem_In in E. split; [auto|]. intros [->|H]; assumption.
  - rewrite in_app_iff. simpl. split; [intros [H|[H|[]]]|intros [H|H]]; auto.
Qed.

Variable key : A -> K.

Lemma drop_duplicates_from_In (seen : list K) (l : list A) (x : A) :
  In x (drop_duplicates_from eqb key seen l) -> In x l /\ ~ In (key x) seen.
Proof.
  revert seen. induction l as [|y r IH]; intros seen; simpl; [tauto|].
  destruct (mem eqb (key y) seen) eqn:E.
  - intro H. apply IH in H. tauto.
  - apply mem_false in E. intros [->|H]; [tauto|].
    apply IH in H. simpl in H. tauto.
Qed.

Lemma drop_duplicates_from_keys (seen : list K) (l : list A) (x : A) :
  In x l -> ~ In (key x) seen ->
  In (key x) (map key (drop_duplicates_from eqb key seen l)).
Proof.
  revert seen. induction l as [|y r IH]; intros seen; simpl; [tauto|].
  intros [->|H] Hs.
  - apply mem_false in Hs. rewrite Hs. left. reflexivity.
  - destruct (mem eqb (key y) seen) eqn:E; [auto|].
    destruct (eqb (key x) (key y)) eqn:Exy.
    + apply eqb_eq in Exy. left. congruence.
    + right. apply IH; [assumption|]. simpl. intros [E'|E']; [|tauto].
      rewrite E' in Exy.
      assert (eqb (key x) (key x) = true) by (apply eqb_eq; reflexivity).
      congruence.
Qed.

Lemma drop_duplicates_from_NoDup (seen : list K) (l : list A) :
  NoDup (map key (drop_duplicates_from eqb key seen l)).
Proof.
  revert seen. induction l as [|y r IH]; intros seen; simpl; [constructor|].
  destruct (mem eqb (key y) seen) eqn:E; [apply IH|].
  simpl. constructor; [|apply IH].
  intro H. apply in_map_iff in H. destruct H as (z & Ez & Hz).
  apply drop_duplicates_from_In in Hz. destruct Hz as [_ Hz].
  apply Hz. left. congruence.
Qed.

(** The row kept for a key is the first row of the input with that key. *)
Lemma drop_duplicates_from_find (seen : list K) (l : list A) (k : K) :
  find (fun y => eqb (key y) k) (drop_duplicates_from eqb key seen l)
  = if mem eqb k seen then None else find (fun y => eqb (key y) k) l.
Proof.
  revert seen. induction l as [|y r IH]; intros seen; simpl.
  - destruct (mem eqb k seen); reflexivity.
  - destruct (mem eqb (key y) seen) eqn:E.
    + rewrite IH. destruct (mem eqb k seen) eqn:Ek; [reflexivity|].
      destruct (eqb (key y) k) eqn:Eyk; [|reflexivity].
      apply eqb_eq in Eyk. congruence.
    + simpl. destruct (eqb (key y) k) eqn:Eyk.
      * apply eqb_eq in Eyk. subst k. rewrite E. reflexivity.
      * rewrite IH. simpl.
        destruct (eqb k (key y)) eqn:Eky.
        -- apply eqb_eq in Eky. subst k.
           assert (eqb (key y) (key y) = true) by (apply eqb_eq; reflexivity).
           congruence.
        -- reflexivity.
Qed.

Lemma drop_duplicates_In (l : list A) (x : A) :
  In x (drop_duplicates eqb key l) -> In x l.
Proof. intro H. apply drop_duplicates_from_In in H. tauto. Qed.

Lemma drop_duplicates_keys (l : list A) (k : K) :
  In k (map key (drop_duplicates eqb key l)) <-> In k (map key l).
Proof.
  split; intro H; apply in_map_iff in H; destruct H as (x & <- & Hx).
  - apply in_map. eapply drop_duplicates_In; eassumption.
  - apply drop_duplicates_from_keys; [assumption|intros []].
Qed.

Lemma drop_duplicates_NoDup (l : list A) :
  NoDup (map key (drop_duplicates eqb key l)).
Proof. apply drop_duplicates_from_NoDup. Qed.

Lemma drop_duplicates_find (l : list A) (k : K) :
  find (fun y => eqb (key y) k) (drop_duplicates eqb key l)
  = find (fun y => eqb (key y) k) l.
Proof. unfold drop_duplicates. rewrite drop_duplicates_from_find. reflexivity. Qed.

(** Dropping duplicates with a set of seen keys keeps the rows that no row
    in front of them shares the key with, in their order. *)
Lemma drop_duplicates_from_keep_unseen (seen : list K) (front l : list A) :
  (forall k, In k seen <-> exists y, In y front /\ key y = k) ->
  drop_duplicates_from eqb key seen l = keep_unseen eqb key front l.
Proof.
  revert seen front. induction l as [|x r IH]; intros seen front Hseen; simpl;
    [reflexivity|].
  destruct (mem eqb (key x) seen) eqn:E.
  - apply mem_In in E.
    assert (Ex : existsb (fun y => eqb (key y) (key x)) front = true).
    { apply existsb_exists. apply Hseen in E. destruct E as (y & Hy & Ey).
      exists y. split; [assumption|]. apply eqb_eq. assumption. }
    rewrite Ex. simpl. apply IH. intro k. rewrite Hseen. split.
    + intros (y & Hy & Ey). exists y. split; [|assumption].
      apply in_app_iff. left. assumption.
    + intros (y & Hy & Ey). apply in_app_iff in Hy. destruct Hy as [Hy|[<-|[]]].
      * eauto.
      * apply Hseen. subst k. assumption.
  - apply mem_false in E.
    assert (Ex : existsb (fun y => eqb (key y) (key x)) front = false).
    { destruct (existsb (fun y => eqb (key y) (key x)) front) eqn:Ex;
        [|reflexivity].
      apply existsb_exists in Ex. destruct Ex as (y & Hy & Ey).
      apply eqb_eq in Ey. exfalso. apply E. apply Hseen. eauto. }
    rewrite Ex. simpl. f_equal. apply IH. intro k. simpl. rewrite Hseen. split.
    + intros [<-|(y & Hy & Ey)].
      * exists x. split; [|reflexivity]. apply in_app_iff. right. left. reflexivity.
      * exists y. split; [|assumption]. apply in_app_iff. left. assumption.
    + intros (y & Hy & Ey). apply in_app_iff in Hy. destruct Hy as [Hy|[<-|[]]].
      * right. eauto.
      * left. assumption.
Qed.

Lemma drop_duplicates_first_occurrences (l : list A) :
  drop_duplicates eqb key l = first_occurrences eqb key l.
Proof.
  apply drop_duplicates_from_keep_unseen. intro k. simpl. split; [tauto|].
  intros (y & [] & _).
Qed.

(** In a table without duplicate keys a row is the first of its key. *)
Lemma find_NoDup_keys (l : list A) (x : A) :
  NoDup (map key l) -> In x l ->
  find (fun y => eqb (key y) (key x)) l = Some x.
Proof.
  induction l as [|y r IH]; simpl; [tauto|].
  intros Hnd Hin. inversion Hnd as [|? ? Hn Hr]; subst.
  destruct Hin as [->|Hin].
  - assert (E : eqb (key x) (key x) = true) by (apply eqb_eq; reflexivity).
    rewrite E. reflexivity.
  - destruct (eqb (key y) (key x)) eqn:E; [|auto].
    apply eqb_eq in E. exfalso. apply Hn. rewrite E. apply in_map. assumption.
Qed.

(** A selection of rows by their key leaves the first row of a selected
    key where it is. *)
Lemma find_filter_key (q : K -> bool) (l : list A) (k : K) :
  q k = true ->
  find (fun y => eqb (key y) k) (filter (fun r => q (key r)) l)
  = find (fun y => eqb (key y) k) l.
Proof.
  intro Hq. induction l as [|y r IH]; simpl; [reflexivity|].
  destruct (q (key y)) eqn:Ey; simpl.
  - rewrite IH. reflexivity.
  - destruct (eqb (key y) k) eqn:E; [|exact IH].
    apply eqb_eq in E. congruence.
Qed.

(** A row that is left of the rows selected by key, without duplicates, is
    the first row of its key in the table. *)
Lemma drop_duplicates_filter_origin (q : K -> bool) (l : list A) (x : A) :
  In x (drop_duplicates eqb key (filter (fun r => q (key r)) l)) ->
  find (fun y => eqb (key y) (key x)) l = Some x.
Proof.
  intro Hx.
  assert (Hq : q (key x) = true).
  { apply drop_duplicates_In in Hx. apply filter_In in Hx. tauto. }
  rewrite <- (find_filter_key q l (key x) Hq).
  rewrite <- drop_duplicates_find.
  apply find_NoDup_keys; [apply drop_duplicates_NoDup|assumption].
Qed.

(** A table without duplicate keys has at most one row per key; the rows
    of a key are counted by [filter]. *)
Lemma NoDup_keys_count (l : list A) (k : K) :
  NoDup (map key l) ->
  List.length (filter (fun y => eqb (key y) k) l)
  = if mem eqb k (map key l) then 1%nat else 0%nat.
Proof.
  induction l as [|y r IH]; simpl; [reflexivity|].
  intro H. inversion H as [|? ? Hn Hr]; subst.
  specialize (IH Hr).
  destruct (eqb (key y) k) eqn:E.
  - apply eqb_eq in E. subst k.
    assert (E2 : eqb (key y) (key y) = true) by (apply eqb_eq; reflexivity).
    rewrite E2. simpl. apply mem_false in Hn. rewrite Hn in IH.
    rewrite IH. reflexivity.
  - destruct (eqb k (key y)) eqn:E2.
    + apply eqb_eq in E2. subst k.
      assert (eqb (key y) (key y) = true) by (apply eqb_eq; reflexivity).
      congruence.
    + simpl. exact IH.
Qed.

End MemFacts.

Lemma unique_In {K : Type} (eqb : K -> K -> bool)
    (eqb_eq : forall a b, eqb a b = true <-> a = b) (l : list K) (x : K) :
  In x (unique eqb l) <-> In x l.
Proof.
  unfold unique.
  pose proof (@drop_duplicates_keys _ _ eqb eqb_eq (fun k => k) l x) as H.
  rewrite !map_id in H. exact H.
Qed.

Lemma unique_NoDup {K : Type} (eqb : K -> K -> bool)
    (eqb_eq : forall a b, eqb a b = true <-> a = b) (l : list K) :
  NoDup (unique eqb l).
Proof.
  unfold unique.
  pose proof (@drop_duplicates_NoDup _ _ eqb eqb_eq (fun k => k) l) as H.
  rewrite map_id in H. exact H.
Qed.

Lemma non_null_In {A : Type} (l : list (option A)) (a : A) :
  In a (non_null l) <-> In (Some a) l.
Proof.
  induction l as [|[b|] r IH]; simpl; [tauto| |].
  - rewrite IH. split; intros [H|H]; auto; left; congruence.
  - rewrite IH. split; [auto|intros [H|H]; [discriminate|assumption]].
Qed.

Lemma non_null_NoDup {A : Type} (l : list (option A)) :
  NoDup l -> NoDup (non_null l).
Proof.
  induction l as [|[b|] r IH]; simpl; intro H; [constructor| |];
    inversion H; subst; auto.
  constructor; [|auto]. rewrite non_null_In. assumption.
Qed.

Lemma non_null_app {A : Type} (l1 l2 : list (option A)) :
  non_null (l1 ++ l2) = non_null l1 ++ non_null l2.
Proof.
  induction l1 as [|[b|] r IH]; simpl; congruence.
Qed.

(* ------------------------------------------------------------------ *)
(** ** Sorting *)
(* ------------------------------------------------------------------ *)

Section SortFacts.
Context {A : Type}.
Variable before : A -> A -> bool.

Lemma insert_sorted_perm (x : A) (l : list A) :
  Permutation (insert_sorted before x l) (x :: l).
Proof.
  induction l as [|y r IH]; simpl; [reflexivity|].
  destruct (before y x); [|reflexivity].
  rewrite IH. apply perm_swap.
Qed.

Lemma stable_sort_perm (l : list A) : Permutation (stable_sort before l) l.
Proof.
  induction l as [|x r IH]; simpl; [reflexivity|].
  rewrite insert_sorted_perm. apply perm_skip. exact IH.
Qed.

Lemma stable_sort_In (l : list A) (x : A) :
  In x (stable_sort before l) <-> In x l.
Proof.
  split; apply Permutation_in; [|symmetry]; apply stable_sort_perm.
Qed.

(** Stability: rows none of which has to come before another keep the
    order they have in the input. *)
Lemma insert_sorted_filter (p : A -> bool) (x : A) (l : list A) :
  (forall a b, p a = true -> p b = true -> before a b = false) ->
  filter p (insert_sorted before x l) = filter p (x :: l).
Proof.
  intro Hp. induction l as [|y r IH]; simpl; [reflexivity|].
  destruct (before y x) eqn:E; [|reflexivity].
  simpl. simpl in IH. rewrite IH.
  destruct (p x) eqn:Px, (p y) eqn:Py; try reflexivity.
  rewrite (Hp y x Py Px) in E. discriminate.
Qed.

Lemma stable_sort_stable (p : A -> bool) (l : list A) :
  (forall a b, p a = true -> p b = true -> before a b = false) ->
  filter p (stable_sort before l) = filter p l.
Proof.
  intro Hp. induction l as [|x r IH]; simpl; [reflexivity|].
  rewrite insert_sorted_filter by assumption. simpl. rewrite IH. reflexivity.
Qed.

Hypothesis before_sw : strict_weak before.

Lemma insert_sorted_sorted (x : A) (l : list A) :
  StronglySorted (in_order before) l ->
  StronglySorted (in_order before) (insert_sorted before x l).
Proof.
  destruct before_sw as [Hasym Htrans].
  induction 1 as [|y r Hr IH Hy]; simpl.
  - constructor; constructor.
  - destruct (before y x) eqn:E.
    + constructor; [assumption|].
      rewrite Forall_forall in *. intros z Hz.
      apply (Permutation_in _ (insert_sorted_perm x r)) in Hz.
      destruct Hz as [<-|Hz]; [|auto].
      apply Hasym. assumption.
    + constructor; [constructor; assumption|].
      constructor; [exact E|].
      rewrite Forall_forall in *. intros z Hz.
      unfold in_order in *. eapply Htrans; [exact E|]. auto.
Qed.

Lemma stable_sort_sorted (l : list A) :
  StronglySorted (in_order before) (stable_sort before l).
Proof.
  induction l as [|x r IH]; simpl; [constructor|].
  apply insert_sorted_sorted. exact IH.
Qed.

End SortFacts.

Lemma strict_weak_on {A K : Type} (key : A -> K) (c : K -> K -> bool) :
  strict_weak c -> strict_weak (on key c).
Proof.
  intros [Ha Ht]. split; unfold on; intros; eauto.
Qed.

Lemma strict_weak_lex {A : Type} (c1 c2 : A -> A -> bool) :
  strict_weak c1 -> strict_weak c2 -> strict_weak (lex c1 c2).
Proof.
  intros [A1 T1] [A2 T2]. split; unfold lex.
  - intros a b H.
    apply orb_true_iff in H. destruct H as [H|H].
    + rewrite (A1 _ _ H). rewrite H. reflexivity.
    + apply andb_true_iff in H. destruct H as [Hn H].
      apply negb_true_iff in Hn. rewrite Hn. simpl.
      rewrite (A2 _ _ H). apply andb_false_r.
  - intros a b c Hba Hcb.
    apply orb_false_iff in Hba. destruct Hba as [Hba1 Hba2].
    apply orb_false_iff in Hcb. destruct Hcb as [Hcb1 Hcb2].
    apply orb_false_iff. split; [eapply T1; eassumption|].
    apply andb_false_iff in Hba2, Hcb2.
    rewrite negb_false_iff in Hba2, Hcb2.
    destruct (c1 a c) eqn:Eac; [reflexivity|]. simpl.
    (* a, b, c are tied on the first column *)
    assert (Hab : c1 a b = false).
    { destruct (c1 a b) eqn:E; [|reflexivity].
      destruct Hcb2 as [Hbc|Hcb2].
      - (* b before c, a before b; then a before c *)
        destruct (c1 a c) eqn:E'; [discriminate|].
        (* not (a before c), not (c before b) so not (a before b) *)
        assert (c1 a b = false) by (eapply T1; [exact Hcb1|exact E']).
        congruence.
      - assert (c1 a b = false) by (eapply T1; [exact Hcb1|exact Eac]).
        congruence. }
    assert (Hbc : c1 b c = false).
    { destruct (c1 b c) eqn:E; [|reflexivity].
      assert (c1 b c = false) by (eapply T1; [exact Eac|exact Hba1]).
      congruence. }
    destruct Hba2 as [Hba2|Hba2]; [congruence|].
    destruct Hcb2 as [Hcb2|Hcb2]; [congruence|].
    eapply T2; eassumption.
Qed.

Lemma float_desc_strict_weak : strict_weak float_desc.
Proof.
  split.
  - intros a b. unfold float_desc, fgt.
    destruct a as [| |a|], b as [| |b|]; simpl; try congruence.
    rewrite Qlt_bool_iff. intro H. apply Qlt_bool_false_iff. lra.
  - intros a b c. unfold float_desc, fgt.
    destruct a as [| |a|], b as [| |b|], c as [| |c|]; simpl; try congruence.
    rewrite !Qlt_bool_false_iff. intros. lra.
Qed.

Lemma nat_asc_strict_weak : strict_weak nat_asc.
Proof.
  split; unfold nat_asc.
  - intros a b H. apply Nat.ltb_lt in H. apply Nat.ltb_ge. lia.
  - intros a b c H1 H2. apply Nat.ltb_ge in H1, H2. apply Nat.ltb_ge. lia.
Qed.

Lemma StronglySorted_weaken {A : Type} (R R' : A -> A -> Prop) (l : list A) :
  (forall a b, R a b -> R' a b) -> StronglySorted R l -> StronglySorted R' l.
Proof.
  intros HR H. induction H as [|a l Hl IH Ha]; constructor; auto.
  eapply Forall_impl; [|exact Ha]. intros b. apply HR.
Qed.

(** Sorting by confidence with the ties in the order of a rank is one of
    the results that [sort_values] may give. *)
Lemma sort_values_ranked_contract (rank : detection -> nat) :
  sort_contract (sort_values_ranked rank).
Proof.
  intro dets. unfold sort_values_ranked. split; [apply stable_sort_perm|].
  apply StronglySorted_weaken
    with (R := in_order (lex (on det_confidence float_desc) (on rank nat_asc))).
  - intros a b H. unfold in_order, lex in H.
    apply orb_false_iff in H. exact (proj1 H).
  - apply stable_sort_sorted. apply strict_weak_lex.
    + apply strict_weak_on, float_desc_strict_weak.
    + apply strict_weak_on, nat_asc_strict_weak.
Qed.

Lemma sort_by_confidence_iou_sorted (rows : list match_entry) :
  StronglySorted
    (in_order (lex (on confidence float_desc) (on match_value float_desc)))
    (sort_by_confidence_iou rows).
Proof.
  apply stable_sort_sorted.
  apply strict_weak_lex; apply strict_weak_on, float_desc_strict_weak.
Qed.

(* ------------------------------------------------------------------ *)
(** ** Sorted lists of names *)
(* ------------------------------------------------------------------ *)

Lemma ltb_lt (a b : string) :
  String.ltb a b = true <-> String_as_OT.lt a b.
Proof.
  unfold String.ltb. rewrite <- String_as_OT.cmp_lt.
  unfold String_as_OT.cmp.
  destruct (String.compare a b); split; congruence.
Qed.

Lemma ltb_trans (a b c : string) :
  String.ltb a b = true -> String.ltb b c = true -> String.ltb a c = true.
Proof.
  rewrite !ltb_lt. apply String_as_OT.lt_trans.
Qed.

Lemma ltb_irrefl (a : string) : String.ltb a a = false.
Proof.
  destruct (String.ltb a a) eqn:E; [|reflexivity].
  apply ltb_lt in E. exfalso. exact (@String_as_OT.lt_not_eq a a E eq_refl).
Qed.

Lemma ltb_total (a b : string) :
  String.ltb b a = false -> a <> b -> String.ltb a b = true.
Proof.
  unfold String.ltb. rewrite (String.compare_antisym a b).
  destruct (String.compare b a) eqn:E; simpl; try congruence.
  apply String.compare_eq_iff in E. congruence.
Qed.

Lemma str_asc_strict_weak : strict_weak str_asc.
Proof.
  split; unfold str_asc.
  - intros a b H. destruct (String.ltb b a) eqn:E; [|reflexivity].
    pose proof (ltb_trans _ _ _ H E) as T. rewrite ltb_irrefl in T. discriminate.
  - intros a b c Hba Hcb.
    destruct (String.ltb c a) eqn:E; [|reflexivity].
    destruct (String.eqb_spec a b) as [->|Nab]; [congruence|].
    destruct (String.eqb_spec b c) as [->|Nbc]; [congruence|].
    pose proof (ltb_total Hba Nab) as H1.
    pose proof (ltb_total Hcb Nbc) as H2.
    pose proof (ltb_trans _ _ _ (ltb_trans _ _ _ H1 H2) E) as T.
    rewrite ltb_irrefl in T. discriminate.
Qed.

(** A list of names sorted strictly ascending. *)
Lemma sorted_str_strict (l : list string) :
  NoDup l -> StronglySorted (fun a b => String.ltb a b = true) (sorted_str l).
Proof.
  intro Hnd.
  assert (Hnd' : NoDup (sorted_str l)).
  { eapply Permutation_NoDup; [symmetry; apply stable_sort_perm|assumption]. }
  pose proof (stable_sort_sorted str_asc_strict_weak l) as Hs.
  fold (sorted_str l) in Hs.
  induction Hs as [|x r Hr IH Hx]; [constructor|].
  inversion Hnd' as [|? ? Hn Hnr]; subst.
  constructor; [auto|].
  rewrite Forall_forall in *. intros y Hy.
  apply ltb_total; [apply Hx; assumption|]. intros ->. contradiction.
Qed.

Lemma strict_sorted_ext (l1 l2 : list string) :
  StronglySorted (fun a b => String.ltb a b = true) l1 ->
  StronglySorted (fun a b => String.ltb a b = true) l2 ->
  (forall x, In x l1 <-> In x l2) -> l1 = l2.
Proof.
  intro H1. revert l2.
  induction H1 as [|x r Hr IH Hx]; intros l2 H2 Hin.
  - destruct l2 as [|y r2]; [reflexivity|].
    exfalso. apply (Hin y). left. reflexivity.
  - destruct H2 as [|y r2 Hr2 Hy].
    + exfalso. apply (Hin x). left. reflexivity.
    + rewrite Forall_forall in Hx, Hy.
      assert (x = y).
      { destruct (proj1 (Hin x) (or_introl eq_refl)) as [E|Hxr2]; [auto|].
        destruct (proj2 (Hin y) (or_introl eq_refl)) as [E|Hyr]; [auto|].
        pose proof (ltb_trans _ _ _ (Hx _ Hyr) (Hy _ Hxr2)) as T.
        rewrite ltb_irrefl in T. discriminate. }
      subst y. f_equal. apply IH; [assumption|].
      intro z. split; intro Hz.
      * destruct (proj1 (Hin z) (or_intror Hz)) as [E|Hz2]; [|assumption].
        subst z. pose proof (Hx _ Hz) as T. rewrite ltb_irrefl in T. discriminate.
      * destruct (proj2 (Hin z) (or_intror Hz)) as [E|Hz2]; [|assumption].
        subst z. pose proof (Hy _ Hz) as T. rewrite ltb_irrefl in T. discriminate.
Qed.

Lemma StronglySorted_filter {A : Type} (R : A -> A -> Prop) (p : A -> bool)
    (l : list A) :
  StronglySorted R l -> StronglySorted R (filter p l).
Proof.
  induction 1 as [|x r Hr IH Hx]; simpl; [constructor|].
  destruct (p x); [|assumption].
  constructor; [assumption|].
  rewrite Forall_forall in *. intros y Hy. apply filter_In in Hy. apply Hx, Hy.
Qed.

Lemma sample_names_of_In (matching : list match_entry) (s : string) :
  In s (sample_names_of matching) <-> exists r, In r matching /\ sample_name r = s.
Proof.
  unfold sample_names_of, sorted_str.
  rewrite stable_sort_In, (unique_In String.eqb String.eqb_eq), in_map_iff.
  split; intros (r & H1 & H2); exists r; auto.
Qed.

Lemma sample_names_of_NoDup (matching : list match_entry) :
  NoDup (sample_names_of matching).
Proof.
  unfold sample_names_of, sorted_str.
  eapply Permutation_NoDup; [symmetry; apply stable_sort_perm|].
  apply (unique_NoDup String.eqb String.eqb_eq).
Qed.

(** The sample names of a sub-table are those of the table that still have
    a row, in the same order. *)
Lemma sample_names_of_filter (p : match_entry -> bool) (matching : list match_entry) :
  sample_names_of (filter p matching)
  = filter (fun s => existsb (is_sample s) (filter p matching))
           (sample_names_of matching).
Proof.
  apply strict_sorted_ext.
  - apply sorted_str_strict, (unique_NoDup String.eqb String.eqb_eq).
  - apply StronglySorted_filter, sorted_str_strict,
      (unique_NoDup String.eqb String.eqb_eq).
  - intro s. rewrite filter_In, !sample_names_of_In, existsb_exists.
    split.
    + intros (r & Hr & E). pose proof Hr as Hr'. apply filter_In in Hr'.
      split; [exists r; tauto|]. exists r. split; [assumption|].
      unfold is_sample. apply String.eqb_eq. assumption.
    + intros [_ (r & Hr & E)]. exists r. split; [assumption|].
      unfold is_sample in E. apply String.eqb_eq in E. assumption.
Qed.

Lemma flat_map_filter_nil {A B : Type} (f : A -> list B) (p : A -> bool)
    (l : list A) :
  (forall x, In x l -> p x = false -> f x = []) ->
  flat_map f (filter p l) = flat_map f l.
Proof.
  induction l as [|x r IH]; simpl; intro H; [reflexivity|].
  destruct (p x) eqn:E; simpl.
  - rewrite IH; auto.
  - rewrite (H x (or_introl eq_refl) E). simpl. apply IH. auto.
Qed.

Lemma existsb_false_filter_nil {A : Type} (p : A -> bool) (l : list A) :
  existsb p l = false -> filter p l = [].
Proof.
  induction l as [|x r IH]; simpl; [reflexivity|].
  destruct (p x); simpl; [discriminate|assumption].
Qed.

(* ------------------------------------------------------------------ *)
(** ** Filters *)
(* ------------------------------------------------------------------ *)

Lemma filter_absorb {A : Type} (p q : A -> bool) (l : list A) :
  (forall x, p x = true -> q x = true) ->
  filter p (filter q l) = filter p l.
Proof.
  intro H. induction l as [|x r IH]; simpl; [reflexivity|].
  destruct (q x) eqn:Q; simpl; destruct (p x) eqn:P; try congruence.
  rewrite (H x P) in Q. discriminate.
Qed.

Lemma filter_comm {A : Type} (p q : A -> bool) (l : list A) :
  filter p (filter q l) = filter q (filter p l).
Proof.
  induction l as [|x r IH]; simpl; [reflexivity|].
  destruct (q x) eqn:Q, (p x) eqn:P; simpl; rewrite ?Q, ?P; congruence.
Qed.

Lemma sort_for_output_In (rows : list match_entry) (r : match_entry) :
  In r (sort_for_output rows) <-> In r rows.
Proof. apply stable_sort_In. Qed.

Lemma sort_for_output_perm (rows : list match_entry) :
  Permutation (sort_for_output rows) rows.
Proof. apply stable_sort_perm. Qed.

(* ------------------------------------------------------------------ *)
(** ** Re-application of the IoU threshold *)
(* ------------------------------------------------------------------ *)

Lemma has_confusion_eq (c : confusion_t) (r : match_entry) :
  has_confusion c r = true <-> confusion r = c.
Proof.
  unfold has_confusion. destruct (confusion r), c; simpl; split; congruence.
Qed.

Lemma iou_sample_In thr so matching s r :
  In r (Threshold.iou_sample thr so matching s) ->
  let t := Threshold.iou_tables_of thr (filter (is_sample s) matching) in
  In r (Threshold.iou_tp_keep t) \/ In r (Threshold.iou_fp_keep t)
  \/ In r (Threshold.iou_fp_update t) \/ In r (Threshold.iou_fn_keep t)
  \/ In r (Threshold.iou_fn_update t).
Proof.
  unfold Threshold.iou_sample. cbv zeta. intro H.
  destruct so; [apply (proj1 (sort_for_output_In _ _)) in H|];
    rewrite !in_app_iff in H; tauto.
Qed.

Lemma iou_tables_of_drop_nan_tp thr (sm : list match_entry) :
  Threshold.iou_tables_of thr (filter (fun r => negb (nan_tp r)) sm)
  = Threshold.iou_tables_of thr sm.
Proof.
  unfold Threshold.iou_tables_of.
  set (q := fun r => negb (nan_tp r)).
  assert (Hfp : filter (has_confusion fp) (filter q sm) = filter (has_confusion fp) sm).
  { apply filter_absorb. intros x H. unfold q, nan_tp.
    apply has_confusion_eq in H. unfold has_confusion. rewrite H. reflexivity. }
  assert (Hfn : filter (has_confusion fn) (filter q sm) = filter (has_confusion fn) sm).
  { apply filter_absorb. intros x H. unfold q, nan_tp.
    apply has_confusion_eq in H. unfold has_confusion. rewrite H. reflexivity. }
  assert (Hkeep : filter (fun r => (match_value r >=? thr)%F)
                    (filter (has_confusion tp) (filter q sm))
                  = filter (fun r => (match_value r >=? thr)%F)
                      (filter (has_confusion tp) sm)).
  { rewrite (filter_comm (has_confusion tp) q). apply filter_absorb.
    intros x H. unfold q, nan_tp. apply fge_not_nan in H.
    destruct (match_value x); simpl; try (rewrite andb_false_r; reflexivity).
    destruct H as [H _]. congruence. }
  assert (Hcheck : filter (fun r => (match_value r <? thr)%F)
                     (filter (has_confusion tp) (filter q sm))
                   = filter (fun r => (match_value r <? thr)%F)
                       (filter (has_confusion tp) sm)).
  { rewrite (filter_comm (has_confusion tp) q). apply filter_absorb.
    intros x H. unfold q, nan_tp.
    destruct (match_value x); simpl; try (rewrite andb_false_r; reflexivity).
    simpl in H. discriminate. }
  rewrite Hfp, Hfn, Hkeep, Hcheck. reflexivity.
Qed.

Lemma iou_sample_drop_nan_tp thr so matching s :
  Threshold.iou_sample thr so (filter (fun r => negb (nan_tp r)) matching) s
  = Threshold.iou_sample thr so matching s.
Proof.
  unfold Threshold.iou_sample.
  rewrite (filter_comm (is_sample s)), iou_tables_of_drop_nan_tp. reflexivity.
Qed.

(** C10 -- A true positive row whose match value is nan is left out by
    [apply_iou_threshold]: it is not a row of the output, the output is the
    one the table without such rows gives, and a table made of one such row
    gives the empty table (no fn or fp row replaces it). *)
Theorem apply_iou_threshold_omits_nan_tp
    (matching : list match_entry) (iou_threshold : pyfloat) (sort_output : bool) :
  (forall r, In r matching -> nan_tp r = true ->
     ~ In r (Threshold.apply_iou_threshold matching iou_threshold sort_output))
  /\ Threshold.apply_iou_threshold matching iou_threshold sort_output
     = Threshold.apply_iou_threshold
         (filter (fun r => negb (nan_tp r)) matching) iou_threshold sort_output
  /\ (forall r, nan_tp r = true ->
        Threshold.apply_iou_threshold [r] iou_threshold sort_output = []).
Proof.
  assert (Heq : forall m,
    Threshold.apply_iou_threshold m iou_threshold sort_output
    = Threshold.apply_iou_threshold
        (filter (fun r => negb (nan_tp r)) m) iou_threshold sort_output).
  { intro m. unfold Threshold.apply_iou_threshold.
    rewrite sample_names_of_filter.
    rewrite flat_map_filter_nil.
    - apply flat_map_ext. intro s. symmetry. apply iou_sample_drop_nan_tp.
    - intros s _ Hs. rewrite iou_sample_drop_nan_tp.
      rewrite <- (iou_sample_drop_nan_tp iou_threshold sort_output m s).
      unfold Threshold.iou_sample.
      rewrite (existsb_false_filter_nil _ _ Hs).
      destruct sort_output; reflexivity. }
  split; [|split].
  - intros r _ Hnan Hin.
    unfold Threshold.apply_iou_threshold in Hin.
    apply in_flat_map in Hin. destruct Hin as (s & _ & Hin).
    apply iou_sample_In in Hin. unfold nan_tp in Hnan.
    apply andb_true_iff in Hnan. destruct Hnan as [Htp Hnan].
    apply has_confusion_eq in Htp.
    unfold Threshold.iou_tables_of in Hin. simpl in Hin.
    destruct Hin as [H|[H|[H|[H|H]]]].
    + apply filter_In in H. destruct H as [_ H].
      destruct (match_value r); try discriminate.
      rewrite nan_fge in H. discriminate.
    + apply filter_In in H. destruct H as [_ H].
      apply has_confusion_eq in H. congruence.
    + apply in_map_iff in H. destruct H as (x & <- & _). discriminate.
    + apply filter_In in H. destruct H as [_ H].
      apply has_confusion_eq in H. congruence.
    + apply in_map_iff in H. destruct H as (x & <- & _). discriminate.
  - apply Heq.
  - intros r Hnan. rewrite Heq. simpl. rewrite Hnan. reflexivity.
Qed.

(* ------------------------------------------------------------------ *)
(** ** Counting the rows of a key *)
(* ------------------------------------------------------------------ *)

Lemma filter_map_length {A B : Type} (f : A -> B) (p : B -> bool) (l : list A) :
  List.length (filter p (map f l)) = List.length (filter (fun x => p (f x)) l).
Proof.
  induction l as [|x r IH]; simpl; [reflexivity|].
  destruct (p (f x)); simpl; congruence.
Qed.

Section DedupCount.
Context {A K : Type}.
Variable eqb : K -> K -> bool.
Hypothesis eqb_eq : forall a b, eqb a b = true <-> a = b.
Variable key : A -> K.

(** After [drop_duplicates] a key that occurs in the table has exactly one
    row, any other key none. *)
Lemma drop_duplicates_count (l : list A) (k : K) :
  let n := List.length (filter (fun y => eqb (key y) k) (drop_duplicates eqb key l)) in
  (n = 1%nat <-> In k (map key l)) /\ (n = 0%nat <-> ~ In k (map key l)).
Proof.
  cbv zeta.
  rewrite (@NoDup_keys_count _ _ eqb eqb_eq key _ k
             (@drop_duplicates_NoDup _ _ eqb eqb_eq key l)).
  destruct (mem eqb k (map key (drop_duplicates eqb key l))) eqn:E.
  - apply (proj1 (@mem_In _ eqb eqb_eq _ _)) in E.
    apply (proj1 (@drop_duplicates_keys _ _ eqb eqb_eq key l k)) in E.
    split; split; auto; try discriminate. intro H. contradiction.
  - apply (proj1 (@mem_false _ eqb eqb_eq _ _)) in E.
    rewrite (@drop_duplicates_keys _ _ eqb eqb_eq key l k) in E.
    split; split; auto; try discriminate. intro H. contradiction.
Qed.

End DedupCount.

Lemma as_new_fn_fields (r : match_entry) :
  sample_name (as_new_fn r) = sample_name r
  /\ annotation_index (as_new_fn r) = annotation_index r
  /\ detection_index (as_new_fn r) = None
  /\ confusion (as_new_fn r) = fn
  /\ class_id (as_new_fn r) = class_id r
  /\ match_value (as_new_fn r) = NaN
  /\ confidence (as_new_fn r) = NaN.
Proof. repeat split. Qed.

Lemma as_new_fp_fields (r : match_entry) :
  sample_name (as_new_fp r) = sample_name r
  /\ annotation_index (as_new_fp r) = None
  /\ detection_index (as_new_fp r) = detection_index r
  /\ confusion (as_new_fp r) = fp
  /\ class_id (as_new_fp r) = class_id r
  /\ match_value (as_new_fp r) = NaN
  /\ confidence (as_new_fp r) = confidence r.
Proof. repeat split. Qed.

(** The new false negatives made from the rows [src]: one per annotation
    index of [src]. *)
Lemma new_fn_count (src : list match_entry) (a : option string) :
  let n := count_annotation a
             (map as_new_fn (drop_duplicates opt_eqb annotation_index src)) in
  (n = 1%nat <-> In a (map annotation_index src))
  /\ (n = 0%nat <-> ~ In a (map annotation_index src)).
Proof.
  unfold count_annotation. rewrite filter_map_length. simpl.
  apply (@drop_duplicates_count _ _ opt_eqb opt_eqb_eq annotation_index src a).
Qed.

Lemma new_fp_count (src : list match_entry) (d : option string) :
  let n := count_detection d
             (map as_new_fp (drop_duplicates opt_eqb detection_index src)) in
  (n = 1%nat <-> In d (map detection_index src))
  /\ (n = 0%nat <-> ~ In d (map detection_index src)).
Proof.
  unfold count_detection. rewrite filter_map_length. simpl.
  apply (@drop_duplicates_count _ _ opt_eqb opt_eqb_eq detection_index src d).
Qed.

(* ------------------------------------------------------------------ *)
(** ** Splitting a table by sample *)
(* ------------------------------------------------------------------ *)

Lemma Permutation_flat_map_ext {A B : Type} (f g : A -> list B) (l : list A) :
  (forall x, In x l -> Permutation (f x) (g x)) ->
  Permutation (flat_map f l) (flat_map g l).
Proof.
  induction l as [|x r IH]; simpl; intro H; [reflexivity|].
  apply Permutation_app; auto.
Qed.

Lemma Permutation_filter_compat {A : Type} (p : A -> bool) (l l' : list A) :
  Permutation l l' -> Permutation (filter p l) (filter p l').
Proof.
  induction 1 as [|x l l' H IH|x y l|l l' l'' H1 IH1 H2 IH2]; simpl.
  - reflexivity.
  - destruct (p x); [apply perm_skip|]; assumption.
  - destruct (p x), (p y); try reflexivity. apply perm_swap.
  - etransitivity; eassumption.
Qed.

Lemma filter_flat_map {Key Row : Type} (keep : Row -> bool)
    (rows_of : Key -> list Row) (keys : list Key) :
  filter keep (flat_map rows_of keys)
  = flat_map (fun k => filter keep (rows_of k)) keys.
Proof.
  induction keys as [|k ks IH]; simpl; [reflexivity|].
  rewrite filter_app, IH. reflexivity.
Qed.

Lemma flat_map_ext_In {A B : Type} (f g : A -> list B) (l : list A) :
  (forall x, In x l -> f x = g x) -> flat_map f l = flat_map g l.
Proof.
  induction l as [|x r IH]; simpl; intro H; [reflexivity|].
  rewrite (H x (or_introl eq_refl)), IH; auto.
Qed.

Lemma flat_map_by_sample_cons (names : list string) (x : match_entry)
    (r : list match_entry) :
  NoDup names -> In (sample_name x) names ->
  Permutation (flat_map (fun s => filter (is_sample s) (x :: r)) names)
              (x :: flat_map (fun s => filter (is_sample s) r) names).
Proof.
  induction names as [|s names IH]; intros Hnd Hin; [contradiction|].
  inversion Hnd as [|? ? Hn Hnd']; subst.
  remember (fun s => filter (is_sample s) (x :: r)) as f eqn:Ef.
  remember (fun s => filter (is_sample s) r) as g eqn:Eg.
  change (Permutation (f s ++ flat_map f names) (x :: g s ++ flat_map g names)).
  destruct (String.eqb_spec (sample_name x) s) as [E|N].
  - assert (Hfs : f s = x :: g s).
    { subst f g. simpl. unfold is_sample at 1.
      rewrite (proj2 (String.eqb_eq _ _) E). reflexivity. }
    assert (Hfg : flat_map f names = flat_map g names).
    { apply flat_map_ext_In. intros s' Hs'. subst f g. simpl.
      unfold is_sample at 1.
      destruct (String.eqb_spec (sample_name x) s') as [E'|N']; [|reflexivity].
      congruence. }
    rewrite Hfs, Hfg. reflexivity.
  - assert (Hfs : f s = g s).
    { subst f g. simpl. unfold is_sample at 1.
      rewrite (proj2 (String.eqb_neq _ _) N). reflexivity. }
    destruct Hin as [E|Hin]; [congruence|].
    rewrite Hfs, (IH Hnd' Hin). symmetry. apply Permutation_middle.
Qed.

(** Visiting the samples one by one visits every row of a table once. *)
Lemma flat_map_by_sample (names : list string) (l : list match_entry) :
  NoDup names -> (forall x, In x l -> In (sample_name x) names) ->
  Permutation (flat_map (fun s => filter (is_sample s) l) names) l.
Proof.
  intros Hnd. induction l as [|x r IH]; intro Hin.
  - clear. induction names; simpl; auto.
  - rewrite flat_map_by_sample_cons; [|assumption|apply Hin; left; reflexivity].
    apply perm_skip. apply IH. intros y Hy. apply Hin. right. assumption.
Qed.

Lemma flat_map_by_sample_filter (p : match_entry -> bool) (m : list match_entry) :
  Permutation
    (flat_map (fun s => filter p (filter (is_sample s) m)) (sample_names_of m))
    (filter p m).
Proof.
  erewrite flat_map_ext; [|intro s; apply filter_comm].
  apply flat_map_by_sample; [apply sample_names_of_NoDup|].
  intros x Hx. apply filter_In in Hx. apply sample_names_of_In.
  exists x. tauto.
Qed.

Lemma flat_map_app_perm {A B : Type} (f g : A -> list B) (l : list A) :
  Permutation (flat_map (fun x => f x ++ g x) l) (flat_map f l ++ flat_map g l).
Proof.
  induction l as [|x r IH]; simpl; [reflexivity|].
  rewrite IH, <- !app_assoc. apply Permutation_app_head.
  rewrite !app_assoc. apply Permutation_app_tail. apply Permutation_app_comm.
Qed.

(** The rows a function makes for a sample, picked out of the table made
    for all the samples. *)
Lemma filter_sample_flat_map (F : string -> list match_entry)
    (names : list string) (s : string) :
  NoDup names ->
  (forall s' r, In r (F s') -> sample_name r = s') ->
  filter (is_sample s) (flat_map F names) = if mem String.eqb s names then F s else [].
Proof.
  intros Hnd HF. induction names as [|s' names IH]; simpl; [reflexivity|].
  inversion Hnd as [|? ? Hn Hnd']; subst.
  rewrite filter_app, (IH Hnd').
  destruct (String.eqb_spec s s') as [<-|N]; simpl.
  - apply (proj2 (mem_false String.eqb String.eqb_eq _ _)) in Hn. rewrite Hn, app_nil_r.
    apply forallb_filter_id. apply forallb_forall. intros r Hr.
    unfold is_sample. apply String.eqb_eq. eauto.
  - replace (filter (is_sample s) (F s')) with (@nil match_entry); [reflexivity|].
    symmetry. apply existsb_false_filter_nil.
    destruct (existsb (is_sample s) (F s')) eqn:E; [|reflexivity].
    apply existsb_exists in E. destruct E as (r & Hr & E).
    unfold is_sample in E. apply String.eqb_eq in E.
    rewrite (HF _ _ Hr) in E. congruence.
Qed.

(* ------------------------------------------------------------------ *)
(** ** Re-application of the confidence threshold *)
(* ------------------------------------------------------------------ *)

Lemma conf_fn_update_sample t (m : list match_entry) (s : string) (r : match_entry) :
  In r (Threshold.conf_fn_update
          (Threshold.conf_tables_of t (filter (is_sample s) m))) ->
  sample_name r = s.
Proof.
  unfold Threshold.conf_tables_of. simpl. intro H.
  apply in_map_iff in H. destruct H as (x & <- & Hx).
  apply (drop_duplicates_In opt_eqb opt_eqb_eq) in Hx.
  repeat (apply filter_In in Hx; destruct Hx as [Hx ?]).
  unfold is_sample in *. apply String.eqb_eq. assumption.
Qed.

Lemma conf_fn_update_of_sample t (m : list match_entry) (s : string) :
  filter (is_sample s) (conf_fn_update_all m t)
  = Threshold.conf_fn_update
      (Threshold.conf_tables_of t (filter (is_sample s) m)).
Proof.
  unfold conf_fn_update_all.
  rewrite filter_sample_flat_map;
    [|apply sample_names_of_NoDup|intros; eapply conf_fn_update_sample; eassumption].
  destruct (mem String.eqb s (sample_names_of m)) eqn:E; [reflexivity|].
  apply (mem_false String.eqb String.eqb_eq) in E.
  replace (filter (is_sample s) m) with (@nil match_entry); [reflexivity|].
  symmetry. apply existsb_false_filter_nil.
  destruct (existsb (is_sample s) m) eqn:X; [|reflexivity].
  apply existsb_exists in X. destruct X as (r & Hr & X).
  exfalso. apply E. apply sample_names_of_In. exists r. split; [assumption|].
  unfold is_sample in X. apply String.eqb_eq. assumption.
Qed.

Lemma filter_andb {A : Type} (p q : A -> bool) (l : list A) :
  filter p (filter q l) = filter (fun x => q x && p x) l.
Proof.
  induction l as [|x r IH]; simpl; [reflexivity|].
  destruct (q x); simpl; [destruct (p x)|]; congruence.
Qed.

Lemma conf_sample_perm t so m s :
  Permutation (Threshold.conf_sample t so m s)
    (filter (fun r => has_confusion tp r && (confidence r >=? t)%F)
            (filter (is_sample s) m)
     ++ filter (fun r => has_confusion fp r && (confidence r >=? t)%F)
               (filter (is_sample s) m)
     ++ filter (has_confusion fn) (filter (is_sample s) m)
     ++ Threshold.conf_fn_update
          (Threshold.conf_tables_of t (filter (is_sample s) m))).
Proof.
  unfold Threshold.conf_sample. cbv zeta.
  etransitivity.
  { destruct so; [apply sort_for_output_perm|reflexivity]. }
  unfold Threshold.conf_tables_of. cbn [Threshold.conf_tp_keep Threshold.conf_fp_keep
    Threshold.conf_fn_keep Threshold.conf_fn_update].
  rewrite !filter_andb. reflexivity.
Qed.

(** C6 -- [apply_confidence_threshold].  The output consists (up to the
    order of the rows) of the tp rows and the fp rows of the input whose
    confidence is >= the threshold, all the fn rows of the input, and the
    new fn rows.  A new fn row has confusion fn, a null detection index and
    nan as match value and confidence.  Within a sample, an annotation index
    has exactly one new fn row when it occurs in a demoted tp row
    (confidence < threshold) and in no kept tp row, and none otherwise.  No
    row stands in for a dropped fp row. *)
Theorem apply_confidence_threshold_rows
    (matching : list match_entry) (confidence_threshold : pyfloat)
    (sort_output : bool) :
  let out :=
    Threshold.apply_confidence_threshold matching confidence_threshold sort_output in
  let new_fn := conf_fn_update_all matching confidence_threshold in
  Permutation out
    (filter (fun r => has_confusion tp r
                      && (confidence r >=? confidence_threshold)%F) matching
     ++ filter (fun r => has_confusion fp r
                         && (confidence r >=? confidence_threshold)%F) matching
     ++ filter (has_confusion fn) matching
     ++ new_fn)
  /\ (forall r, In r new_fn ->
        confusion r = fn /\ detection_index r = None
        /\ match_value r = NaN /\ confidence r = NaN)
  /\ (forall s a,
        let n := count_annotation a (filter (is_sample s) new_fn) in
        let demoted_only :=
          tp_row_with matching s a (fun c => (c <? confidence_threshold)%F)
          /\ ~ tp_row_with matching s a (fun c => (c >=? confidence_threshold)%F) in
        (n = 1%nat <-> demoted_only) /\ (n = 0%nat <-> ~ demoted_only)).
Proof.
  cbv zeta. split; [|split].
  - unfold Threshold.apply_confidence_threshold.
    rewrite (Permutation_flat_map_ext _ _ _
               (fun s _ => conf_sample_perm confidence_threshold sort_output matching s)).
    rewrite flat_map_app_perm. apply Permutation_app;
      [apply flat_map_by_sample_filter|].
    rewrite flat_map_app_perm. apply Permutation_app;
      [apply flat_map_by_sample_filter|].
    rewrite flat_map_app_perm. apply Permutation_app;
      [apply flat_map_by_sample_filter|reflexivity].
  - intros r Hr. unfold conf_fn_update_all in Hr.
    apply in_flat_map in Hr. destruct Hr as (s & _ & Hr).
    unfold Threshold.conf_tables_of in Hr. simpl in Hr.
    apply in_map_iff in Hr. destruct Hr as (x & <- & _). repeat split.
  - intros s a. rewrite conf_fn_update_of_sample.
    unfold Threshold.conf_tables_of.
    cbn [Threshold.conf_fn_update].
    match goal with
    | |- context [map as_new_fn (drop_duplicates opt_eqb annotation_index ?src)] =>
        pose proof (new_fn_count src a) as Hc; cbv zeta in Hc;
        assert (Hsrc : In a (map annotation_index src) <->
                  tp_row_with matching s a (fun c => (c <? confidence_threshold)%F)
                  /\ ~ tp_row_with matching s a
                         (fun c => (c >=? confidence_threshold)%F))
    end.
    { rewrite in_map_iff. unfold tp_row_with. split.
      - intros (r & Ea & Hr).
        apply filter_In in Hr. destruct Hr as [Hr Hnk].
        apply negb_true_iff in Hnk. apply (mem_false opt_eqb opt_eqb_eq) in Hnk.
        rewrite (unique_In opt_eqb opt_eqb_eq) in Hnk.
        apply filter_In in Hr. destruct Hr as [Hr Hlt].
        apply filter_In in Hr. destruct Hr as [Hr Htp].
        apply filter_In in Hr. destruct Hr as [Hr Hs].
        apply has_confusion_eq in Htp. unfold is_sample in Hs.
        apply String.eqb_eq in Hs.
        split; [exists r; auto 6|].
        intros (r' & Hr' & Hs' & Htp' & Hge' & Ea').
        apply Hnk. rewrite Ea, <- Ea'. apply in_map.
        apply filter_In. split; [|assumption].
        apply filter_In. split; [|apply has_confusion_eq; assumption].
        apply filter_In. split; [assumption|].
        unfold is_sample. apply String.eqb_eq. assumption.
      - intros [(r & Hr & Hs & Htp & Hlt & Ea) Hnk].
        exists r. split; [assumption|].
        apply filter_In. split.
        + apply filter_In. split; [|assumption].
          apply filter_In. split; [|apply has_confusion_eq; assumption].
          apply filter_In. split; [assumption|].
          unfold is_sample. apply String.eqb_eq. assumption.
        + apply negb_true_iff. apply (mem_false opt_eqb opt_eqb_eq).
          rewrite (unique_In opt_eqb opt_eqb_eq). intro Hin.
          apply in_map_iff in Hin. destruct Hin as (r' & Ea' & Hr').
          apply filter_In in Hr'. destruct Hr' as [Hr' Hge'].
          apply filter_In in Hr'. destruct Hr' as [Hr' Htp'].
          apply filter_In in Hr'. destruct Hr' as [Hr' Hs'].
          apply has_confusion_eq in Htp'. unfold is_sample in Hs'.
          apply String.eqb_eq in Hs'.
          apply Hnk. exists r'. repeat split; auto. congruence. }
    rewrite <- Hsrc. exact Hc.
Qed.

(* ------------------------------------------------------------------ *)
(** ** Reduction to an exclusive matching *)
(* ------------------------------------------------------------------ *)

Lemma sort_by_confidence_iou_perm (rows : list match_entry) :
  Permutation (sort_by_confidence_iou rows) rows.
Proof. apply stable_sort_perm. Qed.

Lemma sort_by_confidence_iou_In (rows : list match_entry) (r : match_entry) :
  In r (sort_by_confidence_iou rows) <-> In r rows.
Proof. apply stable_sort_In. Qed.

Lemma reduce_sample_perm so m s :
  let t := Reduction.tables_of (filter (is_sample s) m) in
  Permutation (Reduction.reduce_sample so m s)
    (Reduction.tp_keep t ++ Reduction.fp_keep t ++ Reduction.fp_update t
     ++ Reduction.fn_keep t ++ Reduction.fn_update t).
Proof.
  unfold Reduction.reduce_sample. cbv zeta.
  destruct so; [apply sort_for_output_perm|reflexivity].
Qed.

(** The rows picked by [isin(new ids)]: those whose key is a key of the
    sorted true positives but of no survivor. *)
Lemma isin_new_ids (key : match_entry -> option string)
    (sorted keep : list match_entry) (k : option string) :
  In k (map key
          (filter (fun r => mem opt_eqb (key r)
                              (set_diff opt_eqb (unique opt_eqb (map key sorted))
                                 (unique opt_eqb (map key keep))))
                  sorted))
  <-> In k (map key sorted) /\ ~ In k (map key keep).
Proof.
  rewrite in_map_iff. split.
  - intros (r & <- & Hr). apply filter_In in Hr. destruct Hr as [Hr Hm].
    apply (mem_In opt_eqb opt_eqb_eq) in Hm.
    apply (set_diff_In opt_eqb opt_eqb_eq) in Hm.
    rewrite !(unique_In opt_eqb opt_eqb_eq) in Hm. exact Hm.
  - intros [Hs Hk]. apply in_map_iff in Hs. destruct Hs as (r & <- & Hr).
    exists r. split; [reflexivity|]. apply filter_In. split; [assumption|].
    apply (mem_In opt_eqb opt_eqb_eq).
    apply (set_diff_In opt_eqb opt_eqb_eq).
    rewrite !(unique_In opt_eqb opt_eqb_eq). split; [|assumption].
    apply in_map. assumption.
Qed.

(** C3 -- One pass of [reduce_to_exclusive] over a sample [s].  The tp rows
    of the sample are sorted by (confidence descending, match value
    descending), rows that are tied on both columns keeping the order they
    have in the input.  [possible_matches] is the sorted table without the
    rows that have a row of the same detection index in front of them, the
    rows left standing in the order of the sorted table: it keeps, for
    every detection index, the first row of the sorted table with that
    index and no other.  [tp_keep] is [possible_matches] without the rows
    that have a row of the same annotation index in front of them, in the
    order of [possible_matches]: it keeps, for every annotation index, the
    first row of [possible_matches] with that index and no other.  An
    annotation index of the tp rows that
    is the index of no survivor has exactly one row in [fn_update] (any
    other index none), and every row of [fn_update] is an fn row with a null
    detection index and nan as match value and confidence, made of the
    first row of the sorted table with its annotation index; a detection
    index of the tp rows that is the index of no survivor has exactly one
    row in [fp_update] (any other none), and every row of [fp_update] is an
    fp row with a null annotation index, made of the first row of the
    sorted table with its detection index.  The pass yields the survivors, the fp and
    fn rows of the sample and these new rows, and the whole output is made
    of the passes over the sorted sample names. *)
Theorem reduce_to_exclusive_sample
    (matching : list match_entry) (sort_output : bool) (s : string) :
  let tp_rows := filter (has_confusion tp) (filter (is_sample s) matching) in
  let t := Reduction.tables_of (filter (is_sample s) matching) in
  (Permutation (Reduction.tp_sample_sorted t) tp_rows
   /\ StronglySorted
        (in_order (lex (on confidence float_desc) (on match_value float_desc)))
        (Reduction.tp_sample_sorted t)
   /\ forall p : match_entry -> bool,
        (forall a b, p a = true -> p b = true ->
           lex (on confidence float_desc) (on match_value float_desc) a b = false) ->
        filter p (Reduction.tp_sample_sorted t) = filter p tp_rows)
  /\ (Reduction.possible_matches t
      = first_occurrences opt_eqb detection_index (Reduction.tp_sample_sorted t)
      /\ NoDup (map detection_index (Reduction.possible_matches t))
      /\ forall d,
           find (fun r => opt_eqb (detection_index r) d) (Reduction.possible_matches t)
           = find (fun r => opt_eqb (detection_index r) d) (Reduction.tp_sample_sorted t))
  /\ (Reduction.tp_keep t
      = first_occurrences opt_eqb annotation_index (Reduction.possible_matches t)
      /\ NoDup (map annotation_index (Reduction.tp_keep t))
      /\ forall a,
           find (fun r => opt_eqb (annotation_index r) a) (Reduction.tp_keep t)
           = find (fun r => opt_eqb (annotation_index r) a) (Reduction.possible_matches t))
  /\ (forall a,
        let n := count_annotation a (Reduction.fn_update t) in
        let lost := In a (map annotation_index tp_rows)
                    /\ ~ In a (map annotation_index (Reduction.tp_keep t)) in
        (n = 1%nat <-> lost) /\ (n = 0%nat <-> ~ lost))
  /\ (forall r, In r (Reduction.fn_update t) ->
        confusion r = fn /\ detection_index r = None
        /\ match_value r = NaN /\ confidence r = NaN
        /\ exists x,
             find (fun y => opt_eqb (annotation_index y) (annotation_index r))
                  (Reduction.tp_sample_sorted t) = Some x
             /\ r = as_new_fn x)
  /\ (forall d,
        let n := count_detection d (Reduction.fp_update t) in
        let lost := In d (map detection_index tp_rows)
                    /\ ~ In d (map detection_index (Reduction.tp_keep t)) in
        (n = 1%nat <-> lost) /\ (n = 0%nat <-> ~ lost))
  /\ (forall r, In r (Reduction.fp_update t) ->
        confusion r = fp /\ annotation_index r = None
        /\ exists x,
             find (fun y => opt_eqb (detection_index y) (detection_index r))
                  (Reduction.tp_sample_sorted t) = Some x
             /\ r = as_new_fp x)
  /\ Permutation (Reduction.reduce_sample sort_output matching s)
       (Reduction.tp_keep t
        ++ filter (has_confusion fp) (filter (is_sample s) matching)
        ++ Reduction.fp_update t
        ++ filter (has_confusion fn) (filter (is_sample s) matching)
        ++ Reduction.fn_update t)
  /\ Reduction.reduce_to_exclusive matching sort_output
     = flat_map (Reduction.reduce_sample sort_output matching)
                (sorted_str (unique String.eqb (map sample_name matching))).
Proof.
  cbv zeta.
  set (sm := filter (is_sample s) matching).
  assert (Hperm : Permutation (Reduction.tp_sample_sorted (Reduction.tables_of sm))
                              (filter (has_confusion tp) sm))
    by apply sort_by_confidence_iou_perm.
  assert (Hkeys : forall (key : match_entry -> option string) k,
             In k (map key (Reduction.tp_sample_sorted (Reduction.tables_of sm)))
             <-> In k (map key (filter (has_confusion tp) sm))).
  { intros key k. split; apply Permutation_in; apply Permutation_map;
      [|symmetry]; exact Hperm. }
  split; [split; [exact Hperm
                 |split; [apply sort_by_confidence_iou_sorted
                         |intros p Hp; apply stable_sort_stable; exact Hp]]|].
  split; [split; [apply (drop_duplicates_first_occurrences opt_eqb opt_eqb_eq)
                 |split; [apply (drop_duplicates_NoDup opt_eqb opt_eqb_eq)
                         |intro d; apply (drop_duplicates_find opt_eqb opt_eqb_eq)]]|].
  split; [split; [apply (drop_duplicates_first_occurrences opt_eqb opt_eqb_eq)
                 |split; [apply (drop_duplicates_NoDup opt_eqb opt_eqb_eq)
                         |intro a; apply (drop_duplicates_find opt_eqb opt_eqb_eq)]]|].
  split; [|split; [|split; [|split; [|split]]]].
  - intro a. rewrite <- (Hkeys annotation_index a).
    rewrite <- (isin_new_ids annotation_index). apply new_fn_count.
  - intros r Hr. unfold Reduction.tables_of in Hr. simpl in Hr.
    apply in_map_iff in Hr. destruct Hr as (x & <- & Hx).
    do 4 (split; [reflexivity|]). exists x. split; [|reflexivity].
    match type of Hx with
    | In _ (drop_duplicates _ _ (filter (fun r => mem _ _ ?ids) ?l)) =>
        exact (@drop_duplicates_filter_origin _ _ opt_eqb opt_eqb_eq
                 annotation_index (fun k => mem opt_eqb k ids) l x Hx)
    end.
  - intro d. rewrite <- (Hkeys detection_index d).
    rewrite <- (isin_new_ids detection_index). apply new_fp_count.
  - intros r Hr. unfold Reduction.tables_of in Hr. simpl in Hr.
    apply in_map_iff in Hr. destruct Hr as (x & <- & Hx).
    do 2 (split; [reflexivity|]). exists x. split; [|reflexivity].
    match type of Hx with
    | In _ (drop_duplicates _ _ (filter (fun r => mem _ _ ?ids) ?l)) =>
        exact (@drop_duplicates_filter_origin _ _ opt_eqb opt_eqb_eq
                 detection_index (fun k => mem opt_eqb k ids) l x Hx)
    end.
  - apply reduce_sample_perm.
  - reflexivity.
Qed.

(** The test tables: the reductions and the two correlations of the test
    suite give the counts the tests expect. *)
Example reduction_three_true_positives_one_annotation :
  map (fun r => (confusion r, detection_index r))
      (Reduction.reduce_to_exclusive three_true_positives_one_annotation true)
  = [ (tp, Some (idx sample_0001 "11"));
      (fp, Some (idx sample_0001 "10"));
      (fp, Some (idx sample_0001 "12")) ].
Proof. vm_compute. reflexivity. Qed.

Example reduction_three_true_positives_one_detection :
  map (fun r => (confusion r, annotation_index r))
      (Reduction.reduce_to_exclusive three_true_positives_one_detection true)
  = [ (tp, Some (idx sample_0001 "1002"));
      (fn, Some (idx sample_0001 "1001"));
      (fn, Some (idx sample_0001 "1003")) ].
Proof. vm_compute. reflexivity. Qed.

Example correlate_complete_counts :
  option_map (fun m => (count_confusion tp m, count_confusion fp m,
                        count_confusion fn m))
    (match_ test_criterion in_list_order test_sort_values
       match_boxes_complete_impl test_annotation_data test_prediction_data
       (Fin (1 # 2)) None)
  = Some (4, 2, 3)%nat.
Proof. vm_compute. reflexivity. Qed.

Example correlate_exclusive_counts :
  option_map (fun m => (count_confusion tp m, count_confusion fp m,
                        count_confusion fn m))
    (match_ test_criterion in_list_order test_sort_values
       match_boxes_exclusive_impl test_annotation_data test_prediction_data
       (Fin (1 # 2)) None)
  = Some (3, 3, 3)%nat.
Proof. vm_compute. reflexivity. Qed.

(* ------------------------------------------------------------------ *)
(** ** The two matching policies *)
(* ------------------------------------------------------------------ *)

Lemma fold_left_invariant {S X : Type} (P : S -> Prop) (f : S -> X -> S)
    (l : list X) (init : S) :
  (forall st x, In x l -> P st -> P (f st x)) ->
  P init -> P (fold_left f l init).
Proof.
  revert init. induction l as [|x r IH]; simpl; intros init Hstep Hinit; [assumption|].
  apply IH; [intros; apply Hstep; auto|]. apply Hstep; auto.
Qed.

Section PolicyFacts.
Variable criterion : vec2 -> vec2 -> vec2 -> vec2 -> pyfloat.
Variable annotations : list annotation.
Variable detections : list detection.
Variable threshold : pyfloat.

Lemma policy_invariant_init :
  policy_invariant annotations detections threshold ([], [], []).
Proof.
  simpl. split; [intros e []|].
  split; intro x; (split; [intros []|intros (e & [] & _)]).
Qed.

(** Appending a true positive of [ann] and [det] and adding their ids
    keeps the invariant. *)
Lemma policy_invariant_add (st : match_state) (ann row last_ann : annotation)
    (det : detection) (v : pyfloat) :
  policy_invariant annotations detections threshold st ->
  In ann annotations -> In row annotations -> In last_ann annotations ->
  In det detections ->
  (v >=? threshold)%F = true ->
  policy_invariant annotations detections threshold
    (fst (fst st)
       ++ [_build_matching_entry (ann_sample_name last_ann)
             (Some (ann_index ann)) (Some (det_index det)) tp
             (ann_class_id row) v (det_confidence det)],
     set_add String.eqb (ann_index ann) (snd (fst st)),
     set_add String.eqb (det_index det) (snd st)).
Proof.
  destruct st as [[tps ma] md]. simpl.
  intros (H1 & H2 & H3) Ha Hr Hl Hd Hv.
  split; [|split].
  - intros e He. apply in_app_iff in He. destruct He as [He|[<-|[]]]; [auto|].
    split; [|split].
    + exists ann, det. repeat split; auto.
    + exists last_ann. auto.
    + exists row. auto.
  - intro a. rewrite (set_add_In String.eqb String.eqb_eq), H2. split.
    + intros [->|(e & He & E)].
      * eexists. split; [apply in_app_iff; right; left; reflexivity|reflexivity].
      * exists e. split; [apply in_app_iff; left; assumption|assumption].
    + intros (e & He & E). apply in_app_iff in He.
      destruct He as [He|[<-|[]]]; [right; eauto|].
      simpl in E. left. congruence.
  - intro d. rewrite (set_add_In String.eqb String.eqb_eq), H3. split.
    + intros [->|(e & He & E)].
      * eexists. split; [apply in_app_iff; right; left; reflexivity|reflexivity].
      * exists e. split; [apply in_app_iff; left; assumption|assumption].
    + intros (e & He & E). apply in_app_iff in He.
      destruct He as [He|[<-|[]]]; [right; eauto|].
      simpl in E. left. congruence.
Qed.

Lemma complete_inner_invariant (det : detection) (st : match_state)
    (ann : annotation) :
  In det detections -> In ann annotations ->
  policy_invariant annotations detections threshold st ->
  policy_invariant annotations detections threshold
    (complete_inner criterion threshold det st ann).
Proof.
  intros Hd Ha Hinv. unfold complete_inner.
  destruct st as [[tps ma] md].
  destruct (criterion_of criterion det ann >=? threshold)%F eqn:E; [|assumption].
  apply (policy_invariant_add (tps, ma, md) ann ann ann det _ Hinv); auto.
Qed.

Lemma match_boxes_complete_invariant :
  policy_invariant annotations detections threshold
    (_match_boxes_complete criterion annotations detections threshold).
Proof.
  unfold _match_boxes_complete.
  apply fold_left_invariant; [|apply policy_invariant_init].
  intros st det Hd Hst.
  apply fold_left_invariant; [|assumption].
  intros st' ann Ha Hst'. apply complete_inner_invariant; assumption.
Qed.

End PolicyFacts.

(* ------------------------------------------------------------------ *)
(** ** The exclusive policy *)
(* ------------------------------------------------------------------ *)

Lemma fgt_irrefl (c : pyfloat) : (c >? c)%F = false.
Proof.
  unfold fgt. destruct c; simpl; try reflexivity.
  apply Qlt_bool_false_iff. lra.
Qed.

Lemma fge_false_fgt (y c : pyfloat) :
  (y >=? c)%F = false -> (y >? c)%F = false.
Proof.
  unfold fge, fgt. destruct y as [| |y|], c as [| |c|]; simpl; try congruence.
  intro H. apply Qlt_bool_false_iff.
  destruct (Qle_bool c y) eqn:E; [discriminate|].
  apply Qnot_lt_le. intro L. assert (c <= y) by lra.
  apply Qle_bool_iff in H0. congruence.
Qed.

(** A value that does not exceed the old maximum does not reach a new,
    greater one. *)
Lemma below_new_maximum (y v c : pyfloat) :
  (c >? v)%F = true -> (y >? v)%F = false -> (y >=? c)%F = false.
Proof.
  unfold fge, fgt. destruct y as [| |y|], v as [| |v|], c as [| |c|];
    simpl; try congruence.
  rewrite Qlt_bool_iff, Qlt_bool_false_iff. intros H1 H2.
  destruct (Qle_bool c y) eqn:E; [|reflexivity].
  apply Qle_bool_iff in E. lra.
Qed.

Section BestAnnotation.
Variable criterion : vec2 -> vec2 -> vec2 -> vec2 -> pyfloat.
Variable det : detection.

Lemma best_annotation_snoc (l : list annotation) (x : annotation) :
  best_annotation criterion det (l ++ [x])
  = best_step criterion det (best_annotation criterion det l) x.
Proof. unfold best_annotation. rewrite fold_left_app. reflexivity. Qed.

(** The inner loop of the exclusive policy finds the maximum of the
    criterion and the first annotation that attains it. *)
Lemma best_annotation_first_maximum (annotations : list annotation) :
  first_maximum (criterion_of criterion det) annotations
    (fst (best_annotation criterion det annotations))
    (snd (best_annotation criterion det annotations)).
Proof.
  induction annotations as [|x l IH] using rev_ind.
  - simpl. split; [intros ann []|reflexivity].
  - rewrite best_annotation_snoc.
    destruct (best_annotation criterion det l) as [v id].
    simpl in IH. destruct IH as [Hmax Hfirst].
    unfold best_step.
    destruct (criterion_of criterion det x >? v)%F eqn:E; simpl.
    + split.
      * intros ann Hann. apply in_app_iff in Hann.
        destruct Hann as [Hann|[<-|[]]]; [|apply fgt_irrefl].
        apply fge_false_fgt. eapply below_new_maximum; eauto.
      * exists l, x, []. repeat split.
        intros y Hy. eapply below_new_maximum; eauto.
    + split.
      * intros ann Hann. apply in_app_iff in Hann.
        destruct Hann as [Hann|[<-|[]]]; auto.
      * destruct id as [a|]; [|assumption].
        destruct Hfirst as (pre & ann & post & -> & Ha & Hv & Hpre).
        exists pre, ann, (post ++ [x]).
        rewrite <- app_assoc. simpl. repeat split; auto.
Qed.

End BestAnnotation.

Lemma last_annotation_In (annotations : list annotation) :
  annotations <> [] ->
  exists l, last_annotation annotations = Some l /\ In l annotations.
Proof.
  unfold last_annotation.
  induction annotations as [|x r IH]; [congruence|]. intros _.
  destruct r as [|y r'].
  - exists x. simpl. auto.
  - destruct IH as (l & Hl & Hin); [discriminate|].
    exists l. split; [|right; assumption].
    change (last (Some x :: map Some (y :: r')) None) with (last (map Some (y :: r')) None).
    exact Hl.
Qed.

Lemma last_annotation_Some (annotations : list annotation) (l : annotation) :
  last_annotation annotations = Some l -> In l annotations.
Proof.
  destruct annotations as [|x r] eqn:E; [discriminate|].
  intro H. destruct (@last_annotation_In (x :: r)) as (l' & Hl' & Hin);
    [discriminate|]. congruence.
Qed.

Lemma loc_annotation_Some (annotations : list annotation) (label : string)
    (row : annotation) :
  loc_annotation annotations label = Some row ->
  In row annotations /\ ann_index row = label.
Proof.
  unfold loc_annotation. intro H. apply find_some in H.
  destruct H as [H1 H2]. apply String.eqb_eq in H2. auto.
Qed.

Lemma loc_annotation_In (annotations : list annotation) (ann : annotation) :
  In ann annotations ->
  exists row, loc_annotation annotations (ann_index ann) = Some row.
Proof.
  unfold loc_annotation. intro H.
  destruct (find (fun a => (ann_index a =? ann_index ann)%string) annotations)
    as [row|] eqn:E; [eauto|].
  exfalso. pose proof (find_none _ _ E _ H) as N. simpl in N.
  rewrite String.eqb_refl in N. discriminate.
Qed.

Lemma loc_detection_Some (detections : list detection) (label : string)
    (row : detection) :
  loc_detection detections label = Some row ->
  In row detections /\ det_index row = label.
Proof.
  unfold loc_detection. intro H. apply find_some in H.
  destruct H as [H1 H2]. apply String.eqb_eq in H2. auto.
Qed.

Lemma loc_detection_In (detections : list detection) (label : string) :
  In label (map det_index detections) ->
  exists row, loc_detection detections label = Some row.
Proof.
  unfold loc_detection. intro H. apply in_map_iff in H.
  destruct H as (d & <- & Hd).
  destruct (find (fun a => (det_index a =? det_index d)%string) detections)
    as [row|] eqn:E; [eauto|].
  exfalso. pose proof (find_none _ _ E _ Hd) as N. simpl in N.
  rewrite String.eqb_refl in N. discriminate.
Qed.

Section ExclusiveFacts.
Variable criterion : vec2 -> vec2 -> vec2 -> vec2 -> pyfloat.
Variable sort_values : list detection -> list detection.
Hypothesis sort_values_perm : forall dets, Permutation (sort_values dets) dets.
Variable annotations : list annotation.
Variable detections : list detection.
Variable threshold : pyfloat.

(** One pass of the outer loop, case by case. *)
Lemma exclusive_step_cases (st : match_state) (det : detection) :
  let v := fst (best_annotation criterion det annotations) in
  let id := snd (best_annotation criterion det annotations) in
  let '(tp_matching, matched_annotation_ids, matched_detection_ids) := st in
  ((v >=? threshold)%F = false ->
     exclusive_step criterion annotations threshold (Some st) det = Some st)
  /\ ((v >=? threshold)%F = true -> id = None ->
        exclusive_step criterion annotations threshold (Some st) det = None)
  /\ (forall a, (v >=? threshold)%F = true -> id = Some a ->
        In a matched_annotation_ids ->
        exclusive_step criterion annotations threshold (Some st) det = Some st)
  /\ (forall a, (v >=? threshold)%F = true -> id = Some a ->
        ~ In a matched_annotation_ids ->
        exists ann row last_ann,
          In ann annotations /\ ann_index ann = a
          /\ criterion_of criterion det ann = v
          /\ In row annotations /\ In last_ann annotations
          /\ exclusive_step criterion annotations threshold (Some st) det
             = Some (tp_matching
                       ++ [_build_matching_entry (ann_sample_name last_ann)
                             (Some a) (Some (det_index det)) tp
                             (ann_class_id row) v (det_confidence det)],
                     set_add String.eqb a matched_annotation_ids,
                     set_add String.eqb (det_index det) matched_detection_ids)).
Proof.
  cbv zeta. destruct st as [[tps ma] md].
  pose proof (best_annotation_first_maximum criterion det annotations) as [_ Hfirst].
  unfold exclusive_step.
  destruct (best_annotation criterion det annotations) as [v id]. simpl in *.
  split; [|split; [|split]].
  - intros ->. reflexivity.
  - intros -> ->. reflexivity.
  - intros a -> -> Hin.
    apply (mem_In String.eqb String.eqb_eq) in Hin. rewrite Hin. reflexivity.
  - intros a -> -> Hnin.
    apply (mem_false String.eqb String.eqb_eq) in Hnin. rewrite Hnin. simpl.
    destruct Hfirst as (pre & ann & post & E & Ha & Hv & _).
    assert (Hann : In ann annotations)
      by (rewrite E; apply in_app_iff; right; left; reflexivity).
    destruct (@last_annotation_In annotations) as (l & Hl & Hlin).
    { rewrite E. destruct pre; discriminate. }
    destruct (loc_annotation_In _ _ Hann) as (row & Hrow).
    rewrite Ha in Hrow. rewrite Hl, Hrow.
    apply loc_annotation_Some in Hrow. destruct Hrow as [Hrin _].
    exists ann, row, l. repeat split; auto.
Qed.

Lemma exclusive_step_invariant (st st' : match_state) (det : detection) :
  In det detections ->
  policy_invariant annotations detections threshold st ->
  exclusive_step criterion annotations threshold (Some st) det = Some st' ->
  policy_invariant annotations detections threshold st'.
Proof.
  intros Hd Hinv Hstep.
  pose proof (exclusive_step_cases st det) as Hc. cbv zeta in Hc.
  destruct st as [[tps ma] md].
  destruct Hc as (C1 & C2 & C3 & C4).
  destruct (fst (best_annotation criterion det annotations) >=? threshold)%F eqn:Ev.
  - destruct (snd (best_annotation criterion det annotations)) as [a|] eqn:Eid.
    + destruct (in_dec string_dec a ma) as [Hin|Hnin].
      * rewrite (C3 a eq_refl eq_refl Hin) in Hstep. congruence.
      * destruct (C4 a eq_refl eq_refl Hnin)
          as (ann & row & l & Hann & Ha & Hv & Hrow & Hl & E).
        rewrite E in Hstep. injection Hstep as <-. subst a.
        apply (@policy_invariant_add annotations detections threshold
                 (tps, ma, md) ann row l det _ Hinv); auto.
    + rewrite (C2 eq_refl eq_refl) in Hstep. discriminate.
  - rewrite (C1 eq_refl) in Hstep. congruence.
Qed.

Lemma exclusive_step_None (det : detection) :
  exclusive_step criterion annotations threshold None det = None.
Proof. reflexivity. Qed.

Lemma exclusive_fold_None (l : list detection) :
  fold_left (exclusive_step criterion annotations threshold) l None = None.
Proof. induction l; simpl; auto. Qed.

Lemma exclusive_fold_invariant (l : list detection) (st st' : match_state) :
  incl l detections ->
  policy_invariant annotations detections threshold st ->
  fold_left (exclusive_step criterion annotations threshold) l (Some st) = Some st' ->
  policy_invariant annotations detections threshold st'.
Proof.
  revert st. induction l as [|d r IH]; intros st Hincl Hinv H; cbn [fold_left] in H.
  - congruence.
  - destruct (exclusive_step criterion annotations threshold (Some st) d)
      as [st1|] eqn:E.
    + apply (IH st1).
      * intros x Hx. apply Hincl. right. assumption.
      * eapply exclusive_step_invariant; eauto. apply Hincl. left. reflexivity.
      * exact H.
    + rewrite exclusive_fold_None in H. discriminate.
Qed.

Lemma match_boxes_exclusive_invariant (st : match_state) :
  _match_boxes_exclusive criterion sort_values annotations detections threshold
  = Some st ->
  policy_invariant annotations detections threshold st.
Proof.
  unfold _match_boxes_exclusive.
  apply exclusive_fold_invariant; [|apply policy_invariant_init].
  intros x Hx. exact (Permutation_in x (sort_values_perm detections) Hx).
Qed.

(** With a threshold other than -inf no pass raises. *)
Lemma exclusive_step_total (st : match_state) (det : detection) :
  threshold <> NInf ->
  exists st', exclusive_step criterion annotations threshold (Some st) det = Some st'.
Proof.
  intro Hthr.
  pose proof (exclusive_step_cases st det) as Hc. cbv zeta in Hc.
  pose proof (best_annotation_first_maximum criterion det annotations) as [_ Hfirst].
  destruct st as [[tps ma] md].
  destruct Hc as (C1 & C2 & C3 & C4).
  destruct (fst (best_annotation criterion det annotations) >=? threshold)%F eqn:Ev.
  - destruct (snd (best_annotation criterion det annotations)) as [a|] eqn:Eid.
    + destruct (in_dec string_dec a ma) as [Hin|Hnin].
      * rewrite (C3 a eq_refl eq_refl Hin). eauto.
      * destruct (C4 a eq_refl eq_refl Hnin) as (ann & row & l & _ & _ & _ & _ & _ & E).
        rewrite E. eauto.
    + exfalso. rewrite Hfirst in Ev. unfold fge in Ev.
      destruct threshold; simpl in Ev; congruence.
  - rewrite (C1 eq_refl). eauto.
Qed.

Lemma exclusive_fold_total (l : list detection) (st : match_state) :
  threshold <> NInf ->
  exists st',
    fold_left (exclusive_step criterion annotations threshold) l (Some st) = Some st'.
Proof.
  intro Hthr. revert st. induction l as [|d r IH]; intro st; cbn [fold_left]; [eauto|].
  destruct (exclusive_step_total st d Hthr) as (st1 & ->). apply IH.
Qed.

End ExclusiveFacts.

(* ------------------------------------------------------------------ *)
(** ** The rows of one (sample, class) pair *)
(* ------------------------------------------------------------------ *)

Lemma NoDup_map_Some {A : Type} (l : list A) :
  NoDup l -> NoDup (map Some l).
Proof.
  induction 1 as [|x r Hn Hr IH]; simpl; constructor; [|assumption].
  rewrite in_map_iff. intros (y & E & Hy). congruence.
Qed.

Section PartitionFacts.
Variable criterion : vec2 -> vec2 -> vec2 -> vec2 -> pyfloat.
Variable set_iter : list string -> list string.
Hypothesis set_iter_perm : forall s, Permutation (set_iter s) s.
Variable sort_values : list detection -> list detection.
Hypothesis sort_values_perm : forall dets, Permutation (sort_values dets) dets.

Lemma set_iter_In (s : list string) (x : string) :
  In x (set_iter s) <-> In x s.
Proof.
  split; apply Permutation_in; [|symmetry]; apply set_iter_perm.
Qed.

Lemma set_iter_NoDup (s : list string) : NoDup s -> NoDup (set_iter s).
Proof.
  apply Permutation_NoDup. symmetry. apply set_iter_perm.
Qed.

Lemma match_boxes_invariant impl annotations detections threshold st :
  match_boxes criterion sort_values impl annotations detections threshold = Some st ->
  policy_invariant annotations detections threshold st.
Proof.
  destruct impl; simpl.
  - intro H. injection H as <-. apply match_boxes_complete_invariant.
  - apply match_boxes_exclusive_invariant. exact sort_values_perm.
Qed.

Lemma fp_entries_spec (s c : string) (dets : list detection)
    (ids : list string) (fps : list match_entry) :
  fp_entries s c dets ids = Some fps ->
  map detection_index fps = map Some ids
  /\ forall e, In e fps ->
       sample_name e = s /\ class_id e = c /\ confusion e = fp
       /\ annotation_index e = None /\ match_value e = NaN
       /\ exists det, In det dets /\ detection_index e = Some (det_index det)
                      /\ confidence e = det_confidence det.
Proof.
  revert fps. induction ids as [|id r IH]; intros fps H; simpl in H.
  - injection H as <-. split; [reflexivity|intros e []].
  - destruct (loc_detection dets id) as [row|] eqn:Er; [|discriminate].
    destruct (fp_entries s c dets r) as [es|] eqn:Ees; [|discriminate].
    injection H as <-. destruct (IH es eq_refl) as [IH1 IH2].
    apply loc_detection_Some in Er. destruct Er as [Hrin Hrid].
    split; [simpl; rewrite IH1; reflexivity|].
    intros e [<-|He]; [|auto].
    simpl. repeat split. exists row. subst id. auto.
Qed.

Lemma fn_entries_spec (s c : string) (ids : list string) :
  map annotation_index (fn_entries s c ids) = map Some ids
  /\ forall e, In e (fn_entries s c ids) ->
       sample_name e = s /\ class_id e = c /\ confusion e = fn
       /\ detection_index e = None /\ match_value e = NaN /\ confidence e = NaN
       /\ exists a, annotation_index e = Some a.
Proof.
  unfold fn_entries. split.
  - rewrite map_map. reflexivity.
  - intros e He. apply in_map_iff in He. destruct He as (id & <- & _).
    repeat split. simpl. eauto.
Qed.

(** The rows [match] appends for the pair (s, c): the true positives of
    the policy, one fp row for every detection of the slice that is in no
    true positive, one fn row for every annotation of the slice that is in
    no true positive. *)
Lemma match_partition_spec impl threshold (s c : string)
    (annotations_sample : list annotation) (detections_sample : list detection)
    (rows : list match_entry) :
  (forall a, In a annotations_sample -> ann_sample_name a = s) ->
  match_partition criterion set_iter sort_values impl threshold s c
    annotations_sample detections_sample = Some rows ->
  let annotations_class := _filter_for_class_id_ann annotations_sample c in
  let detections_class := _filter_for_class_id_det detections_sample c in
  exists tps fps fns,
    rows = tps ++ fps ++ fns
    /\ (exists ma md,
          match_boxes criterion sort_values impl annotations_class detections_class threshold
          = Some (tps, ma, md))
    /\ (forall e, In e tps ->
          sample_name e = s /\ class_id e = c
          /\ exists ann det, In ann annotations_class /\ In det detections_class
                             /\ tp_entry_for threshold ann det e)
    /\ (forall e, In e fps ->
          sample_name e = s /\ class_id e = c /\ confusion e = fp
          /\ annotation_index e = None /\ match_value e = NaN
          /\ exists det, In det detections_class
                         /\ detection_index e = Some (det_index det)
                         /\ confidence e = det_confidence det)
    /\ (forall e, In e fns ->
          sample_name e = s /\ class_id e = c /\ confusion e = fn
          /\ detection_index e = None /\ match_value e = NaN
          /\ confidence e = NaN
          /\ exists a, annotation_index e = Some a)
    /\ NoDup (map detection_index fps)
    /\ NoDup (map annotation_index fns)
    /\ (forall d, In (Some d) (map detection_index fps) <->
          In d (map det_index detections_class)
          /\ ~ In (Some d) (map detection_index tps))
    /\ (forall a, In (Some a) (map annotation_index fns) <->
          In a (map ann_index annotations_class)
          /\ ~ In (Some a) (map annotation_index tps)).
Proof.
  intros Hsample H. cbv zeta. unfold match_partition in H.
  set (anns := _filter_for_class_id_ann annotations_sample c) in *.
  set (dets := _filter_for_class_id_det detections_sample c) in *.
  destruct (match_boxes criterion sort_values impl anns dets threshold)
    as [[[tps ma] md]|] eqn:Emb; [|discriminate].
  pose proof (match_boxes_invariant _ _ _ _ Emb) as (Htp & Hma & Hmd).
  match type of H with
  | match fp_entries _ _ _ (set_iter ?ids) with _ => _ end = _ =>
      set (fp_ids := ids) in *
  end.
  destruct (fp_entries s c dets (set_iter fp_ids)) as [fps|] eqn:Efp; [|discriminate].
  injection H as <-.
  match goal with
  | |- context [fn_entries s c (set_iter ?ids)] => set (fn_ids := ids) in *
  end.
  destruct (fp_entries_spec _ _ _ _ Efp) as [Hfpm Hfp].
  destruct (fn_entries_spec s c (set_iter fn_ids)) as [Hfnm Hfn].
  assert (Hcls : forall a, In a anns -> ann_class_id a = c /\ ann_sample_name a = s).
  { intros a Ha. apply filter_In in Ha. destruct Ha as [Ha Hc].
    apply String.eqb_eq in Hc. auto. }
  assert (Hfp_ids : forall d, In d fp_ids <->
            In d (map det_index dets) /\ ~ In d md).
  { intro d. unfold fp_ids.
    rewrite (set_diff_In String.eqb String.eqb_eq),
      !(unique_In String.eqb String.eqb_eq). tauto. }
  assert (Hfn_ids : forall a, In a fn_ids <->
            In a (map ann_index anns) /\ ~ In a ma).
  { intro a. unfold fn_ids.
    rewrite (set_diff_In String.eqb String.eqb_eq),
      !(unique_In String.eqb String.eqb_eq). tauto. }
  assert (Hmd' : forall d, In d md <-> In (Some d) (map detection_index tps)).
  { intro d. rewrite Hmd, in_map_iff. split; intros (e & H1 & H2); exists e; auto. }
  assert (Hma' : forall a, In a ma <-> In (Some a) (map annotation_index tps)).
  { intro a. rewrite Hma, in_map_iff. split; intros (e & H1 & H2); exists e; auto. }
  exists tps, fps, (fn_entries s c (set_iter fn_ids)).
  split; [reflexivity|]. split; [eauto|].
  split; [|split; [|split; [|split; [|split; [|split]]]]].
  - intros e He. destruct (Htp e He) as (Hrow & (a1 & Ha1 & Es) & (a2 & Ha2 & Ec)).
    rewrite Es, Ec. destruct (Hcls _ Ha1) as [_ ->]. destruct (Hcls _ Ha2) as [-> _].
    auto.
  - exact Hfp.
  - exact Hfn.
  - rewrite Hfpm. apply NoDup_map_Some, set_iter_NoDup.
    unfold fp_ids. apply set_diff_NoDup, (unique_NoDup String.eqb String.eqb_eq).
  - rewrite Hfnm. apply NoDup_map_Some, set_iter_NoDup.
    unfold fn_ids. apply set_diff_NoDup, (unique_NoDup String.eqb String.eqb_eq).
  - intro d. rewrite Hfpm, <- Hmd', <- Hfp_ids, <- set_iter_In, in_map_iff.
    split; [intros (x & E & Hx); congruence|intro Hx; eauto].
  - intro a. rewrite Hfnm, <- Hma', <- Hfn_ids, <- set_iter_In, in_map_iff.
    split; [intros (x & E & Hx); congruence|intro Hx; eauto].
Qed.

End PartitionFacts.

(* ------------------------------------------------------------------ *)
(** ** The loops of [match] *)
(* ------------------------------------------------------------------ *)

Lemma NoDup_app_intro {A : Type} (l1 l2 : list A) :
  NoDup l1 -> NoDup l2 -> (forall x, In x l1 -> In x l2 -> False) ->
  NoDup (l1 ++ l2).
Proof.
  induction l1 as [|x r IH]; simpl; intros H1 H2 Hd; [assumption|].
  inversion H1 as [|? ? Hn Hr]; subst. constructor.
  - rewrite in_app_iff. intros [H|H]; [contradiction|]. eapply Hd; eauto.
  - apply IH; auto. intros y Hy1 Hy2. eapply Hd; eauto.
Qed.

Lemma unique_index_inj {A : Type} (index : A -> string) (table : list A)
    (x y : A) :
  unique_index index table -> In x table -> In y table ->
  index x = index y -> x = y.
Proof.
  unfold unique_index. induction table as [|z r IH]; simpl; [tauto|].
  intros Hnd Hx Hy E. inversion Hnd as [|? ? Hn Hr]; subst.
  destruct Hx as [<-|Hx], Hy as [<-|Hy]; auto.
  - exfalso. apply Hn. rewrite E. apply in_map. assumption.
  - exfalso. apply Hn. rewrite <- E. apply in_map. assumption.
Qed.

Section MatchFacts.
Variable criterion : vec2 -> vec2 -> vec2 -> vec2 -> pyfloat.
Variable set_iter : list string -> list string.
Hypothesis set_iter_perm : forall s, Permutation (set_iter s) s.
Variable sort_values : list detection -> list detection.
Hypothesis sort_values_perm : forall dets, Permutation (sort_values dets) dets.
Variable impl : match_boxes_impl.
Variable threshold : pyfloat.
Variable annotation_data : list annotation.
Variable detection_data : list detection.

Lemma match_classes_loop_rows (s : string) (class_id_list : list string)
    (rows : list match_entry) (r : match_entry) :
  match_classes_loop criterion set_iter sort_values impl threshold s
    (_filter_for_sample_name_ann annotation_data s)
    (_filter_for_sample_name_det detection_data s) class_id_list = Some rows ->
  In r rows ->
  exists c, In c class_id_list
            /\ row_of_pair criterion set_iter sort_values impl threshold
                 annotation_data detection_data s c r.
Proof.
  revert rows. induction class_id_list as [|c cs IH]; intros rows H Hr; simpl in H.
  - injection H as <-. contradiction.
  - destruct (match_partition criterion set_iter sort_values impl threshold s c _ _)
      as [rows_c|] eqn:Ec; [|discriminate].
    destruct (match_classes_loop criterion set_iter sort_values impl threshold s _ _ cs)
      as [more|] eqn:Em; [|discriminate].
    injection H as <-. apply in_app_iff in Hr. destruct Hr as [Hr|Hr].
    + exists c. split; [left; reflexivity|]. exists rows_c. auto.
    + destruct (IH more eq_refl Hr) as (c' & Hc' & Hrow).
      exists c'. split; [right; assumption|assumption].
Qed.

Lemma match_samples_loop_rows (class_id_list sample_name_list : list string)
    (rows : list match_entry) (r : match_entry) :
  match_samples_loop criterion set_iter sort_values impl threshold annotation_data
    detection_data class_id_list sample_name_list = Some rows ->
  In r rows ->
  exists s c, In s sample_name_list /\ In c class_id_list
              /\ row_of_pair criterion set_iter sort_values impl threshold
                   annotation_data detection_data s c r.
Proof.
  revert rows. induction sample_name_list as [|s ss IH]; intros rows H Hr; simpl in H.
  - injection H as <-. contradiction.
  - destruct (match_classes_loop criterion set_iter sort_values impl threshold s _ _ class_id_list)
      as [rows_s|] eqn:Es; [|discriminate].
    destruct (match_samples_loop criterion set_iter sort_values impl threshold _ _ _ ss)
      as [more|] eqn:Em; [|discriminate].
    injection H as <-. apply in_app_iff in Hr. destruct Hr as [Hr|Hr].
    + destruct (@match_classes_loop_rows s class_id_list rows_s r Es Hr)
        as (c & Hc & Hrow).
      exists s, c. split; [left; reflexivity|auto].
    + destruct (IH more eq_refl Hr) as (s' & c & Hs' & Hc & Hrow).
      exists s', c. split; [right; assumption|auto].
Qed.

(** What is known of a row appended for the pair (s, c). *)
Lemma row_of_pair_spec (s c : string) (r : match_entry) :
  row_of_pair criterion set_iter sort_values impl threshold annotation_data detection_data s c r ->
  sample_name r = s /\ class_id r = c
  /\ match confusion r with
     | tp =>
         exists ann det,
           In ann annotation_data /\ In det detection_data
           /\ ann_sample_name ann = s /\ ann_class_id ann = c
           /\ det_sample_name det = s /\ det_class_id det = c
           /\ tp_entry_for threshold ann det r
     | fp =>
         annotation_index r = None /\ match_value r = NaN
         /\ exists det,
              In det detection_data
              /\ det_sample_name det = s /\ det_class_id det = c
              /\ detection_index r = Some (det_index det)
              /\ confidence r = det_confidence det
     | fn =>
         detection_index r = None /\ match_value r = NaN /\ confidence r = NaN
         /\ exists ann,
              In ann annotation_data
              /\ ann_sample_name ann = s /\ ann_class_id ann = c
              /\ annotation_index r = Some (ann_index ann)
     end.
Proof.
  intros (rows & Hp & Hr).
  assert (Hs : forall a, In a (_filter_for_sample_name_ann annotation_data s) ->
                         ann_sample_name a = s).
  { intros a Ha. apply filter_In in Ha. apply String.eqb_eq. tauto. }
  destruct (@match_partition_spec criterion set_iter set_iter_perm sort_values sort_values_perm impl threshold
              s c _ _ rows Hs Hp)
    as (tps & fps & fns & -> & _ & Htp & Hfp & Hfn & _ & Hndn & _ & Hfns).
  assert (Hann : forall a, In a (_filter_for_class_id_ann
                                   (_filter_for_sample_name_ann annotation_data s) c) ->
             In a annotation_data /\ ann_sample_name a = s /\ ann_class_id a = c).
  { intros a Ha. apply filter_In in Ha. destruct Ha as [Ha Hc].
    apply filter_In in Ha. destruct Ha as [Ha Hsa].
    apply String.eqb_eq in Hc, Hsa. auto. }
  assert (Hdet : forall d, In d (_filter_for_class_id_det
                                   (_filter_for_sample_name_det detection_data s) c) ->
             In d detection_data /\ det_sample_name d = s /\ det_class_id d = c).
  { intros d Hd. apply filter_In in Hd. destruct Hd as [Hd Hc].
    apply filter_In in Hd. destruct Hd as [Hd Hsd].
    apply String.eqb_eq in Hc, Hsd. auto. }
  rewrite !in_app_iff in Hr. destruct Hr as [Hr|[Hr|Hr]].
  - destruct (Htp r Hr) as (Es & Ec & ann & det & Ha & Hd & Hrow).
    split; [assumption|]. split; [assumption|].
    pose proof Hrow as (-> & _).
    destruct (Hann _ Ha) as (? & ? & ?). destruct (Hdet _ Hd) as (? & ? & ?).
    exists ann, det. auto 10.
  - destruct (Hfp r Hr) as (Es & Ec & -> & Ea & Ev & det & Hd & Ed & Econf).
    split; [assumption|]. split; [assumption|].
    destruct (Hdet _ Hd) as (? & ? & ?).
    split; [assumption|]. split; [assumption|]. exists det. auto.
  - destruct (Hfn r Hr) as (Es & Ec & Ef & Ed & Ev & Econf & a & Ea).
    split; [assumption|]. split; [assumption|]. rewrite Ef.
    split; [assumption|]. split; [assumption|]. split; [assumption|].
    assert (Hin : In (Some a) (map annotation_index fns))
      by (rewrite <- Ea; apply in_map; assumption).
    apply Hfns in Hin. destruct Hin as [Hin _].
    apply in_map_iff in Hin. destruct Hin as (ann & E & Ha).
    destruct (Hann _ Ha) as (? & ? & ?). exists ann.
    rewrite Ea, E. auto.
Qed.

End MatchFacts.

(* ------------------------------------------------------------------ *)
(** ** The match table *)
(* ------------------------------------------------------------------ *)

Section MatchTable.
Variable criterion : vec2 -> vec2 -> vec2 -> vec2 -> pyfloat.
Variable set_iter : list string -> list string.
Hypothesis set_iter_perm : forall s, Permutation (set_iter s) s.
Variable sort_values : list detection -> list detection.
Hypothesis sort_values_perm : forall dets, Permutation (sort_values dets) dets.
Variable impl : match_boxes_impl.
Variable threshold : pyfloat.
Variable annotation_data : list annotation.
Variable detection_data : list detection.
Variable match_classes : option (list string).
Variable matching : list match_entry.
Hypothesis matching_eq :
  match_ criterion set_iter sort_values impl annotation_data detection_data threshold
    match_classes = Some matching.

(** Every row of the table was appended for a pair (s, c) whose [s] is the
    sample name of an annotation. *)
Lemma match_row_origin (r : match_entry) :
  In r matching ->
  exists s c,
    (exists ann, In ann annotation_data /\ ann_sample_name ann = s)
    /\ In c (class_id_list_of annotation_data detection_data match_classes)
    /\ row_of_pair criterion set_iter sort_values impl threshold annotation_data
         detection_data s c r.
Proof.
  intro Hr. pose proof matching_eq as Hm. unfold match_ in Hm.
  destruct (@match_samples_loop_rows criterion set_iter sort_values impl threshold
              annotation_data detection_data _ _ _ _ Hm Hr)
    as (s & c & Hs & Hc & Hrow).
  exists s, c. split; [|auto].
  unfold sorted_str in Hs. apply (proj1 (stable_sort_In _ _ _)) in Hs.
  apply (proj1 (unique_In String.eqb String.eqb_eq _ _)) in Hs.
  apply in_map_iff in Hs. destruct Hs as (ann & E & Ha). eauto.
Qed.

Lemma match_row_shape (r : match_entry) :
  In r matching -> row_shape threshold r.
Proof.
  intro Hr. destruct (match_row_origin r Hr) as (s & c & _ & _ & Hrow).
  apply (row_of_pair_spec set_iter_perm sort_values_perm) in Hrow.
  destruct Hrow as (_ & _ & Hrow). unfold row_shape.
  destruct (confusion r).
  - destruct Hrow as (ann & det & _ & _ & _ & _ & _ & _ & (_ & Ea & Ed & _ & Hv)).
    rewrite Ea, Ed. repeat split; try discriminate; [|assumption].
    apply fge_not_nan in Hv. tauto.
  - destruct Hrow as (Ea & _ & det & _ & _ & _ & Ed & _).
    rewrite Ed. split; [assumption|discriminate].
  - destruct Hrow as (Ed & _ & _ & ann & _ & _ & _ & Ea).
    rewrite Ea. split; [assumption|discriminate].
Qed.

End MatchTable.

(** C4 -- In a match table returned by the correlator (either policy,
    any criterion), a tp row has non-null annotation and detection indices
    and a match value that is a number (not nan) >= the threshold; an fp row
    has a null annotation index and a non-null detection index; an fn row
    has a null detection index and a non-null annotation index. *)
Theorem match_table_row_shape
    (criterion : vec2 -> vec2 -> vec2 -> vec2 -> pyfloat)
    (set_iter : list string -> list string)
    (sort_values : list detection -> list detection)
    (impl : match_boxes_impl) (threshold : pyfloat)
    (annotation_data : list annotation) (detection_data : list detection)
    (match_classes : option (list string)) (matching : list match_entry) :
  (forall s, Permutation (set_iter s) s) ->
  (forall dets, Permutation (sort_values dets) dets) ->
  match_ criterion set_iter sort_values impl annotation_data detection_data threshold
    match_classes = Some matching ->
  forall r, In r matching ->
    match confusion r with
    | tp => annotation_index r <> None /\ detection_index r <> None
            /\ match_value r <> NaN
            /\ (match_value r >=? threshold)%F = true
    | fp => annotation_index r = None /\ detection_index r <> None
    | fn => detection_index r = None /\ annotation_index r <> None
    end.
Proof.
  intros Hperm Hsort Hm r Hr.
  exact (@match_row_shape criterion set_iter Hperm sort_values Hsort impl threshold
           annotation_data detection_data match_classes matching Hm r Hr).
Qed.

(** C9 -- A prediction whose sample name is the sample name of no
    annotation is in no row of the match table: no row has its sample name
    and (the index labels of the predictions being unique) no row has its
    index label as detection index. *)
Theorem match_drops_unannotated_samples
    (criterion : vec2 -> vec2 -> vec2 -> vec2 -> pyfloat)
    (set_iter : list string -> list string)
    (sort_values : list detection -> list detection)
    (impl : match_boxes_impl) (threshold : pyfloat)
    (annotation_data : list annotation) (detection_data : list detection)
    (match_classes : option (list string)) (matching : list match_entry)
    (det : detection) :
  (forall s, Permutation (set_iter s) s) ->
  (forall dets, Permutation (sort_values dets) dets) ->
  match_ criterion set_iter sort_values impl annotation_data detection_data threshold
    match_classes = Some matching ->
  In det detection_data ->
  (forall ann, In ann annotation_data ->
     ann_sample_name ann <> det_sample_name det) ->
  (forall r, In r matching -> sample_name r <> det_sample_name det)
  /\ (unique_index det_index detection_data ->
      forall r, In r matching -> detection_index r <> Some (det_index det)).
Proof.
  intros Hperm Hsort Hm Hdet Hstray.
  assert (Hsample : forall r, In r matching -> sample_name r <> det_sample_name det).
  { intros r Hr. destruct (@match_row_origin criterion set_iter sort_values impl threshold annotation_data
              detection_data match_classes matching Hm r Hr) as (s & c & (ann & Ha & Es) & _ & Hrow).
    apply (row_of_pair_spec Hperm Hsort) in Hrow. destruct Hrow as (E & _).
    rewrite E, <- Es. auto. }
  split; [exact Hsample|].
  intros Huniq r Hr Ed.
  destruct (@match_row_origin criterion set_iter sort_values impl threshold annotation_data
              detection_data match_classes matching Hm r Hr) as (s & c & _ & _ & Hrow).
  apply (row_of_pair_spec Hperm Hsort) in Hrow. destruct Hrow as (Es & _ & Hrow).
  apply (Hsample r Hr). rewrite Es.
  destruct (confusion r).
  - destruct Hrow as (ann & det' & _ & Hd' & _ & _ & Hs' & _ & (_ & _ & Ed' & _)).
    rewrite Ed in Ed'. injection Ed' as Ed'.
    rewrite (@unique_index_inj _ det_index _ det det' Huniq Hdet Hd' Ed').
    symmetry. assumption.
  - destruct Hrow as (_ & _ & det' & Hd' & Hs' & _ & Ed' & _).
    rewrite Ed in Ed'. injection Ed' as Ed'.
    rewrite (@unique_index_inj _ det_index _ det det' Huniq Hdet Hd' Ed').
    symmetry. assumption.
  - destruct Hrow as (Ed' & _). congruence.
Qed.

Lemma in_list_order_perm (s : list string) : Permutation (in_list_order s) s.
Proof. apply Permutation_refl. Qed.

Lemma test_sort_values_perm (dets : list detection) :
  Permutation (test_sort_values dets) dets.
Proof. apply sort_values_ranked_contract. Qed.

Lemma test_matching_eq (impl : match_boxes_impl) (extra : list detection) :
  test_matching impl extra <> [] ->
  match_ test_criterion in_list_order test_sort_values
    impl test_annotation_data (extra ++ test_prediction_data)
    (Fin (1 # 2)) None = Some (test_matching impl extra).
Proof.
  unfold test_matching.
  destruct (match_ _ _ _ impl test_annotation_data _ _ None); congruence.
Qed.

Lemma match_table_row_shape_witness :
  Forall (row_shape (Fin (1 # 2))) (test_matching match_boxes_exclusive_impl [])
  /\ List.length (test_matching match_boxes_exclusive_impl []) = 9%nat.
Proof.
  split; [|vm_compute; reflexivity].
  apply Forall_forall. intros r Hr.
  apply (@match_table_row_shape
           test_criterion in_list_order test_sort_values
           match_boxes_exclusive_impl (Fin (1 # 2))
           test_annotation_data ([] ++ test_prediction_data) None
           (test_matching match_boxes_exclusive_impl [])
           in_list_order_perm test_sort_values_perm).
  - apply test_matching_eq. vm_compute. discriminate.
  - exact Hr.
Defined.

Lemma match_drops_unannotated_samples_witness :
  Forall (fun r => sample_name r <> det_sample_name stray_prediction
                   /\ detection_index r <> Some (det_index stray_prediction))
         (test_matching match_boxes_complete_impl [stray_prediction])
  /\ List.length (test_matching match_boxes_complete_impl [stray_prediction]) = 9%nat.
Proof.
  split; [|vm_compute; reflexivity].
  destruct (@match_drops_unannotated_samples
              test_criterion in_list_order test_sort_values
              match_boxes_complete_impl (Fin (1 # 2))
              test_annotation_data ([stray_prediction] ++ test_prediction_data)
              None (test_matching match_boxes_complete_impl [stray_prediction])
              stray_prediction in_list_order_perm test_sort_values_perm)
    as [H1 H2].
  - apply test_matching_eq. vm_compute. discriminate.
  - left. reflexivity.
  - intros ann Hann. simpl in Hann.
    repeat (destruct Hann as [<-|Hann]; [vm_compute; discriminate|]).
    contradiction.
  - apply Forall_forall. intros r Hr. split; [apply H1; exact Hr|].
    apply H2; [|exact Hr].
    unfold unique_index. vm_compute.
    repeat (constructor; [simpl; intuition discriminate|]). constructor.
Defined.

(* ------------------------------------------------------------------ *)
(** ** The exclusive policy, as a whole *)
(* ------------------------------------------------------------------ *)

Lemma fold_left_prefix_incl {A : Type} (pre post l : list A) (x : A) :
  l = pre ++ x :: post -> incl pre l /\ In x l.
Proof.
  intros ->. split.
  - intros y Hy. apply in_app_iff. left. assumption.
  - apply in_app_iff. right. left. reflexivity.
Qed.




(* ------------------------------------------------------------------ *)
(** ** Exclusivity of the reduced table *)
(* ------------------------------------------------------------------ *)

Lemma Permutation_non_null {A : Type} (l l' : list (option A)) :
  Permutation l l' -> Permutation (non_null l) (non_null l').
Proof.
  induction 1 as [|x l l' H IH|x y l|l l' l'' H1 IH1 H2 IH2]; simpl.
  - reflexivity.
  - destruct x; [apply perm_skip|]; assumption.
  - destruct x, y; try reflexivity. apply perm_swap.
  - etransitivity; eassumption.
Qed.

Lemma keys_NoDup_filter {Row Key : Type} (keep : Row -> bool) (key : Row -> Key)
    (rows : list Row) (Hnd : NoDup (map key rows)) :
  NoDup (map key (filter keep rows)).
Proof.
  induction rows as [|x r IH]; simpl in *; [constructor|].
  inversion Hnd as [|? ? Hn Hr]; subst.
  destruct (keep x); simpl; [constructor|]; auto.
  intro Hin. apply Hn. apply in_map_iff in Hin. destruct Hin as (y & E & Hy).
  apply filter_In in Hy. rewrite <- E. apply in_map. tauto.
Qed.

Lemma drop_duplicates_from_incl {A K : Type} (eqb : K -> K -> bool)
    (key : A -> K) (seen : list K) (l : list A) (y : A) :
  In y (drop_duplicates_from eqb key seen l) -> In y l.
Proof.
  revert seen. induction l as [|z r IH]; intros seen Hy; cbn [drop_duplicates_from] in Hy.
  - assumption.
  - destruct (mem eqb (key z) seen).
    + right. eauto.
    + destruct Hy as [->|Hy]; [left; reflexivity|right; eauto].
Qed.

Lemma NoDup_map_drop_duplicates {A B K : Type} (eqb : K -> K -> bool)
    (key : A -> K) (f : A -> B) (seen : list K) (l : list A) :
  NoDup (map f l) -> NoDup (map f (drop_duplicates_from eqb key seen l)).
Proof.
  revert seen. induction l as [|x r IH]; intros seen H;
    cbn [drop_duplicates_from]; [constructor|].
  cbn [map] in H. inversion H as [|? ? Hn Hr]; subst.
  destruct (mem eqb (key x) seen); [auto|]. cbn [map]. constructor; [|auto].
  intro Hin. apply Hn. apply in_map_iff in Hin. destruct Hin as (y & E & Hy).
  rewrite <- E. apply in_map. eapply drop_duplicates_from_incl. eassumption.
Qed.

(** A key column without duplicate non-null values has at most one row per
    non-null value. *)
Lemma NoDup_non_null_count (key : match_entry -> option string)
    (rows : list match_entry) (k : string) :
  NoDup (non_null (map key rows)) ->
  (List.length (filter (fun r => opt_eqb (key r) (Some k)) rows) <= 1)%nat.
Proof.
  induction rows as [|x r IH]; simpl; intro H; [lia|].
  destruct (key x) as [kx|] eqn:E; simpl in *.
  - inversion H as [|? ? Hn Hr]; subst. specialize (IH Hr).
    destruct (String.eqb_spec kx k) as [->|N]; [|assumption].
    simpl. replace (filter (fun r0 => opt_eqb (key r0) (Some k)) r) with (@nil match_entry);
      [simpl; lia|].
    symmetry. apply existsb_false_filter_nil.
    destruct (existsb (fun r0 => opt_eqb (key r0) (Some k)) r) eqn:X; [|reflexivity].
    apply existsb_exists in X. destruct X as (y & Hy & Ey).
    apply opt_eqb_eq in Ey. exfalso. apply Hn.
    apply non_null_In. rewrite <- Ey. apply in_map. assumption.
  - auto.
Qed.

Lemma non_null_all_None {A B : Type} (f : A -> option B) (l : list A) :
  (forall x, In x l -> f x = None) -> non_null (map f l) = [].
Proof.
  induction l as [|x r IH]; simpl; intro H; [reflexivity|].
  rewrite (H x (or_introl eq_refl)). apply IH. auto.
Qed.

Section ReduceExclusive.
Variable matching : list match_entry.
Hypothesis Hred : reducible matching.
Variable s : string.

Let sm := filter (is_sample s) matching.
Let t := Reduction.tables_of sm.

Lemma tp_sorted_In (r : match_entry) :
  In r (Reduction.tp_sample_sorted t) ->
  In r matching /\ confusion r = tp /\ sample_name r = s.
Proof.
  intro H. apply (proj1 (sort_by_confidence_iou_In _ _)) in H.
  apply filter_In in H. destruct H as [H Hc].
  apply filter_In in H. destruct H as [H Hs].
  apply has_confusion_eq in Hc. apply String.eqb_eq in Hs. auto.
Qed.

Lemma tp_keep_In (r : match_entry) :
  In r (Reduction.tp_keep t) -> In r (Reduction.tp_sample_sorted t).
Proof.
  intro H. apply (drop_duplicates_In opt_eqb opt_eqb_eq) in H.
  apply (drop_duplicates_In opt_eqb opt_eqb_eq) in H. exact H.
Qed.

Lemma fp_update_detection (k : option string) :
  In k (map detection_index (Reduction.fp_update t)) ->
  In k (map detection_index (Reduction.tp_sample_sorted t))
  /\ ~ In k (map detection_index (Reduction.tp_keep t)).
Proof.
  unfold t, Reduction.tables_of. cbn [Reduction.fp_update Reduction.tp_sample_sorted
    Reduction.tp_keep]. rewrite map_map. cbn [as_new_fp detection_index].
  intro H.
  apply (proj1 (drop_duplicates_keys opt_eqb opt_eqb_eq detection_index _ k)) in H.
  apply (proj1 (isin_new_ids detection_index _ _ k)) in H. exact H.
Qed.

Lemma fn_update_annotation (k : option string) :
  In k (map annotation_index (Reduction.fn_update t)) ->
  In k (map annotation_index (Reduction.tp_sample_sorted t))
  /\ ~ In k (map annotation_index (Reduction.tp_keep t)).
Proof.
  unfold t, Reduction.tables_of. cbn [Reduction.fn_update Reduction.tp_sample_sorted
    Reduction.tp_keep]. rewrite map_map. cbn [as_new_fn annotation_index].
  intro H.
  apply (proj1 (drop_duplicates_keys opt_eqb opt_eqb_eq annotation_index _ k)) in H.
  apply (proj1 (isin_new_ids annotation_index _ _ k)) in H. exact H.
Qed.

Lemma tp_keep_detection_NoDup :
  NoDup (map detection_index (Reduction.tp_keep t)).
Proof.
  unfold t, Reduction.tables_of. cbn [Reduction.tp_keep].
  apply NoDup_map_drop_duplicates.
  apply (drop_duplicates_NoDup opt_eqb opt_eqb_eq).
Qed.

Lemma tp_keep_annotation_NoDup :
  NoDup (map annotation_index (Reduction.tp_keep t)).
Proof.
  unfold t, Reduction.tables_of. cbn [Reduction.tp_keep].
  apply (drop_duplicates_NoDup opt_eqb opt_eqb_eq).
Qed.

Lemma fp_update_detection_NoDup :
  NoDup (map detection_index (Reduction.fp_update t)).
Proof.
  unfold t, Reduction.tables_of. cbn [Reduction.fp_update].
  rewrite map_map. cbn [as_new_fp detection_index].
  apply (drop_duplicates_NoDup opt_eqb opt_eqb_eq).
Qed.

Lemma fn_update_annotation_NoDup :
  NoDup (map annotation_index (Reduction.fn_update t)).
Proof.
  unfold t, Reduction.tables_of. cbn [Reduction.fn_update].
  rewrite map_map. cbn [as_new_fn annotation_index].
  apply (drop_duplicates_NoDup opt_eqb opt_eqb_eq).
Qed.

Lemma keep_In (c : confusion_t) (r : match_entry) :
  In r (filter (has_confusion c) sm) -> In r matching /\ confusion r = c.
Proof.
  intro H. apply filter_In in H. destruct H as [H Hc].
  apply filter_In in H. apply has_confusion_eq in Hc. tauto.
Qed.

Lemma keep_NoDup (c : confusion_t) (key : match_entry -> option string) :
  NoDup (map key (filter (has_confusion c) matching)) ->
  NoDup (map key (filter (has_confusion c) sm)).
Proof.
  intro H. unfold sm. rewrite filter_comm. apply keys_NoDup_filter. exact H.
Qed.

(** The detection indices of the rows made for one sample. *)
Lemma reduce_sample_detections (sort_output : bool) :
  NoDup (non_null (map detection_index
                     (Reduction.reduce_sample sort_output matching s))).
Proof.
  destruct Hred as (HA & HC & HB & HD & HE1 & HE2).
  eapply Permutation_NoDup.
  { symmetry. apply Permutation_non_null, Permutation_map, reduce_sample_perm. }
  fold sm. fold t. change (Reduction.fp_keep t) with (filter (has_confusion fp) sm).
  change (Reduction.fn_keep t) with (filter (has_confusion fn) sm).
  rewrite !map_app, !non_null_app.
  rewrite (non_null_all_None detection_index (filter (has_confusion fn) sm)).
  2:{ intros r Hr. apply keep_In in Hr. destruct Hr. auto. }
  rewrite (non_null_all_None detection_index (Reduction.fn_update t)).
  2:{ intros r Hr. unfold t, Reduction.tables_of in Hr. cbn [Reduction.fn_update] in Hr.
      apply in_map_iff in Hr. destruct Hr as (x & <- & _). reflexivity. }
  rewrite !app_nil_r.
  apply NoDup_app_intro; [|apply NoDup_app_intro|].
  - apply non_null_NoDup, tp_keep_detection_NoDup.
  - apply non_null_NoDup, keep_NoDup, HA.
  - apply non_null_NoDup, fp_update_detection_NoDup.
  - intros d H1 H2. apply non_null_In in H1, H2.
    apply fp_update_detection in H2. destruct H2 as [H2 _].
    apply in_map_iff in H1, H2.
    destruct H1 as (r1 & E1 & Hr1). destruct H2 as (r2 & E2 & Hr2).
    apply keep_In in Hr1. apply tp_sorted_In in Hr2.
    destruct Hr1 as [Hm1 Hc1]. destruct Hr2 as (Hm2 & Hc2 & _).
    apply (HB r2 r1 Hm2 Hm1 Hc2 Hc1). congruence.
  - intros d H1 H2. apply non_null_In in H1.
    apply in_app_iff in H2. destruct H2 as [H2|H2]; apply non_null_In in H2.
    + apply in_map_iff in H1, H2.
      destruct H1 as (r1 & E1 & Hr1). destruct H2 as (r2 & E2 & Hr2).
      apply tp_keep_In, tp_sorted_In in Hr1. apply keep_In in Hr2.
      destruct Hr1 as (Hm1 & Hc1 & _). destruct Hr2 as [Hm2 Hc2].
      apply (HB r1 r2 Hm1 Hm2 Hc1 Hc2). congruence.
    + apply fp_update_detection in H2. tauto.
Qed.

(** The annotation indices of the rows made for one sample. *)
Lemma reduce_sample_annotations (sort_output : bool) :
  NoDup (non_null (map annotation_index
                     (Reduction.reduce_sample sort_output matching s))).
Proof.
  destruct Hred as (HA & HC & HB & HD & HE1 & HE2).
  eapply Permutation_NoDup.
  { symmetry. apply Permutation_non_null, Permutation_map, reduce_sample_perm. }
  fold sm. fold t. change (Reduction.fp_keep t) with (filter (has_confusion fp) sm).
  change (Reduction.fn_keep t) with (filter (has_confusion fn) sm).
  rewrite !map_app, !non_null_app.
  rewrite (non_null_all_None annotation_index (filter (has_confusion fp) sm)).
  2:{ intros r Hr. apply keep_In in Hr. destruct Hr. auto. }
  rewrite (non_null_all_None annotation_index (Reduction.fp_update t)).
  2:{ intros r Hr. unfold t, Reduction.tables_of in Hr. cbn [Reduction.fp_update] in Hr.
      apply in_map_iff in Hr. destruct Hr as (x & <- & _). reflexivity. }
  cbn [app].
  apply NoDup_app_intro; [|apply NoDup_app_intro|].
  - apply non_null_NoDup, tp_keep_annotation_NoDup.
  - apply non_null_NoDup, keep_NoDup, HC.
  - apply non_null_NoDup, fn_update_annotation_NoDup.
  - intros a H1 H2. apply non_null_In in H1, H2.
    apply fn_update_annotation in H2. destruct H2 as [H2 _].
    apply in_map_iff in H1, H2.
    destruct H1 as (r1 & E1 & Hr1). destruct H2 as (r2 & E2 & Hr2).
    apply keep_In in Hr1. apply tp_sorted_In in Hr2.
    destruct Hr1 as [Hm1 Hc1]. destruct Hr2 as (Hm2 & Hc2 & _).
    apply (HD r2 r1 Hm2 Hm1 Hc2 Hc1). congruence.
  - intros a H1 H2. apply non_null_In in H1.
    apply in_app_iff in H2. destruct H2 as [H2|H2]; apply non_null_In in H2.
    + apply in_map_iff in H1, H2.
      destruct H1 as (r1 & E1 & Hr1). destruct H2 as (r2 & E2 & Hr2).
      apply tp_keep_In, tp_sorted_In in Hr1. apply keep_In in Hr2.
      destruct Hr1 as (Hm1 & Hc1 & _). destruct Hr2 as [Hm2 Hc2].
      apply (HD r1 r2 Hm1 Hm2 Hc1 Hc2). congruence.
    + apply fn_update_annotation in H2. tauto.
Qed.

End ReduceExclusive.

Lemma reduce_sample_sample (sort_output : bool) (matching : list match_entry)
    (s : string) (r : match_entry) :
  In r (Reduction.reduce_sample sort_output matching s) -> sample_name r = s.
Proof.
  intro H.
  apply (Permutation_in _ (reduce_sample_perm sort_output matching s)) in H.
  cbv zeta in H.
  assert (Hsm : forall x, In x (filter (is_sample s) matching) -> sample_name x = s).
  { intros x Hx. apply filter_In in Hx. apply String.eqb_eq. tauto. }
  assert (Hsorted : forall x,
            In x (Reduction.tp_sample_sorted
                    (Reduction.tables_of (filter (is_sample s) matching))) ->
            sample_name x = s).
  { intros x Hx. apply (proj1 (sort_by_confidence_iou_In _ _)) in Hx.
    apply filter_In in Hx. apply Hsm. tauto. }
  unfold Reduction.tables_of in H.
  cbn [Reduction.tp_keep Reduction.fp_keep Reduction.fp_update Reduction.fn_keep
       Reduction.fn_update] in H.
  rewrite !in_app_iff in H. destruct H as [H|[H|[H|[H|H]]]].
  - apply (drop_duplicates_In opt_eqb opt_eqb_eq) in H.
    apply (drop_duplicates_In opt_eqb opt_eqb_eq) in H. auto.
  - apply filter_In in H. apply Hsm. tauto.
  - apply in_map_iff in H. destruct H as (x & <- & Hx).
    apply (drop_duplicates_In opt_eqb opt_eqb_eq) in Hx.
    apply filter_In in Hx. simpl. apply Hsorted. tauto.
  - apply filter_In in H. apply Hsm. tauto.
  - apply in_map_iff in H. destruct H as (x & <- & Hx).
    apply (drop_duplicates_In opt_eqb opt_eqb_eq) in Hx.
    apply filter_In in Hx. simpl. apply Hsorted. tauto.
Qed.

(** The reduction of a reducible table is exclusive. *)
Lemma reduce_to_exclusive_exclusive (matching : list match_entry)
    (sort_output : bool) :
  reducible matching ->
  exclusive_table (Reduction.reduce_to_exclusive matching sort_output).
Proof.
  intros Hred s. cbv zeta. unfold Reduction.reduce_to_exclusive.
  rewrite (@filter_sample_flat_map (Reduction.reduce_sample sort_output matching)
             _ s (sample_names_of_NoDup matching)
             (reduce_sample_sample sort_output matching)).
  destruct (mem String.eqb s (sample_names_of matching)).
  - split; intro k.
    + apply (NoDup_non_null_count annotation_index).
      apply reduce_sample_annotations. exact Hred.
    + apply (NoDup_non_null_count detection_index).
      apply reduce_sample_detections. exact Hred.
  - split; intro k; unfold count_annotation, count_detection; simpl; lia.
Qed.

(* ------------------------------------------------------------------ *)
(** ** The match table is reducible *)
(* ------------------------------------------------------------------ *)

Lemma sorted_str_NoDup (l : list string) : NoDup l -> NoDup (sorted_str l).
Proof.
  apply Permutation_NoDup. symmetry. apply stable_sort_perm.
Qed.

Lemma class_id_list_of_NoDup annotation_data detection_data match_classes :
  NoDup (class_id_list_of annotation_data detection_data match_classes).
Proof.
  unfold class_id_list_of. apply sorted_str_NoDup.
  destruct match_classes as [[|c cs]|];
    try apply NoDup_filter; apply (unique_NoDup String.eqb String.eqb_eq).
Qed.

Section Reducible.
Variable criterion : vec2 -> vec2 -> vec2 -> vec2 -> pyfloat.
Variable set_iter : list string -> list string.
Hypothesis set_iter_perm : forall s, Permutation (set_iter s) s.
Variable sort_values : list detection -> list detection.
Hypothesis sort_values_perm : forall dets, Permutation (sort_values dets) dets.
Variable impl : match_boxes_impl.
Variable threshold : pyfloat.
Variable annotation_data : list annotation.
Variable detection_data : list detection.
Hypothesis unique_annotations : unique_index ann_index annotation_data.
Hypothesis unique_detections : unique_index det_index detection_data.

Abbreviation pair_row := (row_of_pair criterion set_iter sort_values impl threshold
                        annotation_data detection_data).

(** The detection of a row tells the pair the row was made for. *)
Lemma row_detection_provenance (s c : string) (r : match_entry) (d : string) :
  pair_row s c r -> detection_index r = Some d ->
  exists det, In det detection_data /\ det_index det = d
              /\ det_sample_name det = s /\ det_class_id det = c.
Proof.
  intros Hrow Ed. apply (row_of_pair_spec set_iter_perm sort_values_perm) in Hrow.
  destruct Hrow as (_ & _ & Hrow). destruct (confusion r).
  - destruct Hrow as (ann & det & _ & Hd & _ & _ & Hs & Hc & (_ & _ & E & _)).
    exists det. repeat split; auto. congruence.
  - destruct Hrow as (_ & _ & det & Hd & Hs & Hc & E & _).
    exists det. repeat split; auto. congruence.
  - destruct Hrow as (E & _). congruence.
Qed.

Lemma row_annotation_provenance (s c : string) (r : match_entry) (a : string) :
  pair_row s c r -> annotation_index r = Some a ->
  exists ann, In ann annotation_data /\ ann_index ann = a
              /\ ann_sample_name ann = s /\ ann_class_id ann = c.
Proof.
  intros Hrow Ea. apply (row_of_pair_spec set_iter_perm sort_values_perm) in Hrow.
  destruct Hrow as (_ & _ & Hrow). destruct (confusion r).
  - destruct Hrow as (ann & det & Ha & _ & Hs & Hc & _ & _ & (_ & E & _)).
    exists ann. repeat split; auto. congruence.
  - destruct Hrow as (E & _). congruence.
  - destruct Hrow as (_ & _ & _ & ann & Ha & Hs & Hc & E).
    exists ann. repeat split; auto. congruence.
Qed.

Lemma same_detection_same_pair (s1 c1 s2 c2 : string) (r1 r2 : match_entry) :
  pair_row s1 c1 r1 -> pair_row s2 c2 r2 ->
  detection_index r1 <> None -> detection_index r1 = detection_index r2 ->
  s1 = s2 /\ c1 = c2.
Proof.
  intros H1 H2 Hn E. destruct (detection_index r1) as [d|] eqn:E1; [|congruence].
  destruct (row_detection_provenance H1 E1) as (d1 & Hd1 & I1 & S1 & C1).
  destruct (row_detection_provenance H2 (eq_sym E)) as (d2 & Hd2 & I2 & S2 & C2).
  assert (d1 = d2)
    by (apply (@unique_index_inj _ det_index detection_data); congruence).
  subst d2. split; congruence.
Qed.

Lemma same_annotation_same_pair (s1 c1 s2 c2 : string) (r1 r2 : match_entry) :
  pair_row s1 c1 r1 -> pair_row s2 c2 r2 ->
  annotation_index r1 <> None -> annotation_index r1 = annotation_index r2 ->
  s1 = s2 /\ c1 = c2.
Proof.
  intros H1 H2 Hn E. destruct (annotation_index r1) as [a|] eqn:E1; [|congruence].
  destruct (row_annotation_provenance H1 E1) as (a1 & Ha1 & I1 & S1 & C1).
  destruct (row_annotation_provenance H2 (eq_sym E)) as (a2 & Ha2 & I2 & S2 & C2).
  assert (a1 = a2)
    by (apply (@unique_index_inj _ ann_index annotation_data); congruence).
  subst a2. split; congruence.
Qed.

(** Within the rows of one pair. *)
Lemma pair_rows_reducible (s c : string) (rows : list match_entry) :
  match_partition criterion set_iter sort_values impl threshold s c
    (_filter_for_sample_name_ann annotation_data s)
    (_filter_for_sample_name_det detection_data s) = Some rows ->
  NoDup (map detection_index (filter (has_confusion fp) rows))
  /\ NoDup (map annotation_index (filter (has_confusion fn) rows))
  /\ (forall r r', In r rows -> In r' rows -> confusion r = tp ->
        confusion r' = fp -> detection_index r <> detection_index r')
  /\ (forall r r', In r rows -> In r' rows -> confusion r = tp ->
        confusion r' = fn -> annotation_index r <> annotation_index r').
Proof.
  intro Hp.
  assert (Hs : forall a, In a (_filter_for_sample_name_ann annotation_data s) ->
                         ann_sample_name a = s).
  { intros a Ha. apply filter_In in Ha. apply String.eqb_eq. tauto. }
  destruct (@match_partition_spec criterion set_iter set_iter_perm sort_values sort_values_perm impl threshold
              s c _ _ rows Hs Hp)
    as (tps & fps & fns & -> & _ & Htp & Hfp & Hfn & Hndp & Hndn & Hfps & Hfns).
  assert (Ctp : forall e, In e tps -> confusion e = tp).
  { intros e He. destruct (Htp e He) as (_ & _ & ? & ? & _ & _ & (E & _)). exact E. }
  assert (Cfp : forall e, In e fps -> confusion e = fp).
  { intros e He. destruct (Hfp e He) as (_ & _ & E & _). exact E. }
  assert (Cfn : forall e, In e fns -> confusion e = fn).
  { intros e He. destruct (Hfn e He) as (_ & _ & E & _). exact E. }
  assert (Fnil : forall (c1 c2 : confusion_t) l,
            (forall e, In e l -> confusion e = c1) -> c1 <> c2 ->
            filter (has_confusion c2) l = []).
  { intros c1 c2 l Hl N. apply existsb_false_filter_nil.
    destruct (existsb (has_confusion c2) l) eqn:X; [|reflexivity].
    apply existsb_exists in X. destruct X as (e & He & Ee).
    apply has_confusion_eq in Ee. rewrite (Hl e He) in Ee. congruence. }
  assert (Fid : forall (c1 : confusion_t) l,
            (forall e, In e l -> confusion e = c1) ->
            filter (has_confusion c1) l = l).
  { intros c1 l Hl. apply forallb_filter_id. apply forallb_forall.
    intros e He. apply has_confusion_eq. auto. }
  assert (Hin : forall r (c1 : confusion_t), In r (tps ++ fps ++ fns) ->
            confusion r = c1 ->
            match c1 with tp => In r tps | fp => In r fps | fn => In r fns end).
  { intros r c1 Hr Hc. rewrite !in_app_iff in Hr.
    destruct Hr as [Hr|[Hr|Hr]];
      [rewrite (Ctp r Hr) in Hc|rewrite (Cfp r Hr) in Hc|rewrite (Cfn r Hr) in Hc];
      subst c1; assumption. }
  split; [|split; [|split]].
  - rewrite !filter_app, (Fnil tp fp tps Ctp), (Fid fp fps Cfp), (Fnil fn fp fns Cfn);
      try discriminate. rewrite app_nil_r. exact Hndp.
  - rewrite !filter_app, (Fnil tp fn tps Ctp), (Fnil fp fn fps Cfp), (Fid fn fns Cfn);
      try discriminate. exact Hndn.
  - intros r r' Hr Hr' Hc Hc' E.
    apply (Hin r tp) in Hr; [|assumption]. apply (Hin r' fp) in Hr'; [|assumption].
    destruct (Hfp r' Hr') as (_ & _ & _ & _ & _ & det & _ & Ed & _).
    assert (X : In (Some (det_index det)) (map detection_index fps))
      by (rewrite <- Ed; apply in_map; assumption).
    apply Hfps in X. destruct X as [_ X]. apply X.
    rewrite <- Ed, <- E. apply in_map. assumption.
  - intros r r' Hr Hr' Hc Hc' E.
    apply (Hin r tp) in Hr; [|assumption]. apply (Hin r' fn) in Hr'; [|assumption].
    destruct (Hfn r' Hr') as (_ & _ & _ & _ & _ & _ & a & Ea).
    assert (X : In (Some a) (map annotation_index fns))
      by (rewrite <- Ea; apply in_map; assumption).
    apply Hfns in X. destruct X as [_ X]. apply X.
    rewrite <- Ea, <- E. apply in_map. assumption.
Qed.

Lemma classes_loop_reducible (s : string) (class_id_list : list string)
    (rows : list match_entry) :
  NoDup class_id_list ->
  match_classes_loop criterion set_iter sort_values impl threshold s
    (_filter_for_sample_name_ann annotation_data s)
    (_filter_for_sample_name_det detection_data s) class_id_list = Some rows ->
  NoDup (map detection_index (filter (has_confusion fp) rows))
  /\ NoDup (map annotation_index (filter (has_confusion fn) rows)).
Proof.
  revert rows. induction class_id_list as [|c cs IH]; intros rows Hnd H.
  - simpl in H. injection H as <-. split; constructor.
  - cbn [match_classes_loop] in H.
    destruct (match_partition criterion set_iter sort_values impl threshold s c _ _)
      as [rows_c|] eqn:Ec; [|discriminate].
    destruct (match_classes_loop criterion set_iter sort_values impl threshold s _ _ cs)
      as [more|] eqn:Em; [|discriminate].
    injection H as <-. inversion Hnd as [|? ? Hn Hnd']; subst.
    destruct (IH more Hnd' eq_refl) as [IHd IHa].
    destruct (pair_rows_reducible _ _ Ec) as (Pd & Pa & _ & _).
    rewrite !filter_app, !map_app.
    split; apply NoDup_app_intro; auto.
    + intros k H1 H2. apply in_map_iff in H1, H2.
      destruct H1 as (r1 & E1 & Hr1). destruct H2 as (r2 & E2 & Hr2).
      apply filter_In in Hr1, Hr2.
      destruct Hr1 as [Hr1 Hc1]. destruct Hr2 as [Hr2 Hc2].
      apply has_confusion_eq in Hc1, Hc2.
      destruct (@match_classes_loop_rows criterion set_iter sort_values impl threshold
                  annotation_data detection_data s cs more r2 Em Hr2)
        as (c' & Hc' & Hrow2).
      assert (Hrow1 : pair_row s c r1) by (exists rows_c; auto).
      destruct (@same_detection_same_pair s c s c' r1 r2 Hrow1 Hrow2) as [_ E].
      * apply (row_of_pair_spec set_iter_perm sort_values_perm) in Hrow1.
        destruct Hrow1 as (_ & _ & Hrow1). rewrite Hc1 in Hrow1.
        destruct Hrow1 as (_ & _ & det & _ & _ & _ & Ed & _). congruence.
      * congruence.
      * subst c'. contradiction.
    + intros k H1 H2. apply in_map_iff in H1, H2.
      destruct H1 as (r1 & E1 & Hr1). destruct H2 as (r2 & E2 & Hr2).
      apply filter_In in Hr1, Hr2.
      destruct Hr1 as [Hr1 Hc1]. destruct Hr2 as [Hr2 Hc2].
      apply has_confusion_eq in Hc1, Hc2.
      destruct (@match_classes_loop_rows criterion set_iter sort_values impl threshold
                  annotation_data detection_data s cs more r2 Em Hr2)
        as (c' & Hc' & Hrow2).
      assert (Hrow1 : pair_row s c r1) by (exists rows_c; auto).
      destruct (@same_annotation_same_pair s c s c' r1 r2 Hrow1 Hrow2) as [_ E].
      * apply (row_of_pair_spec set_iter_perm sort_values_perm) in Hrow1.
        destruct Hrow1 as (_ & _ & Hrow1). rewrite Hc1 in Hrow1.
        destruct Hrow1 as (_ & _ & _ & ann & _ & _ & _ & Ea). congruence.
      * congruence.
      * subst c'. contradiction.
Qed.

Lemma samples_loop_reducible (class_id_list sample_name_list : list string)
    (rows : list match_entry) :
  NoDup class_id_list -> NoDup sample_name_list ->
  match_samples_loop criterion set_iter sort_values impl threshold annotation_data
    detection_data class_id_list sample_name_list = Some rows ->
  NoDup (map detection_index (filter (has_confusion fp) rows))
  /\ NoDup (map annotation_index (filter (has_confusion fn) rows)).
Proof.
  intros Hcs. revert rows.
  induction sample_name_list as [|s ss IH]; intros rows Hnd H.
  - simpl in H. injection H as <-. split; constructor.
  - cbn [match_samples_loop] in H.
    destruct (match_classes_loop criterion set_iter sort_values impl threshold s _ _ class_id_list)
      as [rows_s|] eqn:Es; [|discriminate].
    destruct (match_samples_loop criterion set_iter sort_values impl threshold _ _ _ ss)
      as [more|] eqn:Em; [|discriminate].
    injection H as <-. inversion Hnd as [|? ? Hn Hnd']; subst.
    destruct (IH more Hnd' eq_refl) as [IHd IHa].
    destruct (classes_loop_reducible _ Hcs Es) as [Pd Pa].
    rewrite !filter_app, !map_app.
    split; apply NoDup_app_intro; auto.
    + intros k H1 H2. apply in_map_iff in H1, H2.
      destruct H1 as (r1 & E1 & Hr1). destruct H2 as (r2 & E2 & Hr2).
      apply filter_In in Hr1, Hr2.
      destruct Hr1 as [Hr1 Hc1]. destruct Hr2 as [Hr2 Hc2].
      apply has_confusion_eq in Hc1, Hc2.
      destruct (@match_classes_loop_rows criterion set_iter sort_values impl threshold
                  annotation_data detection_data s class_id_list rows_s r1 Es Hr1)
        as (c1 & _ & Hrow1).
      destruct (@match_samples_loop_rows criterion set_iter sort_values impl threshold
                  annotation_data detection_data class_id_list ss more r2 Em Hr2)
        as (s2 & c2 & Hs2 & _ & Hrow2).
      destruct (@same_detection_same_pair s c1 s2 c2 r1 r2 Hrow1 Hrow2) as [E _].
      * apply (row_of_pair_spec set_iter_perm sort_values_perm) in Hrow1.
        destruct Hrow1 as (_ & _ & Hrow1). rewrite Hc1 in Hrow1.
        destruct Hrow1 as (_ & _ & det & _ & _ & _ & Ed & _). congruence.
      * congruence.
      * subst s2. contradiction.
    + intros k H1 H2. apply in_map_iff in H1, H2.
      destruct H1 as (r1 & E1 & Hr1). destruct H2 as (r2 & E2 & Hr2).
      apply filter_In in Hr1, Hr2.
      destruct Hr1 as [Hr1 Hc1]. destruct Hr2 as [Hr2 Hc2].
      apply has_confusion_eq in Hc1, Hc2.
      destruct (@match_classes_loop_rows criterion set_iter sort_values impl threshold
                  annotation_data detection_data s class_id_list rows_s r1 Es Hr1)
        as (c1 & _ & Hrow1).
      destruct (@match_samples_loop_rows criterion set_iter sort_values impl threshold
                  annotation_data detection_data class_id_list ss more r2 Em Hr2)
        as (s2 & c2 & Hs2 & _ & Hrow2).
      destruct (@same_annotation_same_pair s c1 s2 c2 r1 r2 Hrow1 Hrow2) as [E _].
      * apply (row_of_pair_spec set_iter_perm sort_values_perm) in Hrow1.
        destruct Hrow1 as (_ & _ & Hrow1). rewrite Hc1 in Hrow1.
        destruct Hrow1 as (_ & _ & _ & ann & _ & _ & _ & Ea). congruence.
      * congruence.
      * subst s2. contradiction.
Qed.

Variable match_classes : option (list string).
Variable matching : list match_entry.
Hypothesis matching_eq :
  match_ criterion set_iter sort_values impl annotation_data detection_data threshold
    match_classes = Some matching.

Lemma same_pair_same_rows (s c : string) (r r' : match_entry) :
  pair_row s c r -> pair_row s c r' ->
  exists rows,
    match_partition criterion set_iter sort_values impl threshold s c
      (_filter_for_sample_name_ann annotation_data s)
      (_filter_for_sample_name_det detection_data s) = Some rows
    /\ In r rows /\ In r' rows.
Proof.
  intros (rows & H & Hr) (rows' & H' & Hr').
  exists rows. rewrite H in H'. injection H' as <-. auto.
Qed.

(** The table returned by [match] on tables with unique index labels can
    be reduced. *)
Lemma match_reducible : reducible matching.
Proof.
  pose proof (@match_row_origin criterion set_iter sort_values impl threshold annotation_data
                detection_data match_classes matching matching_eq) as Horigin.
  pose proof (@match_row_shape criterion set_iter set_iter_perm sort_values sort_values_perm impl threshold
                annotation_data detection_data match_classes matching matching_eq)
    as Hshape.
  pose proof matching_eq as Hm. unfold match_ in Hm.
  destruct (@samples_loop_reducible _ _ matching
              (class_id_list_of_NoDup annotation_data detection_data match_classes)
              (sorted_str_NoDup (unique_NoDup String.eqb String.eqb_eq _)) Hm)
    as [HA HC].
  split; [exact HA|]. split; [exact HC|].
  split; [|split; [|split]].
  - intros r r' Hr Hr' Hc Hc' E.
    destruct (Horigin r Hr) as (s & c & _ & _ & Hrow).
    destruct (Horigin r' Hr') as (s' & c' & _ & _ & Hrow').
    assert (Hn : detection_index r <> None).
    { pose proof (Hshape r Hr) as S. unfold row_shape in S. rewrite Hc in S. tauto. }
    destruct (same_detection_same_pair Hrow Hrow' Hn E) as [<- <-].
    destruct (same_pair_same_rows Hrow Hrow') as (rows & Hp & Hin & Hin').
    destruct (pair_rows_reducible _ _ Hp) as (_ & _ & HB & _).
    exact (HB r r' Hin Hin' Hc Hc' E).
  - intros r r' Hr Hr' Hc Hc' E.
    destruct (Horigin r Hr) as (s & c & _ & _ & Hrow).
    destruct (Horigin r' Hr') as (s' & c' & _ & _ & Hrow').
    assert (Hn : annotation_index r <> None).
    { pose proof (Hshape r Hr) as S. unfold row_shape in S. rewrite Hc in S. tauto. }
    destruct (same_annotation_same_pair Hrow Hrow' Hn E) as [<- <-].
    destruct (same_pair_same_rows Hrow Hrow') as (rows & Hp & Hin & Hin').
    destruct (pair_rows_reducible _ _ Hp) as (_ & _ & _ & HD).
    exact (HD r r' Hin Hin' Hc Hc' E).
  - intros r Hr Hc. pose proof (Hshape r Hr) as S. unfold row_shape in S.
    rewrite Hc in S. tauto.
  - intros r Hr Hc. pose proof (Hshape r Hr) as S. unfold row_shape in S.
    rewrite Hc in S. tauto.
Qed.

End Reducible.

(** C1 -- The table [reduce_to_exclusive] makes of a table returned by the
    correlator (either policy; the index labels of the annotation table and
    of the prediction table being unique) is exclusive: within each sample
    every non-null annotation index is in at most one row and every
    non-null detection index is in at most one row -- so in at most one tp
    row, and never in a tp row and an fp (resp. fn) row. *)
Theorem reduce_to_exclusive_of_match_exclusive
    (criterion : vec2 -> vec2 -> vec2 -> vec2 -> pyfloat)
    (set_iter : list string -> list string)
    (sort_values : list detection -> list detection)
    (impl : match_boxes_impl) (threshold : pyfloat)
    (annotation_data : list annotation) (detection_data : list detection)
    (match_classes : option (list string)) (matching : list match_entry)
    (sort_output : bool) :
  (forall s, Permutation (set_iter s) s) ->
  (forall dets, Permutation (sort_values dets) dets) ->
  unique_index ann_index annotation_data ->
  unique_index det_index detection_data ->
  match_ criterion set_iter sort_values impl annotation_data detection_data threshold
    match_classes = Some matching ->
  forall s,
    let rows :=
      filter (is_sample s) (Reduction.reduce_to_exclusive matching sort_output) in
    (forall a, (count_annotation (Some a) rows <= 1)%nat)
    /\ (forall d, (count_detection (Some d) rows <= 1)%nat)
    /\ (forall a, (count_annotation (Some a) (filter (has_confusion tp) rows) <= 1)%nat)
    /\ (forall d, (count_detection (Some d) (filter (has_confusion tp) rows) <= 1)%nat)
    /\ (forall r r', In r rows -> In r' rows ->
          confusion r = tp -> confusion r' = fp ->
          detection_index r <> None ->
          detection_index r <> detection_index r')
    /\ (forall r r', In r rows -> In r' rows ->
          confusion r = tp -> confusion r' = fn ->
          annotation_index r <> None ->
          annotation_index r <> annotation_index r').
Proof.
  intros Hperm Hsort Hua Hud Hm s. cbv zeta.
  pose proof (@match_reducible criterion set_iter Hperm sort_values Hsort impl threshold
                annotation_data detection_data Hua Hud match_classes matching Hm)
    as Hred.
  destruct (reduce_to_exclusive_exclusive sort_output Hred s) as [Ha Hd].
  cbv zeta in Ha, Hd.
  set (rows := filter (is_sample s)
                 (Reduction.reduce_to_exclusive matching sort_output)) in *.
  assert (Hsub : forall (p q : match_entry -> bool) (l : list match_entry),
            (List.length (filter p (filter q l)) <= List.length (filter p l))%nat).
  { intros p q l. induction l as [|x l IH]; simpl; [lia|].
    destruct (q x) eqn:Q; simpl; destruct (p x) eqn:P; simpl; lia. }
  assert (Htwo : forall (key : match_entry -> option string) (k : string)
                        (r r' : match_entry),
            (List.length (filter (fun x => opt_eqb (key x) (Some k)) rows) <= 1)%nat ->
            In r rows -> In r' rows -> key r = Some k -> key r' = Some k -> r = r').
  { intros key k r r' Hle Hr Hr' Ek Ek'.
    assert (Hf : In r (filter (fun x => opt_eqb (key x) (Some k)) rows))
      by (apply filter_In; split; [assumption|apply opt_eqb_eq; assumption]).
    assert (Hf' : In r' (filter (fun x => opt_eqb (key x) (Some k)) rows))
      by (apply filter_In; split; [assumption|apply opt_eqb_eq; assumption]).
    destruct (filter (fun x => opt_eqb (key x) (Some k)) rows) as [|y [|z l]];
      simpl in *; try lia; try tauto.
    destruct Hf as [<-|[]], Hf' as [<-|[]]. reflexivity. }
  split; [exact Ha|]. split; [exact Hd|].
  split; [|split; [|split]].
  - intro a. unfold count_annotation in *.
    pose proof (Hsub (fun r => opt_eqb (annotation_index r) (Some a))
                  (has_confusion tp) rows).
    specialize (Ha a). lia.
  - intro d. unfold count_detection in *.
    pose proof (Hsub (fun r => opt_eqb (detection_index r) (Some d))
                  (has_confusion tp) rows).
    specialize (Hd d). lia.
  - intros r r' Hr Hr' Hc Hc' Hn E.
    destruct (detection_index r) as [d|] eqn:Ed; [|congruence].
    assert (r = r') by (eapply (Htwo detection_index d); eauto). subst r'. congruence.
  - intros r r' Hr Hr' Hc Hc' Hn E.
    destruct (annotation_index r) as [a|] eqn:Ea; [|congruence].
    assert (r = r') by (eapply (Htwo annotation_index a); eauto). subst r'. congruence.
Qed.

Lemma test_tables_unique_index :
  unique_index ann_index test_annotation_data
  /\ unique_index det_index ([] ++ test_prediction_data).
Proof.
  unfold unique_index. split; vm_compute;
    repeat (constructor; [simpl; intuition discriminate|]); constructor.
Qed.

Lemma reduce_to_exclusive_of_match_exclusive_witness :
  exclusive_table
    (Reduction.reduce_to_exclusive (test_matching match_boxes_complete_impl []) true)
  /\ List.length
       (Reduction.reduce_to_exclusive (test_matching match_boxes_complete_impl []) true)
     = 9%nat.
Proof.
  split; [|vm_compute; reflexivity].
  intro s.
  destruct (@reduce_to_exclusive_of_match_exclusive
              test_criterion in_list_order test_sort_values
              match_boxes_complete_impl (Fin (1 # 2))
              test_annotation_data ([] ++ test_prediction_data) None
              (test_matching match_boxes_complete_impl []) true
              in_list_order_perm test_sort_values_perm
              (proj1 test_tables_unique_index)
              (proj2 test_tables_unique_index)
              (test_matching_eq match_boxes_complete_impl []
                 ltac:(vm_compute; discriminate))
              s) as (Ha & Hd & _).
  split; assumption.
Defined.
